(** * compeek: the unified-diff parser of [src/server/git-diff.ts]

    A shallow embedding of [GitDiffParser] (with [validateDiffArguments],
    [shortHash] and [createCommitRangeString] of [src/cli/utils.ts]), of
    the command line that calls it, of what the viewer shows of its result
    and of [findAvailablePort], and the properties of its specification.

    Conventions of the embedding.
    - A JavaScript string is the list of its UTF-16 code units ([list N]);
      [lit] turns an ASCII literal of the source into such a list.
    - A JavaScript number is the natural number it holds (an [N]): the
      parser only meets non-negative integers.  Reading a number from
      digits ([parseInt]) and [++] give the nearest double ([toNumber]);
      [Infinity] is written as 2^1024, which is above every finite double.
      The length of an array and a count of its elements are exact: an
      array holds fewer than 2^32 elements.
    - An optional property ([oldLineNumber?: number]) is an [option].
    - [async] code that talks to git or to the file system is written in a
      small trace-and-exception monad over an explicit environment. *)

From Stdlib Require Import List NArith ZArith Bool Lia String Ascii.
From Stdlib Require DecimalPos DecimalN.
Import ListNotations.

Local Open Scope N_scope.
Local Open Scope list_scope.

(* ================================================================= *)
(** ** JavaScript strings *)

Definition jsstring := list N.

Definition lit (s : string) : jsstring :=
  map N_of_ascii (list_ascii_of_string s).
Arguments lit s%_string.

(** [s.startsWith(p)] *)
Fixpoint startsWith (s p : jsstring) {struct p} : bool :=
  match p with
  | [] => true
  | c :: p' =>
      match s with
      | [] => false
      | d :: s' => (d =? c) && startsWith s' p'
      end
  end.

(** [s.includes(p)] *)
Fixpoint includes (s p : jsstring) : bool :=
  startsWith s p ||
  match s with
  | [] => false
  | _ :: s' => includes s' p
  end.

(** [s === t] on strings *)
Fixpoint str_eqb (s t : jsstring) : bool :=
  match s, t with
  | [], [] => true
  | c :: s', d :: t' => (c =? d) && str_eqb s' t'
  | _, _ => false
  end.

(** [arr.includes(s)] on an array of strings *)
Definition arr_includes (arr : list jsstring) (s : jsstring) : bool :=
  existsb (str_eqb s) arr.

(** [arr.find(pred)]: the first element that satisfies [pred], or
    [undefined] *)
Definition arr_find {A} (pred : A -> bool) (arr : list A) : option A :=
  find pred arr.

(** [s.substring(n)] for [0 <= n] *)
Definition substring_from (n : nat) (s : jsstring) : jsstring := skipn n s.

(** [s.substring(0, n)] *)
Definition substring_to (n : nat) (s : jsstring) : jsstring := firstn n s.

(** ECMAScript [LineTerminator]: LF, CR, LS, PS.  The regular-expression
    atom [.] excludes exactly these, and a multiline [^] matches right
    after one of them. *)
Definition isLineTerminator (c : N) : bool :=
  (c =? 10) || (c =? 13) || (c =? 8232) || (c =? 8233).

(** ECMAScript [WhiteSpace] or [LineTerminator], the code units that
    [String.prototype.trim] removes. *)
Definition isWhiteSpace (c : N) : bool :=
  (c =? 9) || (c =? 11) || (c =? 12) || (c =? 32) || (c =? 160) ||
  (c =? 65279) || (c =? 5760) || ((8192 <=? c) && (c <=? 8202)) ||
  (c =? 8239) || (c =? 8287) || (c =? 12288) || isLineTerminator c.

Fixpoint trimStart (s : jsstring) : jsstring :=
  match s with
  | [] => []
  | c :: s' => if isWhiteSpace c then trimStart s' else s
  end.

(** [s.trim()] *)
Definition trim (s : jsstring) : jsstring :=
  rev (trimStart (rev (trimStart s))).

(** The truth value of a string in a condition: non-empty. *)
Definition truthy (s : jsstring) : bool :=
  match s with [] => false | _ :: _ => true end.

(** [s.split(sep)] for a one-unit separator; the result is never empty. *)
Fixpoint split_on (sep : N) (s : jsstring) : jsstring * list jsstring :=
  match s with
  | [] => ([], [])
  | c :: s' =>
      let (l, ls) := split_on sep s' in
      if c =? sep then ([], l :: ls) else (c :: l, ls)
  end.

Definition split (sep : N) (s : jsstring) : list jsstring :=
  let (l, ls) := split_on sep s in l :: ls.

Definition LF : N := 10.

(** [\d] of a regular expression without the [u] flag: ASCII digits. *)
Definition isDigit (c : N) : bool := (48 <=? c) && (c <=? 57).

(* ================================================================= *)
(** ** JavaScript numbers *)

(** [Infinity], as the least natural number above every finite double. *)
Definition Infinity : N := 2 ^ 1024.

(** The Number value of a natural number: the nearest double, the one with
    the even significand when two are equally near, [Infinity] from
    2^1024 - 2^970 on.  Up to 2^53 every natural number is a double; above,
    the doubles around [n] are the multiples of [ulp]. *)
Definition toNumber (n : N) : N :=
  if n <=? 2 ^ 53 then n
  else
    let ulp := 2 ^ (N.log2 n - 52) in
    let q := n / ulp in
    let r := n mod ulp in
    let q' := if (ulp <? 2 * r) || ((2 * r =? ulp) && N.odd q)
              then q + 1 else q in
    N.min (q' * ulp) Infinity.
Arguments toNumber : simpl never.

(** [x++] on a number: the sum is rounded, so that from 2^53 on the value
    may stay as it is or advance by more than one. *)
Definition increment (x : N) : N := toNumber (x + 1).
Arguments increment : simpl never.

(** The value that a string of decimal digits denotes. *)
Definition decimalValue (ds : jsstring) : N :=
  fold_left (fun acc d => acc * 10 + (d - 48)) ds 0.

(** [parseInt(s)] on a string the regular expression has matched against
    [\d+]: the Number value of the decimal value (the engine of Node
    rounds the decimal value correctly, whatever the number of digits). *)
Definition parseInt (ds : jsstring) : N := toNumber (decimalValue ds).

(** The longest prefix of digits and what follows it: a greedy [\d*]. *)
Fixpoint span_digits (s : jsstring) : jsstring * jsstring :=
  match s with
  | [] => ([], [])
  | c :: s' =>
      if isDigit c
      then let (ds, r) := span_digits s' in (c :: ds, r)
      else ([], s)
  end.

(** Remove the literal prefix [p], if [s] starts with it. *)
Fixpoint strip_prefix (p s : jsstring) : option jsstring :=
  match p with
  | [] => Some s
  | c :: p' =>
      match s with
      | [] => None
      | d :: s' => if d =? c then strip_prefix p' s' else None
      end
  end.

(* ================================================================= *)
(** ** Data model ([src/types/diff.ts]) *)

Module LineType.
Inductive t := context | added | deleted.
Definition eqb (a b : t) : bool :=
  match a, b with
  | context, context | added, added | deleted, deleted => true
  | _, _ => false
  end.
End LineType.

Module Status.
Inductive t := added | modified | deleted | renamed.
Definition eqb (a b : t) : bool :=
  match a, b with
  | added, added | modified, modified
  | deleted, deleted | renamed, renamed => true
  | _, _ => false
  end.
End Status.

Record DiffLine := mkDiffLine {
  type : LineType.t;
  content : jsstring;
  oldLineNumber : option N;
  newLineNumber : option N
}.

Record DiffChunk := mkDiffChunk {
  oldStart : N;
  oldLines : N;
  newStart : N;
  newLines : N;
  lines : list DiffLine
}.

Record DiffFile := mkDiffFile {
  filename : jsstring;
  oldFilename : option jsstring;
  status : Status.t;
  additions : N;
  deletions : N;
  chunks : list DiffChunk;
  isBinary : option bool;
  isImage : option bool
}.

Record DiffResponse := mkDiffResponse {
  files : list DiffFile;
  commit : jsstring;
  isEmpty : bool
}.

(* ================================================================= *)
(** ** [parseChunks] *)

(** One optional group [(?:,(\d+))?]: taken when a comma and at least one
    digit follow, skipped otherwise. *)
Definition opt_count (s : jsstring) : option jsstring * jsstring :=
  match s with
  | c :: s' =>
      if c =? 44
      then match span_digits s' with
           | ([], _) => (None, s)
           | (ds, r) => (Some ds, r)
           end
      else (None, s)
  | [] => (None, s)
  end.

(** [line.match(/^@@ -(\d+)(?:,(\d+))? \+(\d+)(?:,(\d+))? @@/)]: the four
    capture groups, the second and the fourth possibly undefined.  Every
    quantifier is followed by a character it cannot itself consume, so the
    greedy choice is the only one that can succeed. *)
Definition matchHunkHeader (line : jsstring)
  : option (jsstring * option jsstring * jsstring * option jsstring) :=
  match strip_prefix (lit "@@ -") line with
  | None => None
  | Some r0 =>
      match span_digits r0 with
      | ([], _) => None
      | (m1, r1) =>
          let (m2, r2) := opt_count r1 in
          match strip_prefix (lit " +") r2 with
          | None => None
          | Some r3 =>
              match span_digits r3 with
              | ([], _) => None
              | (m3, r4) =>
                  let (m4, r5) := opt_count r4 in
                  match strip_prefix (lit " @@") r5 with
                  | None => None
                  | Some _ => Some (m1, m2, m3, m4)
                  end
              end
          end
      end
  end.

(** [m || '1'] on a capture group: a captured group is a non-empty string,
    hence truthy. *)
Definition orOne (m : option jsstring) : jsstring :=
  match m with
  | Some ds => if truthy ds then ds else lit "1"
  | None => lit "1"
  end.

(** The local variables of the loop of [parseChunks]. *)
Record ChunkState := mkChunkState {
  doneChunks : list DiffChunk;
  currentChunk : option DiffChunk;
  oldCounter : N;
  newCounter : N
}.

Definition initChunkState : ChunkState := mkChunkState [] None 0 0.

(** [chunks.push(currentChunk)] when there is an open chunk. *)
Definition pushCurrent (st : ChunkState) : list DiffChunk :=
  match currentChunk st with
  | Some c => doneChunks st ++ [c]
  | None => doneChunks st
  end.

Definition isContentLine (line : jsstring) : bool :=
  startsWith line (lit " ") || startsWith line (lit "+") ||
  startsWith line (lit "-").

Definition lineTypeOf (line : jsstring) : LineType.t :=
  if startsWith line (lit "+") then LineType.added
  else if startsWith line (lit "-") then LineType.deleted
  else LineType.context.

Definition pushLine (c : DiffChunk) (l : DiffLine) : DiffChunk :=
  mkDiffChunk (oldStart c) (oldLines c) (newStart c) (newLines c)
              (lines c ++ [l]).

(** The body of [for (const line of lines)]. *)
Definition chunkStep (st : ChunkState) (line : jsstring) : ChunkState :=
  if startsWith line (lit "@@") then
    match matchHunkHeader line with
    | Some (m1, m2, m3, m4) =>
        let oStart := parseInt m1 in
        let oLines := parseInt (orOne m2) in
        let nStart := parseInt m3 in
        let nLines := parseInt (orOne m4) in
        mkChunkState (pushCurrent st)
                     (Some (mkDiffChunk oStart oLines nStart nLines []))
                     oStart nStart
    | None => st
    end
  else
    match currentChunk st with
    | Some c =>
        if isContentLine line then
          let ty := lineTypeOf line in
          let notAdded := negb (LineType.eqb ty LineType.added) in
          let notDeleted := negb (LineType.eqb ty LineType.deleted) in
          let diffLine :=
            mkDiffLine ty (substring_from 1 line)
                       (if notAdded then Some (oldCounter st) else None)
                       (if notDeleted then Some (newCounter st) else None) in
          mkChunkState (doneChunks st) (Some (pushLine c diffLine))
                       (if notAdded then increment (oldCounter st)
                        else oldCounter st)
                       (if notDeleted then increment (newCounter st)
                        else newCounter st)
        else st
    | None => st
    end.

Definition parseChunks (ls : list jsstring) : list DiffChunk :=
  pushCurrent (fold_left chunkStep ls initChunkState).


(* ================================================================= *)
(** ** [parseFileBlock] *)

Definition noLineTerminator (s : jsstring) : bool :=
  forallb (fun c => negb (isLineTerminator c)) s.

(** [(.+) b\/(.+)$] on a string without line terminators: both groups are
    non-empty and the first one, being greedy, is as long as possible, so
    the separator is the last [" b/"] that leaves a non-empty second
    group. *)
Fixpoint greedyPair (s : jsstring) : option (jsstring * jsstring) :=
  match s with
  | [] => None
  | c :: s' =>
      match greedyPair s' with
      | Some (x, y) => Some (c :: x, y)
      | None =>
          match strip_prefix (lit " b/") s' with
          | Some (d :: y) => Some ([c], d :: y)
          | _ => None
          end
      end
  end.

(** [firstLine.match(/^a\/(.+) b\/(.+)$/)]: the two capture groups.  There
    is no [m] flag, so [$] is the end of the string, and [.] matches no
    line terminator. *)
Definition matchFileHeader (firstLine : jsstring)
  : option (jsstring * jsstring) :=
  match strip_prefix (lit "a/") firstLine with
  | None => None
  | Some r => if noLineTerminator r then greedyPair r else None
  end.

(** [s.lastIndexOf(c)]: [-1] when [c] does not occur. *)
Fixpoint lastIndexOf (c : N) (s : jsstring) : Z :=
  match s with
  | [] => (-1)%Z
  | d :: s' =>
      let i := lastIndexOf c s' in
      if (0 <=? i)%Z then (i + 1)%Z
      else if d =? c then 0%Z else (-1)%Z
  end.

(** The truth value of [string | undefined]. *)
Definition truthyOpt (o : option jsstring) : bool :=
  match o with
  | Some s => truthy s
  | None => false
  end.

Definition imageExtensions : list jsstring :=
  [lit ".png"; lit ".jpg"; lit ".jpeg"; lit ".gif"; lit ".bmp"; lit ".svg";
   lit ".webp"].

(** [chunks.forEach(chunk => chunk.lines.forEach(line => ...))] counting
    the lines of one type; the count is at most the length of the array of
    lines of the block, hence exact. *)
Definition countLines (ty : LineType.t) (cs : list DiffChunk) : N :=
  fold_left
    (fun n chunk =>
       fold_left (fun n line => if LineType.eqb (type line) ty then n + 1 else n)
                 (lines chunk) n)
    cs 0.

(** The regular expression [/^diff --git /m] of [parseDiffOutput]. *)
Definition diffGitMarker : jsstring := lit "diff --git ".

(** [text.split(/^diff --git /m)].  The scan keeps the piece collected so
    far ([cur], reversed) and whether the position is at a line start
    ([bol]: the start of the text or right after a line terminator).  A
    match closes the piece and consumes the marker ([skip] counts the
    units of it still to drop); the position after the marker follows a
    space, so it is not a line start. *)
Fixpoint splitMarker (skip : nat) (bol : bool) (cur s : jsstring)
  : list jsstring :=
  match s with
  | [] => [rev cur]
  | c :: s' =>
      match skip with
      | S k => splitMarker k false cur s'
      | O =>
          if bol && startsWith s diffGitMarker
          then rev cur :: splitMarker (pred (List.length diffGitMarker)) false [] s'
          else splitMarker O (isLineTerminator c) (c :: cur) s'
      end
  end.

Definition splitDiffGit (text : jsstring) : list jsstring :=
  splitMarker 0 true [] text.

Section Parser.

(** [String.prototype.toLowerCase] follows the Unicode case tables of
    the engine; the parser only feeds its result to [substring] and to a
    membership test, so it is kept abstract. *)
Variable toLowerCase : jsstring -> jsstring.

Definition isImageFile (name : jsstring) : bool :=
  let ext :=
    substring_from (Z.to_nat (lastIndexOf 46 name)) (toLowerCase name) in
  arr_includes imageExtensions ext.

Definition parseFileBlock (ls : list jsstring) : option DiffFile :=
  match ls with
  | [] => None
  | firstLine :: _ =>
      match matchFileHeader firstLine with
      | None => None
      | Some (oldName, newName) =>
          let newFileMatch :=
            arr_find (fun l => startsWith l (lit "new file mode")) ls in
          let deletedFileMatch :=
            arr_find (fun l => startsWith l (lit "deleted file mode")) ls in
          let renameMatch :=
            arr_find (fun l => startsWith l (lit "rename from")) ls in
          let binaryMatch :=
            arr_find (fun l => includes l (lit "Binary files")) ls in
          let '(st, name) :=
            if truthyOpt newFileMatch then (Status.added, newName)
            else if truthyOpt deletedFileMatch then (Status.deleted, oldName)
            else if truthyOpt renameMatch then (Status.renamed, newName)
            else (Status.modified, newName) in
          let oldOpt :=
            if Status.eqb st Status.renamed then Some oldName else None in
          if truthyOpt binaryMatch then
            Some (mkDiffFile name oldOpt st 0 0 [] (Some true)
                             (Some (isImageFile name)))
          else
            let cs := parseChunks ls in
            Some (mkDiffFile name oldOpt st
                             (countLines LineType.added cs)
                             (countLines LineType.deleted cs)
                             cs None None)
      end
  end.

Definition parseDiffOutput (diffText : jsstring) : list DiffFile :=
  let fileBlocks :=
    filter (fun block => truthy (trim block)) (splitDiffGit diffText) in
  fold_left
    (fun acc block =>
       match parseFileBlock (split LF block) with
       | Some fileDiff => acc ++ [fileDiff]
       | None => acc
       end)
    fileBlocks [].

End Parser.

(* ================================================================= *)
(** ** [src/cli/utils.ts] *)

Record ValidationResult := mkValidation {
  valid : bool;
  error : option jsstring
}.

Definition specialArgs : list jsstring :=
  [lit "working"; lit "staged"; lit "."].

(** [!s || s.trim() === ''] *)
Definition emptyArg (s : jsstring) : bool :=
  negb (truthy s) || str_eqb (trim s) [].

Definition validateDiffArguments (target : jsstring)
    (compareWith : option jsstring) : ValidationResult :=
  if arr_includes specialArgs target then mkValidation true None
  else if emptyArg target
  then mkValidation false (Some (lit "Target commit cannot be empty"))
  else if match compareWith with
          | Some c => emptyArg c
          | None => false
          end
  then mkValidation false (Some (lit "Compare-with commit cannot be empty"))
  else mkValidation true None.

Definition shortHash (hash : jsstring) : jsstring := substring_to 7 hash.

Definition createCommitRangeString (target base : jsstring) : jsstring :=
  if str_eqb target (lit "working")
  then lit "Working Directory (unstaged changes)"
  else if str_eqb target (lit "staged")
  then shortHash base ++ lit " vs Staging Area (staged changes)"
  else if str_eqb target (lit ".")
  then shortHash base ++ lit " vs Working Directory (all uncommitted changes)"
  else shortHash base ++ lit ".." ++ shortHash target.

(* ================================================================= *)
(** ** Effects: git, the file system and exceptions *)

(** A thrown value: an [Error] object with its message, or anything
    else. *)
Inductive thrown :=
| ErrorObj (message : jsstring)
| NonError.

(** The calls that leave the process. *)
Inductive event :=
| EvRevparse (ref : jsstring)
| EvRaw (args : list jsstring)
| EvStatus
| EvStat (path : jsstring)
| EvReadFile (path : jsstring)
| EvWarn (path : jsstring).

(** What the outside world answers.  [git_status] gives the paths of
    [status.files] and [status.not_added]; [fs_stat] gives
    [stats.isFile()]. *)
Record Env := mkEnv {
  git_revparse : jsstring -> thrown + jsstring;
  git_raw : list jsstring -> thrown + jsstring;
  git_status : thrown + (list jsstring * list jsstring);
  fs_stat : jsstring -> thrown + bool;
  fs_readFile : jsstring -> thrown + jsstring
}.

(** A computation: the calls it made, in order, and how it ended. *)
Definition M (A : Type) : Type := (list event * (thrown + A))%type.

Definition ret {A} (a : A) : M A := ([], inr a).

Definition throw {A} (e : thrown) : M A := ([], inl e).

Definition bind {A B} (m : M A) (k : A -> M B) : M B :=
  match m with
  | (t, inl e) => (t, inl e)
  | (t, inr a) => let (t', r) := k a in (t ++ t', r)
  end.

Definition tryCatch {A} (m : M A) (handler : thrown -> M A) : M A :=
  match m with
  | (t, inl e) => let (t', r) := handler e in (t ++ t', r)
  | (t, inr a) => (t, inr a)
  end.

Definition perform {A} (ev : event) (answer : thrown + A) : M A :=
  ([ev], answer).

Notation "x <- m ;; k" := (bind m (fun x => k))
  (at level 61, m at next level, right associativity).
Notation "' pat <- m ;; k" :=
  (bind m (fun x => match x with pat => k end))
  (at level 61, pat pattern, m at next level, right associativity).


(** The decimal digits of a natural number. *)
Fixpoint uintUnits (u : Decimal.uint) : jsstring :=
  match u with
  | Decimal.Nil => []
  | Decimal.D0 u => 48 :: uintUnits u
  | Decimal.D1 u => 49 :: uintUnits u
  | Decimal.D2 u => 50 :: uintUnits u
  | Decimal.D3 u => 51 :: uintUnits u
  | Decimal.D4 u => 52 :: uintUnits u
  | Decimal.D5 u => 53 :: uintUnits u
  | Decimal.D6 u => 54 :: uintUnits u
  | Decimal.D7 u => 55 :: uintUnits u
  | Decimal.D8 u => 56 :: uintUnits u
  | Decimal.D9 u => 57 :: uintUnits u
  end.

Definition decimalDigits (n : N) : jsstring := uintUnits (N.to_uint n).

(** The digits [s] and the exponent [e] of the shortest decimal text that
    reads back as the double [x], which has [len] decimal digits: with
    [k], [k + 1], ... digits in turn, of the two candidates around [x] the
    one that rounds to [x]; the nearer one when both do, the even one when
    they are equally near.  The upper candidate may carry into one more
    digit, which gives the digit 1 and the next exponent. *)
Fixpoint shortestDigits (fuel : nat) (x : N) (len k : N) : N * N :=
  match fuel with
  | O => (x, len - 1)
  | S fuel' =>
      let p := 10 ^ (len - k) in
      let lo := x / p in
      let hi := lo + 1 in
      let okLo := toNumber (lo * p) =? x in
      let okHi := toNumber (hi * p) =? x in
      let useLo := (lo, len - 1) in
      let useHi := if hi =? 10 ^ k then (10 ^ (k - 1), len)
                   else (hi, len - 1) in
      if okLo && okHi then
        let dLo := x - lo * p in
        let dHi := hi * p - x in
        if dLo <? dHi then useLo
        else if dHi <? dLo then useHi
        else if N.even lo then useLo else useHi
      else if okLo then useLo
      else if okHi then useHi
      else shortestDigits fuel' x len (k + 1)
  end.

(** The text of a number from 10^21 on: [d.ddde+xx]. *)
Definition exponentForm (x : N) : jsstring :=
  let len := N.of_nat (List.length (decimalDigits x)) in
  let (s, e) := shortestDigits (N.to_nat len) x len 1 in
  match decimalDigits s with
  | [] => []
  | d :: ds =>
      d :: (match ds with [] => [] | _ :: _ => 46 :: ds end) ++
      lit "e+" ++ decimalDigits e
  end.

(** [`${n}`] and [{n}] for a number: its decimal digits below 10^21, the
    exponent form from there on. *)
Definition numberToString (n : N) : jsstring :=
  if Infinity <=? n then lit "Infinity"
  else if n <? 10 ^ 21 then decimalDigits n
  else exponentForm n.

(** ['f'.repeat(7)] *)
Definition generateDummyHash : jsstring := repeat 102 7.

(** The text [createSyntheticDiffForAllFiles] appends for one file that
    has been read. *)
Definition syntheticBlock (name fileContent : jsstring) : jsstring :=
  let ls := split LF fileContent in
  lit "diff --git a/" ++ name ++ lit " b/" ++ name ++ [LF] ++
  lit "new file mode 100644" ++ [LF] ++
  lit "index 0000000.." ++ generateDummyHash ++ [LF] ++
  lit "--- /dev/null" ++ [LF] ++
  lit "+++ b/" ++ name ++ [LF] ++
  lit "@@ -0,0 +1," ++ numberToString (N.of_nat (List.length ls)) ++
  lit " @@" ++ [LF] ++
  List.concat (map (fun l => lit "+" ++ l ++ [LF]) ls).

Section ParseDiff.

Variable toLowerCase : jsstring -> jsstring.
Variable env : Env.

(** One turn of the loop of [createSyntheticDiffForAllFiles]: the [try]
    block reads the file and appends its block; the [catch] warns and
    leaves the text as it is. *)
Definition syntheticStep (syntheticDiff name : jsstring) : M jsstring :=
  tryCatch
    (isFile <- perform (EvStat name) (fs_stat env name) ;;
     if isFile : bool then
       fileContent <- perform (EvReadFile name) (fs_readFile env name) ;;
       ret (syntheticDiff ++ syntheticBlock name fileContent)
     else ret syntheticDiff)
    (fun _ =>
       _ <- perform (EvWarn name) (inr tt) ;;
       ret syntheticDiff).

Fixpoint syntheticLoop (syntheticDiff : jsstring) (names : list jsstring)
  : M jsstring :=
  match names with
  | [] => ret syntheticDiff
  | name :: rest =>
      acc <- syntheticStep syntheticDiff name ;;
      syntheticLoop acc rest
  end.

Definition createSyntheticDiffForAllFiles (names : list jsstring)
  : M jsstring :=
  syntheticLoop [] names.

(** The branch of [parseDiff] on the shape of the target: the label and
    the arguments of [git diff]. *)
Definition resolveComparison (targetCommitish baseCommitish : jsstring)
  : M (jsstring * list jsstring) :=
  if str_eqb targetCommitish (lit "working") then
    ret (lit "Working Directory (unstaged changes)", [])
  else if str_eqb targetCommitish (lit "staged") then
    baseHash <- perform (EvRevparse baseCommitish)
                        (git_revparse env baseCommitish) ;;
    ret (shortHash baseHash ++ lit " vs Staging Area (staged changes)",
         [lit "--cached"; baseCommitish])
  else if str_eqb targetCommitish (lit ".") then
    tryCatch
      (baseHash <- perform (EvRevparse baseCommitish)
                           (git_revparse env baseCommitish) ;;
       ret (shortHash baseHash ++
            lit " vs Working Directory (all uncommitted changes)",
            [baseCommitish]))
      (fun _ =>
         ret (lit "Working Directory (all files)",
              [lit "--no-index"; lit "/dev/null"]))
  else
    targetHash <- perform (EvRevparse targetCommitish)
                          (git_revparse env targetCommitish) ;;
    baseHash <- perform (EvRevparse baseCommitish)
                        (git_revparse env baseCommitish) ;;
    ret (createCommitRangeString targetHash baseHash,
         [baseCommitish; targetCommitish]).

(** The retrieval of the raw diff text for the chosen arguments. *)
Definition rawDiffFor (diffArgs : list jsstring) : M jsstring :=
  if Nat.eqb (List.length diffArgs) 0 then
    perform (EvRaw [lit "diff"; lit "--unified=3"])
            (git_raw env [lit "diff"; lit "--unified=3"])
  else if arr_includes diffArgs (lit "--no-index") then
    '(paths, notAdded) <- perform EvStatus (git_status env) ;;
    let allFiles := paths ++ notAdded in
    if Nat.eqb (List.length allFiles) 0 then ret []
    else createSyntheticDiffForAllFiles allFiles
  else
    perform (EvRaw ([lit "diff"; lit "--unified=3"] ++ diffArgs))
            (git_raw env ([lit "diff"; lit "--unified=3"] ++ diffArgs)).

Definition parseDiff (targetCommitish baseCommitish : jsstring)
    (ignoreWhitespace : bool) : M DiffResponse :=
  tryCatch
    (let validation :=
       validateDiffArguments targetCommitish (Some baseCommitish) in
     _ <- (if negb (valid validation)
           then throw (ErrorObj match error validation with
                                | Some msg => msg
                                | None => []
                                end)
           else ret tt) ;;
     '(resolvedCommit, diffArgs0) <-
       resolveComparison targetCommitish baseCommitish ;;
     let diffArgs :=
       if ignoreWhitespace
       then diffArgs0 ++ [lit "--ignore-all-space"]
       else diffArgs0 in
     rawDiff <- rawDiffFor diffArgs ;;
     let fs := parseDiffOutput toLowerCase rawDiff in
     ret (mkDiffResponse fs resolvedCommit
                         (Nat.eqb (List.length fs) 0)))
    (fun e =>
       throw (ErrorObj (lit "Failed to parse diff: " ++
                        match e with
                        | ErrorObj msg => msg
                        | NonError => lit "Unknown error"
                        end))).

End ParseDiff.

(* ================================================================= *)
(** ** Notions of the specification *)

(** The lockstep rule for the lines of one chunk, with the counters at
    [o] and [n] before the first line: a line records the counters as they
    are, the old one unless it is [added] and the new one unless it is
    [deleted], and the rule goes on with the counters advanced in the same
    cases. *)
Fixpoint lockstep (o n : N) (ls : list DiffLine) : Prop :=
  match ls with
  | [] => True
  | l :: rest =>
      oldLineNumber l =
        (if LineType.eqb (type l) LineType.added then None else Some o) /\
      newLineNumber l =
        (if LineType.eqb (type l) LineType.deleted then None else Some n) /\
      lockstep
        (if LineType.eqb (type l) LineType.added then o else o + 1)
        (if LineType.eqb (type l) LineType.deleted then n else n + 1)
        rest
  end.

(** The same rule with [next] for the step of a counter; the loop steps
    with [increment]. *)
Fixpoint lockstepWith (next : N -> N) (o n : N) (ls : list DiffLine) : Prop :=
  match ls with
  | [] => True
  | l :: rest =>
      oldLineNumber l =
        (if LineType.eqb (type l) LineType.added then None else Some o) /\
      newLineNumber l =
        (if LineType.eqb (type l) LineType.deleted then None else Some n) /\
      lockstepWith next
        (if LineType.eqb (type l) LineType.added then o else next o)
        (if LineType.eqb (type l) LineType.deleted then n else next n)
        rest
  end.

(** The number of lines of a chunk on the old side ([context] or
    [deleted]) and on the new side ([context] or [added]). *)
Definition countOld (ls : list DiffLine) : N :=
  N.of_nat (List.length
    (filter (fun l => negb (LineType.eqb (type l) LineType.added)) ls)).

Definition countNew (ls : list DiffLine) : N :=
  N.of_nat (List.length
    (filter (fun l => negb (LineType.eqb (type l) LineType.deleted)) ls)).

(** A line that opens a chunk. *)
Definition isHunkHeader (line : jsstring) : bool :=
  match matchHunkHeader line with
  | Some _ => true
  | None => false
  end.

(** The content lines of the text below a hunk header, numbered from [o]
    and [n] as the loop numbers them. *)
Fixpoint numberLines (o n : N) (body : list jsstring) : list DiffLine :=
  match body with
  | [] => []
  | l :: rest =>
      if isContentLine l then
        match lineTypeOf l with
        | LineType.added =>
            mkDiffLine LineType.added (substring_from 1 l) None (Some n)
              :: numberLines o (increment n) rest
        | LineType.deleted =>
            mkDiffLine LineType.deleted (substring_from 1 l) (Some o) None
              :: numberLines (increment o) n rest
        | LineType.context =>
            mkDiffLine LineType.context (substring_from 1 l) (Some o) (Some n)
              :: numberLines (increment o) (increment n) rest
        end
      else numberLines o n rest
  end.

(** Where the counters stand below a hunk header after [body]. *)
Fixpoint countersAfter (o n : N) (body : list jsstring) : N * N :=
  match body with
  | [] => (o, n)
  | l :: rest =>
      if isContentLine l then
        match lineTypeOf l with
        | LineType.added => countersAfter o (increment n) rest
        | LineType.deleted => countersAfter (increment o) n rest
        | LineType.context => countersAfter (increment o) (increment n) rest
        end
      else countersAfter o n rest
  end.

(** The lines of the input below a hunk header that belong to the old
    side (they start with a space or [-]) and to the new side (a space or
    [+]). *)
Definition bodyOld (body : list jsstring) : N :=
  N.of_nat (List.length
    (filter (fun l => startsWith l (lit " ") || startsWith l (lit "-")) body)).

Definition bodyNew (body : list jsstring) : N :=
  N.of_nat (List.length
    (filter (fun l => startsWith l (lit " ") || startsWith l (lit "+")) body)).

(** The chunk that the header [h] opens over the text [body]. *)
Definition chunkOf (h : jsstring) (body : list jsstring) : option DiffChunk :=
  match matchHunkHeader h with
  | Some (m1, m2, m3, m4) =>
      Some (mkDiffChunk (parseInt m1) (parseInt (orOne m2))
                        (parseInt m3) (parseInt (orOne m4))
                        (numberLines (parseInt m1) (parseInt m3) body))
  | None => None
  end.

(** [c] is read from a segment of [ls]: a header, the lines up to the next
    header, and either the end of the input ([last = true]) or a further
    header. *)
Definition chunkFrom (ls : list jsstring) (last : bool) (c : DiffChunk)
  : Prop :=
  exists pre h body post,
    ls = pre ++ h :: body ++ post /\
    chunkOf h body = Some c /\
    forallb (fun l => negb (isHunkHeader l)) body = true /\
    (if last then post = []
     else exists h' post', post = h' :: post' /\ isHunkHeader h' = true).

(* ================================================================= *)
(** ** Auxiliary notions of the statements and proofs *)

(** The branch of the loop body for a line that is not a header, in
    terms of [numberLines] and [countersAfter] on that one line. *)
Definition contentStep (st : ChunkState) (line : jsstring) : ChunkState :=
  match currentChunk st with
  | Some c =>
      let (o, n) := countersAfter (oldCounter st) (newCounter st) [line] in
      mkChunkState (doneChunks st)
        (Some (mkDiffChunk (oldStart c) (oldLines c) (newStart c) (newLines c)
                 (lines c ++
                  numberLines (oldCounter st) (newCounter st) [line])))
        o n
  | None => st
  end.

(** What the loop knows about the open chunk after the lines [seen]. *)
Definition openInv (seen : list jsstring) (st : ChunkState) : Prop :=
  match currentChunk st with
  | None => True
  | Some c =>
      exists pre h body,
        seen = pre ++ h :: body /\
        chunkOf h body = Some c /\
        forallb (fun l => negb (isHunkHeader l)) body = true /\
        countersAfter (oldStart c) (newStart c) body =
        (oldCounter st, newCounter st)
  end.

Definition loopInv (seen : list jsstring) (st : ChunkState) : Prop :=
  (forall c, In c (doneChunks st) -> chunkFrom seen false c) /\
  openInv seen st.

(** A non-empty string of decimal digits, what [\d+] captures. *)
Definition isNumeral (ds : jsstring) : bool :=
  truthy ds && forallb isDigit ds.

(** The text of an optional count: [,<count>] or nothing. *)
Definition countText (m : option jsstring) : jsstring :=
  match m with
  | Some ds => lit "," ++ ds
  | None => []
  end.

(** The text of a hunk header with the given fields, followed by anything
    ([git] puts the enclosing function there). *)
Definition hunkHeaderText (a : jsstring) (oc : option jsstring)
    (b : jsstring) (nc : option jsstring) (rest : jsstring) : jsstring :=
  lit "@@ -" ++ a ++ countText oc ++ lit " +" ++ b ++ countText nc ++
  lit " @@" ++ rest.

Definition isNumeralOpt (m : option jsstring) : bool :=
  match m with
  | Some ds => isNumeral ds
  | None => true
  end.

(** The count the parser reads in a header: the Number value of the
    field, 1 when the field is missing. *)
Definition declaredCount (m : option jsstring) : N :=
  match m with
  | Some ds => parseInt ds
  | None => 1
  end.

(** Some line of the block starts with [p]. *)
Definition hasLineWith (p : jsstring) (ls : list jsstring) : bool :=
  existsb (fun l => startsWith l p) ls.

(** Some line of the block contains the binary marker. *)
Definition hasBinaryMarker (ls : list jsstring) : bool :=
  existsb (fun l => includes l (lit "Binary files")) ls.

(** The status of a block by marker precedence, in the words of the
    specification. *)
Definition classifyStatus (ls : list jsstring) : Status.t :=
  if hasLineWith (lit "new file mode") ls then Status.added
  else if hasLineWith (lit "deleted file mode") ls then Status.deleted
  else if hasLineWith (lit "rename from") ls then Status.renamed
  else Status.modified.

(** The [DiffFile] of a block whose first line gave the names [o] and
    [n]. *)
Definition fileOf (lower : jsstring -> jsstring) (o n : jsstring)
    (ls : list jsstring) : DiffFile :=
  let st := classifyStatus ls in
  let name := match st with Status.deleted => o | _ => n end in
  let oldOpt := match st with Status.renamed => Some o | _ => None end in
  if hasBinaryMarker ls
  then mkDiffFile name oldOpt st 0 0 [] (Some true)
                  (Some (isImageFile lower name))
  else mkDiffFile name oldOpt st
                  (countLines LineType.added (parseChunks ls))
                  (countLines LineType.deleted (parseChunks ls))
                  (parseChunks ls) None None.

(** The blocks that [parseDiffOutput] hands to [parseFileBlock]. *)
Definition fileBlocks (diffText : jsstring) : list jsstring :=
  filter (fun block => truthy (trim block)) (splitDiffGit diffText).

(** The message [parseDiff] throws for the thrown value [e]. *)
Definition wrapped (e : thrown) : thrown :=
  ErrorObj (lit "Failed to parse diff: " ++
            match e with
            | ErrorObj msg => msg
            | NonError => lit "Unknown error"
            end).

(** What [createSyntheticDiffForAllFiles] can read of a path: the content
    when [stat] answers that it is a file and [readFile] succeeds. *)
Definition readable (env : Env) (name : jsstring) : option jsstring :=
  match fs_stat env name with
  | inr true =>
      match fs_readFile env name with
      | inr fileContent => Some fileContent
      | inl _ => None
      end
  | _ => None
  end.

(** The synthetic text for a list of paths. *)
Definition syntheticText (env : Env) (names : list jsstring) : jsstring :=
  flat_map (fun name => match readable env name with
                        | Some fileContent => syntheticBlock name fileContent
                        | None => []
                        end) names.

(** The calls of [createSyntheticDiffForAllFiles]: the file system and
    the console. *)
Definition isFsEvent (ev : event) : Prop :=
  match ev with
  | EvStat _ | EvReadFile _ | EvWarn _ => True
  | EvRevparse _ | EvRaw _ | EvStatus => False
  end.

(** The text of a list of lines, each closed by a line feed. *)
Definition unlines (ls : list jsstring) : jsstring :=
  List.concat (map (fun l => l ++ [LF]) ls).

Definition noLF (s : jsstring) : bool :=
  forallb (fun c => negb (c =? LF)) s.

(** [/^diff --git /m] matches nowhere in [s]: at no position of [s] that
    is a line start ([bol] tells whether the first one is) does the marker
    begin. *)
Fixpoint quietFrom (bol : bool) (s : jsstring) : bool :=
  match s with
  | [] => true
  | c :: s' =>
      negb (bol && startsWith s diffGitMarker) &&
      quietFrom (isLineTerminator c) s'
  end.

(** The same when [s] is followed by [rest], into which a match that
    begins in [s] may run. *)
Fixpoint quietIn (bol : bool) (s rest : jsstring) : bool :=
  match s with
  | [] => true
  | c :: s' =>
      negb (bol && startsWith (s ++ rest) diffGitMarker) &&
      quietIn (isLineTerminator c) s' rest
  end.

(** Whether the position after [s] is a line start. *)
Fixpoint endBol (bol : bool) (s : jsstring) : bool :=
  match s with
  | [] => bol
  | c :: s' => endBol (isLineTerminator c) s'
  end.

(** A list of lines none of which lets the marker match, the first one
    read from a position that may not be a line start. *)
Definition quietLines (bol : bool) (ls : list jsstring) : Prop :=
  match ls with
  | [] => True
  | l :: rest =>
      (noLF l = true /\ quietFrom bol l = true) /\
      Forall (fun l => noLF l = true /\ quietFrom true l = true) rest
  end.

(** The text of a list of blocks, each a marker followed by its lines. *)
Definition blocksText (bs : list (list jsstring)) : jsstring :=
  List.concat (map (fun ls => diffGitMarker ++ unlines ls) bs).

(** The lines of the block that [createSyntheticDiffForAllFiles] writes
    for one file, after the marker. *)
Definition syntheticLines (name fileContent : jsstring) : list jsstring :=
  [ lit "a/" ++ name ++ lit " b/" ++ name;
    lit "new file mode 100644";
    lit "index 0000000.." ++ generateDummyHash;
    lit "--- /dev/null";
    lit "+++ b/" ++ name;
    lit "@@ -0,0 +1," ++
      numberToString (N.of_nat (List.length (split LF fileContent))) ++
      lit " @@" ] ++
  map (fun l => lit "+" ++ l) (split LF fileContent).

(** A path that the file-pair pattern can read back: not empty and
    without line terminators. *)
Definition wellFormedPath (name : jsstring) : bool :=
  truthy name && noLineTerminator name.

(** A content none of whose lines holds a line terminator (CR, LS, PS)
    directly followed by ["diff --git "]. *)
Definition wellFormedContent (fileContent : jsstring) : bool :=
  forallb (quietFrom false) (split LF fileContent).



(* ================================================================= *)
(** ** Further notions: chunks and the lines they are read from *)

(** The four numbers of a chunk. *)
Definition chunkFields (c : DiffChunk) : N * N * N * N :=
  (oldStart c, oldLines c, newStart c, newLines c).

(** The four numbers that the parser reads from a hunk header, counts
    defaulted. *)
Definition headerFields (line : jsstring) : option (N * N * N * N) :=
  match matchHunkHeader line with
  | Some (m1, m2, m3, m4) =>
      Some (parseInt m1, parseInt (orOne m2), parseInt m3, parseInt (orOne m4))
  | None => None
  end.

(** The fields of the hunk headers of a block, in order. *)
Definition declaredFields (ls : list jsstring) : list (N * N * N * N) :=
  flat_map (fun l => match headerFields l with
                     | Some x => [x]
                     | None => []
                     end) ls.

(** The four numbers that the text of a hunk header denotes, counts
    defaulted, and those of the hunk headers of a block, in order. *)
Definition headerNumbers (line : jsstring) : option (N * N * N * N) :=
  match matchHunkHeader line with
  | Some (m1, m2, m3, m4) =>
      Some (decimalValue m1, decimalValue (orOne m2),
            decimalValue m3, decimalValue (orOne m4))
  | None => None
  end.

Definition declaredNumbers (ls : list jsstring) : list (N * N * N * N) :=
  flat_map (fun l => match headerNumbers l with
                     | Some x => [x]
                     | None => []
                     end) ls.

(** The Number values of four numbers, and whether the four are at most
    2^53. *)
Definition numberFields (x : N * N * N * N) : N * N * N * N :=
  let '(a, b, c, d) := x in (toNumber a, toNumber b, toNumber c, toNumber d).

Definition exactFields (x : N * N * N * N) : bool :=
  let '(a, b, c, d) := x in
  (a <=? 2 ^ 53) && (b <=? 2 ^ 53) && (c <=? 2 ^ 53) && (d <=? 2 ^ 53).

(** The lines of a block below its first hunk header. *)
Fixpoint afterFirstHeader (ls : list jsstring) : list jsstring :=
  match ls with
  | [] => []
  | l :: rest => if isHunkHeader l then rest else afterFirstHeader rest
  end.

(** The type and the content of a parsed line, and what they are for a
    line of the input. *)
Definition typeAndContent (d : DiffLine) : LineType.t * jsstring :=
  (type d, content d).

Definition readLine (l : jsstring) : LineType.t * jsstring :=
  (lineTypeOf l, substring_from 1 l).

(** The old and the new line numbers that the lines of a chunk carry. *)
Definition presentOld (ls : list DiffLine) : list N :=
  flat_map (fun d => match oldLineNumber d with
                     | Some n => [n]
                     | None => []
                     end) ls.

Definition presentNew (ls : list DiffLine) : list N :=
  flat_map (fun d => match newLineNumber d with
                     | Some n => [n]
                     | None => []
                     end) ls.

(** [k] consecutive numbers from [start]. *)
Definition countFrom (start : N) (k : nat) : list N :=
  map (fun i => start + N.of_nat i) (seq 0 k).

(** All parsed lines that the state of [parseChunks] holds, closed chunks
    first. *)
Definition emitted (st : ChunkState) : list DiffLine :=
  flat_map lines (pushCurrent st).

(** The state of [parseChunks] with the chunks [d] closed before it. *)
Definition withDone (d : list DiffChunk) (st : ChunkState) : ChunkState :=
  mkChunkState (d ++ doneChunks st) (currentChunk st)
               (oldCounter st) (newCounter st).

(* ================================================================= *)
(** ** Further notions: names and extensions *)

(** Lower-casing of one ASCII unit; [toLowerCase] is this on every unit
    of a string that has only ASCII units. *)
Definition lowerUnit (c : N) : N :=
  if (65 <=? c) && (c <=? 90) then c + 32 else c.

Definition asciiLower (s : jsstring) : jsstring := map lowerUnit s.

(** The value of [option] as a list. *)
Definition optList {A} (o : option A) : list A :=
  match o with
  | Some a => [a]
  | None => []
  end.

(** [ls.join(sep)] for a one-unit separator. *)
Definition join (sep : N) (ls : list jsstring) : jsstring :=
  match ls with
  | [] => []
  | l :: rest => l ++ flat_map (fun x => sep :: x) rest
  end.

(** The lines [ls] as added lines, numbered on the new side from [n]. *)
Fixpoint addedLines (n : N) (ls : list jsstring) : list DiffLine :=
  match ls with
  | [] => []
  | l :: rest =>
      mkDiffLine LineType.added l None (Some n) :: addedLines (n + 1) rest
  end.

(* ================================================================= *)
(** ** Further notions: the calls of [parseDiff] *)

(** The calls [parseDiff] may make for the given target and base:
    [rev-parse] of one of the two, the status query, the file system of
    the synthetic diff, and [git diff --unified=3] with arguments that are
    the base, the target, [--cached] or [--ignore-all-space]. *)
Definition allowedCall (target base : jsstring) (ev : event) : Prop :=
  match ev with
  | EvRevparse r => r = target \/ r = base
  | EvRaw args =>
      exists rest,
        args = lit "diff" :: lit "--unified=3" :: rest /\
        Forall (fun a => a = base \/ a = target \/ a = lit "--cached" \/
                         a = lit "--ignore-all-space") rest
  | EvStatus | EvStat _ | EvReadFile _ | EvWarn _ => True
  end.

(** The flag that [ignoreWhitespace] appends. *)
Definition whitespaceFlag (ignoreWhitespace : bool) : list jsstring :=
  if ignoreWhitespace then [lit "--ignore-all-space"] else [].

(** The end of a [parseDiff] that runs [git diff --unified=3 <args>]
    after the calls [before]: the parse of the answer under [label], or
    the failure of the call, wrapped. *)
Definition diffRun (lower : jsstring -> jsstring) (env : Env)
    (before : list event) (label : jsstring) (args : list jsstring)
  : M DiffResponse :=
  let full := [lit "diff"; lit "--unified=3"] ++ args in
  (before ++ [EvRaw full],
   match git_raw env full with
   | inr rawDiff =>
       inr (mkDiffResponse
              (parseDiffOutput lower rawDiff) label
              (Nat.eqb (List.length (parseDiffOutput lower rawDiff)) 0))
   | inl e => inl (wrapped e)
   end).

(* ================================================================= *)
(** ** The viewer ([DiffViewer.tsx], [FileList.tsx]) *)



(** [getLinePrefix] of [DiffLineComponent]; the prefix of a deleted line
    is the minus sign U+2212. *)
Definition getLinePrefix (ty : LineType.t) : jsstring :=
  match ty with
  | LineType.added => [43]
  | LineType.deleted => [8722]
  | LineType.context => [32]
  end.

(** Whether [FileHeader] and [FileList] show the old name:
    [file.oldFilename && file.oldFilename !== file.filename]. *)
Definition showsOldName (file : DiffFile) : bool :=
  match oldFilename file with
  | Some old => truthy old && negb (str_eqb old (filename file))
  | None => false
  end.

(** What [DiffViewer] renders below the header of a file. *)
Inductive FileView :=
| BinaryNotice (image : bool)
| Hunks (cs : list DiffChunk)
| NoChanges.

(** The truth value of [boolean | undefined]. *)
Definition truthyFlag (o : option bool) : bool :=
  match o with
  | Some b => b
  | None => false
  end.

Definition viewOf (file : DiffFile) : FileView :=
  if truthyFlag (isBinary file) then BinaryNotice (truthyFlag (isImage file))
  else if Nat.ltb 0 (List.length (chunks file)) then Hunks (chunks file)
  else NoChanges.

(* ================================================================= *)
(** ** The command line ([src/cli/index.ts], [src/cli/utils.ts]) *)

(** [isSpecialArg] *)
Definition isSpecialArg (arg : jsstring) : bool :=
  str_eqb arg (lit "working") || str_eqb arg (lit "staged") ||
  str_eqb arg (lit ".").

(** The first step of the action of the command: from the two arguments
    of the command line ([compareWith] may be undefined) to the target and
    the base that are handed to [startServer], hence to [parseDiff]. *)
Definition chooseComparison (env : Env) (commitish : jsstring)
    (compareWith : option jsstring) : M (jsstring * jsstring) :=
  if truthyOpt compareWith then
    ret (commitish, match compareWith with Some c => c | None => [] end)
  else if str_eqb commitish (lit "working") then
    ret (commitish, lit "staged")
  else if isSpecialArg commitish then
    ret (commitish, lit "HEAD")
  else
    tryCatch
      (_ <- perform (EvRevparse (lit "HEAD"))
                    (git_revparse env (lit "HEAD")) ;;
       ret (commitish, commitish ++ lit "^"))
      (fun _ => ret (lit ".", lit "HEAD")).

(** [findUntrackedFiles]: the untracked paths that do not start with a
    dot; no path when the status query fails.  (What the source writes to
    the console is not traced.) *)
Definition findUntrackedFiles (env : Env) : M (list jsstring) :=
  tryCatch
    ('(_, notAdded) <- perform EvStatus (git_status env) ;;
     ret (filter (fun file => negb (startsWith file (lit "."))) notAdded))
    (fun _ => ret []).

(** [markFilesIntentToAdd]; [errorText] is the text that the template
    literal gives for the thrown value. *)
Definition markFilesIntentToAdd (errorText : thrown -> jsstring) (env : Env)
    (fileNames : list jsstring) : M unit :=
  tryCatch
    (_ <- perform (EvRaw ([lit "add"; lit "--intent-to-add"] ++ fileNames))
                  (git_raw env ([lit "add"; lit "--intent-to-add"] ++
                                fileNames)) ;;
     ret tt)
    (fun e =>
       throw (ErrorObj (lit "Failed to add files with --intent-to-add: " ++
                        errorText e))).

(** What [promptUser] resolves to for the line the user typed. *)
Definition acceptsAnswer (lower : jsstring -> jsstring) (answer : jsstring)
  : bool :=
  let normalizedAnswer := trim (lower answer) in
  str_eqb normalizedAnswer [] || str_eqb normalizedAnswer (lit "y") ||
  str_eqb normalizedAnswer (lit "yes").

(** [handleUntrackedFiles]; [answer] is the line typed at the prompt,
    which is shown only when there are untracked files. *)
Definition handleUntrackedFiles (lower : jsstring -> jsstring)
    (errorText : thrown -> jsstring) (env : Env) (answer : jsstring)
  : M unit :=
  fileNames <- findUntrackedFiles env ;;
  if Nat.eqb (List.length fileNames) 0 then ret tt
  else if acceptsAnswer lower answer
  then markFilesIntentToAdd errorText env fileNames
  else ret tt.

(* ================================================================= *)
(** ** The server ([src/server/server.ts]) *)

(** What [server.listen(port)] leads to: the [listening] callback, with
    the port of [server.address()] when that is an object, or the [error]
    event with the code of the error. *)
Inductive ListenAnswer :=
| Listening (addressPort : option N)
| ListenError (code : jsstring) (err : thrown).

(** [findAvailablePort]: the recursion on the next port has no bound in
    the source; [fuel] bounds the number of ports tried, and [None] is a
    search that has not ended within it. *)
Fixpoint findAvailablePort (listen : N -> ListenAnswer) (fuel : nat)
    (preferredPort : N) : option (thrown + N) :=
  match fuel with
  | O => None
  | S fuel' =>
      match listen preferredPort with
      | Listening addressPort =>
          Some (inr match addressPort with
                    | Some p => p
                    | None => preferredPort
                    end)
      | ListenError code err =>
          if str_eqb code (lit "EADDRINUSE")
          then findAvailablePort listen fuel' (preferredPort + 1)
          else Some (inl err)
      end
  end.

(** The paths that [findUntrackedFiles] keeps. *)
Definition untrackedShown (notAdded : list jsstring) : list jsstring :=
  filter (fun file => negb (startsWith file (lit "."))) notAdded.

(** The listen attempt on [port] fails with [EADDRINUSE]. *)
Definition portBusy (listen : N -> ListenAnswer) (port : N) : bool :=
  match listen port with
  | ListenError code _ => str_eqb code (lit "EADDRINUSE")
  | Listening _ => false
  end.

(* ================================================================= *)
(** ** The parser with its reads of [null] and [undefined] explicit *)

(** A read of a property, an index or a method of [null] or [undefined]
    throws a [TypeError].  The definitions above leave such reads to
    pattern matching; the ones below state [parseChunks], [parseFileBlock]
    and [parseDiffOutput] once more with each of them written as [deref],
    in the order of the source, so that only the tests of the source keep
    the parser from throwing. *)
Definition TypeError : thrown := ErrorObj (lit "TypeError").

(** [v.p], [v[i]], [v.m(...)] for a value [v] that may be [null] or
    [undefined]. *)
Definition deref {A} (v : option A) : M A :=
  match v with
  | Some a => ret a
  | None => throw TypeError
  end.

(** The truth value of an object, [null] or [undefined]. *)
Definition present {A} (v : option A) : bool :=
  match v with
  | Some _ => true
  | None => false
  end.

(** [for (const x of xs) body] over the variables [st] of the loop. *)
Fixpoint forOf {S A} (body : S -> A -> M S) (xs : list A) (st : S) : M S :=
  match xs with
  | [] => ret st
  | x :: rest => st' <- body st x ;; forOf body rest st'
  end.

(** The body of the loop of [parseChunks]: [match[1]] to [match[4]] are
    read under [if (match)], [currentChunk.lines] under
    [currentChunk && ...]. *)
Definition chunkStepChecked (st : ChunkState) (line : jsstring)
  : M ChunkState :=
  if startsWith line (lit "@@") then
    let matched := matchHunkHeader line in
    if present matched then
      ' (m1, m2, m3, m4) <- deref matched ;;
      let oStart := parseInt m1 in
      let oLines := parseInt (orOne m2) in
      let nStart := parseInt m3 in
      let nLines := parseInt (orOne m4) in
      ret (mkChunkState (pushCurrent st)
                        (Some (mkDiffChunk oStart oLines nStart nLines []))
                        oStart nStart)
    else ret st
  else if present (currentChunk st) && isContentLine line then
    let ty := lineTypeOf line in
    let notAdded := negb (LineType.eqb ty LineType.added) in
    let notDeleted := negb (LineType.eqb ty LineType.deleted) in
    let diffLine :=
      mkDiffLine ty (substring_from 1 line)
                 (if notAdded then Some (oldCounter st) else None)
                 (if notDeleted then Some (newCounter st) else None) in
    c <- deref (currentChunk st) ;;
    ret (mkChunkState (doneChunks st) (Some (pushLine c diffLine))
                      (if notAdded then increment (oldCounter st)
                       else oldCounter st)
                      (if notDeleted then increment (newCounter st)
                       else newCounter st))
  else ret st.

Definition parseChunksChecked (ls : list jsstring) : M (list DiffChunk) :=
  st <- forOf chunkStepChecked ls initChunkState ;;
  ret (pushCurrent st).

(** [parseFileBlock]: [lines[0]] is [undefined] for an empty array, and
    [firstLine.match] is read after the test of [lines.length];
    [fileMatch[1]] and [fileMatch[2]] are read after [if (!fileMatch)]. *)
Definition parseFileBlockChecked (toLowerCase : jsstring -> jsstring)
    (ls : list jsstring) : M (option DiffFile) :=
  if Nat.eqb (List.length ls) 0 then ret None
  else
    let firstLine := nth_error ls 0 in
    first <- deref firstLine ;;
    let fileMatch := matchFileHeader first in
    if negb (present fileMatch) then ret None
    else
      ' (oldName, newName) <- deref fileMatch ;;
      let newFileMatch :=
        arr_find (fun l => startsWith l (lit "new file mode")) ls in
      let deletedFileMatch :=
        arr_find (fun l => startsWith l (lit "deleted file mode")) ls in
      let renameMatch :=
        arr_find (fun l => startsWith l (lit "rename from")) ls in
      let binaryMatch :=
        arr_find (fun l => includes l (lit "Binary files")) ls in
      let '(st, name) :=
        if truthyOpt newFileMatch then (Status.added, newName)
        else if truthyOpt deletedFileMatch then (Status.deleted, oldName)
        else if truthyOpt renameMatch then (Status.renamed, newName)
        else (Status.modified, newName) in
      let oldOpt :=
        if Status.eqb st Status.renamed then Some oldName else None in
      if truthyOpt binaryMatch then
        ret (Some (mkDiffFile name oldOpt st 0 0 [] (Some true)
                              (Some (isImageFile toLowerCase name))))
      else
        cs <- parseChunksChecked ls ;;
        ret (Some (mkDiffFile name oldOpt st
                              (countLines LineType.added cs)
                              (countLines LineType.deleted cs)
                              cs None None)).

Definition parseDiffOutputChecked (toLowerCase : jsstring -> jsstring)
    (diffText : jsstring) : M (list DiffFile) :=
  let fileBlocks :=
    filter (fun block => truthy (trim block)) (splitDiffGit diffText) in
  forOf
    (fun files block =>
       fileDiff <- parseFileBlockChecked toLowerCase (split LF block) ;;
       ret match fileDiff with
           | Some f => files ++ [f]
           | None => files
           end)
    fileBlocks [].

(** A line that [parseChunks] reads: a hunk header or a content line. *)
Definition isParsedLine (line : jsstring) : bool :=
  isHunkHeader line || isContentLine line.

(* ================================================================= *)
(** ** Further notions: what a call threw *)

(** What the call [ev] throws in [env], if it throws. *)
Definition thrownBy (env : Env) (ev : event) : option thrown :=
  match ev with
  | EvRevparse ref =>
      match git_revparse env ref with inl e => Some e | inr _ => None end
  | EvRaw args =>
      match git_raw env args with inl e => Some e | inr _ => None end
  | EvStatus =>
      match git_status env with inl e => Some e | inr _ => None end
  | EvStat path =>
      match fs_stat env path with inl e => Some e | inr _ => None end
  | EvReadFile path =>
      match fs_readFile env path with inl e => Some e | inr _ => None end
  | EvWarn _ => None
  end.

(** A computation that fails only when its last call throws, and then
    with what that call threw. *)
Definition failsAtLastCall {A} (env : Env) (m : M A) : Prop :=
  forall e,
    snd m = inl e ->
    exists before ev, fst m = before ++ [ev] /\ thrownBy env ev = Some e.

(** The paths that [handleUntrackedFiles] offers to add: the untracked
    paths that [findUntrackedFiles] keeps, none when the status query
    fails. *)
Definition pathsToAdd (env : Env) : list jsstring :=
  match git_status env with
  | inr (_, notAdded) => untrackedShown notAdded
  | inl _ => []
  end.

(* ================================================================= *)
(** ** Strings: basic facts *)

Lemma str_eqb_eq (s t : jsstring) : str_eqb s t = true <-> s = t.
Proof.
  revert t; induction s as [|c s IH]; intros [|d t]; simpl;
    try (split; [discriminate | congruence]); try tauto.
  rewrite andb_true_iff, N.eqb_eq, IH. split.
  - intros [-> ->]; reflexivity.
  - intros H; injection H; auto.
Qed.

Lemma str_eqb_refl (s : jsstring) : str_eqb s s = true.
Proof. apply str_eqb_eq; reflexivity. Qed.

Lemma strip_prefix_Some (p s r : jsstring) :
  strip_prefix p s = Some r <-> s = p ++ r.
Proof.
  revert s; induction p as [|c p IH]; intros s; simpl.
  - split; congruence.
  - destruct s as [|d s].
    + split; discriminate.
    + destruct (N.eqb_spec d c) as [->|Hne].
      * rewrite IH. split; congruence.
      * split; [discriminate | congruence].
Qed.

Lemma strip_prefix_app (p r : jsstring) : strip_prefix p (p ++ r) = Some r.
Proof. apply strip_prefix_Some; reflexivity. Qed.

Lemma startsWith_app (p r : jsstring) : startsWith (p ++ r) p = true.
Proof.
  induction p as [|c p IH]; simpl; [reflexivity|].
  rewrite N.eqb_refl; exact IH.
Qed.

Lemma startsWith_prefix (s p q : jsstring) :
  startsWith s (p ++ q) = true -> startsWith s p = true.
Proof.
  revert s; induction p as [|c p IH]; intros s; simpl; [reflexivity|].
  destruct s as [|d s]; [discriminate|].
  rewrite !andb_true_iff. intros [? ?]; split; eauto.
Qed.

Lemma startsWith_iff (s p : jsstring) :
  startsWith s p = true <-> exists r, s = p ++ r.
Proof.
  revert s; induction p as [|c p IH]; intros s; simpl.
  - split; eauto.
  - destruct s as [|d s].
    + split; [discriminate | intros [r H]; discriminate].
    + rewrite andb_true_iff, N.eqb_eq, IH. split.
      * intros [-> [r ->]]. eauto.
      * intros [r H]. injection H as -> ->. eauto.
Qed.

(** A line cannot start with two different units. *)
Lemma startsWith_unit (s : jsstring) (a b : N) :
  a <> b -> startsWith s [a] = true -> startsWith s [b] = false.
Proof.
  destruct s as [|d s]; simpl; [discriminate|].
  rewrite !andb_true_r. intros Hab Ha.
  apply N.eqb_eq in Ha; subst d. apply N.eqb_neq; exact Hab.
Qed.

(* ================================================================= *)
(** ** [parseChunks]: the loop, one line at a time *)

Example parseChunks_small :
  parseChunks [lit "@@ -5 +7 @@"; lit " a"; lit "+b"; lit "-c"; lit "x";
               lit "@@ -10,2 +12,0 @@ fn"; lit "-d"] =
  [ mkDiffChunk 5 1 7 1
      [ mkDiffLine LineType.context (lit "a") (Some 5) (Some 7);
        mkDiffLine LineType.added (lit "b") None (Some 8);
        mkDiffLine LineType.deleted (lit "c") (Some 6) None ];
    mkDiffChunk 10 2 12 0
      [ mkDiffLine LineType.deleted (lit "d") (Some 10) None ] ].
Proof. vm_compute. reflexivity. Qed.

Lemma matchHunkHeader_startsWith (l : jsstring) x :
  matchHunkHeader l = Some x -> startsWith l (lit "@@") = true.
Proof.
  unfold matchHunkHeader.
  destruct (strip_prefix (lit "@@ -") l) as [r0|] eqn:E; [|discriminate].
  intros _. apply strip_prefix_Some in E; subst l.
  apply (startsWith_prefix _ (lit "@@") (lit " -")).
  apply (startsWith_app (lit "@@ -")).
Qed.

Lemma at_not_content (l : jsstring) :
  startsWith l (lit "@@") = true -> isContentLine l = false.
Proof.
  intros H. apply (startsWith_prefix _ [64] [64]) in H.
  unfold isContentLine.
  change (lit " ") with [32]; change (lit "+") with [43];
    change (lit "-") with [45].
  rewrite (startsWith_unit l 64 32), (startsWith_unit l 64 43),
    (startsWith_unit l 64 45); auto; discriminate.
Qed.

Lemma chunkStep_header (st : ChunkState) (l : jsstring) m1 m2 m3 m4 :
  matchHunkHeader l = Some (m1, m2, m3, m4) ->
  chunkStep st l =
  mkChunkState (pushCurrent st)
    (Some (mkDiffChunk (parseInt m1) (parseInt (orOne m2))
                       (parseInt m3) (parseInt (orOne m4)) []))
    (parseInt m1) (parseInt m3).
Proof.
  intros H. unfold chunkStep.
  rewrite (matchHunkHeader_startsWith _ _ H), H. reflexivity.
Qed.

Lemma chunkStep_content (st : ChunkState) (l : jsstring) :
  matchHunkHeader l = None -> chunkStep st l = contentStep st l.
Proof.
  intros H. unfold chunkStep, contentStep.
  destruct st as [dn [[os ol ns nl ls]|] o n];
    cbn [currentChunk doneChunks oldCounter newCounter oldStart oldLines
         newStart newLines lines countersAfter numberLines].
  - destruct (startsWith l (lit "@@")) eqn:E.
    + rewrite H, (at_not_content _ E), app_nil_r. reflexivity.
    + destruct (isContentLine l) eqn:Ec.
      * unfold pushLine. destruct (lineTypeOf l); reflexivity.
      * rewrite app_nil_r. reflexivity.
  - rewrite H. destruct (startsWith l (lit "@@")); reflexivity.
Qed.

Lemma numberLines_app (a b : list jsstring) : forall o n,
  numberLines o n (a ++ b) =
  numberLines o n a ++
  numberLines (fst (countersAfter o n a)) (snd (countersAfter o n a)) b.
Proof.
  induction a as [|l a IH]; intros o n; simpl; [reflexivity|].
  destruct (isContentLine l); [|apply IH].
  destruct (lineTypeOf l); simpl; rewrite IH; reflexivity.
Qed.

Lemma countersAfter_app (a b : list jsstring) : forall o n,
  countersAfter o n (a ++ b) =
  countersAfter (fst (countersAfter o n a)) (snd (countersAfter o n a)) b.
Proof.
  induction a as [|l a IH]; intros o n; simpl; [reflexivity|].
  destruct (isContentLine l); [|apply IH].
  destruct (lineTypeOf l); apply IH.
Qed.

Lemma chunkFrom_snoc (seen : list jsstring) (l : jsstring) (c : DiffChunk) :
  chunkFrom seen false c -> chunkFrom (seen ++ [l]) false c.
Proof.
  intros (pre & h & body & post & -> & Hc & Hb & h' & post' & -> & Hh).
  exists pre, h, body, (h' :: post' ++ [l]). repeat split; auto.
  - rewrite <- !app_assoc. simpl. rewrite <- app_assoc. reflexivity.
  - eauto.
Qed.

Lemma chunkOf_fields (h : jsstring) (body : list jsstring) (c : DiffChunk) :
  chunkOf h body = Some c ->
  exists m1 m2 m3 m4,
    matchHunkHeader h = Some (m1, m2, m3, m4) /\
    oldStart c = parseInt m1 /\ oldLines c = parseInt (orOne m2) /\
    newStart c = parseInt m3 /\ newLines c = parseInt (orOne m4) /\
    lines c = numberLines (oldStart c) (newStart c) body.
Proof.
  unfold chunkOf.
  destruct (matchHunkHeader h) as [[[[m1 m2] m3] m4]|]; [|discriminate].
  intros H; injection H as <-. exists m1, m2, m3, m4. simpl. auto 10.
Qed.

Lemma loopInv_step (seen : list jsstring) (st : ChunkState) (l : jsstring) :
  loopInv seen st -> loopInv (seen ++ [l]) (chunkStep st l).
Proof.
  intros [Hdone Hopen].
  destruct (matchHunkHeader l) as [[[[m1 m2] m3] m4]|] eqn:Hm.
  - rewrite (chunkStep_header _ _ _ _ _ _ Hm). split; simpl.
    + intros c Hc. unfold pushCurrent in Hc. unfold openInv in Hopen.
      destruct (currentChunk st) as [c0|].
      * apply in_app_or in Hc. destruct Hc as [Hc|[<-|[]]].
        -- apply chunkFrom_snoc; auto.
        -- destruct Hopen as (pre & h & body & -> & Hc0 & Hb & _).
           exists pre, h, body, [l]. repeat split; auto.
           ++ rewrite <- app_assoc. reflexivity.
           ++ exists l, []. split; [reflexivity|].
              unfold isHunkHeader; rewrite Hm; reflexivity.
      * apply chunkFrom_snoc; auto.
    + unfold openInv; simpl. exists seen, l, []. repeat split.
      unfold chunkOf; rewrite Hm; reflexivity.
  - rewrite (chunkStep_content _ _ Hm). unfold contentStep, openInv in *.
    destruct (currentChunk st) as [c|] eqn:Ecur.
    + destruct Hopen as (pre & h & body & -> & Hc & Hb & Hcnt).
      destruct (countersAfter (oldCounter st) (newCounter st) [l])
        as [o n] eqn:Eon.
      split; simpl.
      * intros c' Hc'. apply chunkFrom_snoc; auto.
      * exists pre, h, (body ++ [l]). repeat split.
        -- rewrite <- app_assoc. reflexivity.
        -- destruct (chunkOf_fields _ _ _ Hc)
             as (m1 & m2 & m3 & m4 & Hh & E1 & E2 & E3 & E4 & E5).
           rewrite E1, E3 in Hcnt, E5.
           unfold chunkOf.
           rewrite Hh, numberLines_app, Hcnt, E1, E2, E3, E4, E5.
           reflexivity.
        -- rewrite forallb_app, Hb. simpl. unfold isHunkHeader.
           rewrite Hm. reflexivity.
        -- cbn [oldStart newStart].
           rewrite countersAfter_app, Hcnt. exact Eon.
    + split; [|unfold openInv; rewrite Ecur; exact I].
      intros c Hc. apply chunkFrom_snoc; auto.
Qed.

Lemma loopInv_fold (ls : list jsstring) : forall seen st,
  loopInv seen st -> loopInv (seen ++ ls) (fold_left chunkStep ls st).
Proof.
  induction ls as [|l ls IH]; intros seen st H; simpl.
  - rewrite app_nil_r; exact H.
  - replace (seen ++ l :: ls) with ((seen ++ [l]) ++ ls)
      by (rewrite <- app_assoc; reflexivity).
    apply IH, loopInv_step, H.
Qed.

(** Every chunk of the result is read from a segment of the input. *)
Lemma parseChunks_segments (ls : list jsstring) (c : DiffChunk) :
  In c (parseChunks ls) -> exists last, chunkFrom ls last c.
Proof.
  assert (H0 : loopInv [] initChunkState)
    by (split; [intros ? [] | exact I]).
  pose proof (loopInv_fold ls _ _ H0) as [Hdone Hopen]. simpl in *.
  unfold parseChunks, pushCurrent, openInv in *.
  destruct (currentChunk (fold_left chunkStep ls initChunkState)) as [c0|].
  - intros Hin. apply in_app_or in Hin. destruct Hin as [Hin|[<-|[]]].
    + exists false; auto.
    + destruct Hopen as (pre & h & body & -> & Hc0 & Hb & _).
      exists true, pre, h, body, []. rewrite app_nil_r. auto.
  - intros Hin. exists false; auto.
Qed.

(* ================================================================= *)
(** ** JavaScript numbers: rounding *)

Lemma toNumber_exact (n : N) : n <= 2 ^ 53 -> toNumber n = n.
Proof.
  intros H. unfold toNumber. apply N.leb_le in H. rewrite H. reflexivity.
Qed.

Lemma increment_exact (x : N) : x < 2 ^ 53 -> increment x = x + 1.
Proof. intros H. unfold increment. apply toNumber_exact. lia. Qed.







(* ================================================================= *)
(** ** Line numbers and line counts of a chunk *)

Lemma numberLines_lockstep (body : list jsstring) : forall o n,
  lockstepWith increment o n (numberLines o n body).
Proof.
  induction body as [|l body IH]; intros o n; simpl; [exact I|].
  destruct (isContentLine l); [|apply IH].
  destruct (lineTypeOf l); simpl; auto.
Qed.

Lemma lockstep_presence (next : N -> N) (ls : list DiffLine) : forall o n,
  lockstepWith next o n ls ->
  Forall (fun l =>
            (oldLineNumber l <> None <-> type l <> LineType.added) /\
            (newLineNumber l <> None <-> type l <> LineType.deleted)) ls.
Proof.
  induction ls as [|l ls IH]; intros o n H; constructor.
  - destruct H as (Ho & Hn & _). rewrite Ho, Hn.
    destruct (type l); simpl; repeat split; intros; congruence.
  - destruct H as (_ & _ & H). eapply IH, H.
Qed.

Lemma countOld_cons (l : DiffLine) (ls : list DiffLine) :
  countOld (l :: ls) =
  (if LineType.eqb (type l) LineType.added then 0 else 1) + countOld ls.
Proof.
  unfold countOld. cbn [filter].
  destruct (LineType.eqb (type l) LineType.added); cbn [negb List.length];
    lia.
Qed.

Lemma countNew_cons (l : DiffLine) (ls : list DiffLine) :
  countNew (l :: ls) =
  (if LineType.eqb (type l) LineType.deleted then 0 else 1) + countNew ls.
Proof.
  unfold countNew. cbn [filter].
  destruct (LineType.eqb (type l) LineType.deleted); cbn [negb List.length];
    lia.
Qed.

(** As long as the counters stay within 2^53 the loop steps by one. *)
Lemma lockstep_exact (ls : list DiffLine) : forall o n,
  lockstepWith increment o n ls ->
  o + countOld ls <= 2 ^ 53 -> n + countNew ls <= 2 ^ 53 ->
  lockstep o n ls.
Proof.
  induction ls as [|l ls IH]; intros o n H Ho Hn; [exact I|].
  destruct H as (E1 & E2 & H). rewrite countOld_cons in Ho.
  rewrite countNew_cons in Hn.
  cbn [lockstep]. split; [exact E1|]. split; [exact E2|].
  destruct (LineType.eqb (type l) LineType.added);
    destruct (LineType.eqb (type l) LineType.deleted);
    rewrite <- ?increment_exact by lia;
    apply IH; try exact H; rewrite ?increment_exact by lia; lia.
Qed.

Lemma content_line_cases (l : jsstring) :
  isContentLine l = true ->
  (lineTypeOf l = LineType.added /\ startsWith l (lit "+") = true /\
   startsWith l (lit " ") = false /\ startsWith l (lit "-") = false) \/
  (lineTypeOf l = LineType.deleted /\ startsWith l (lit "-") = true /\
   startsWith l (lit " ") = false /\ startsWith l (lit "+") = false) \/
  (lineTypeOf l = LineType.context /\ startsWith l (lit " ") = true /\
   startsWith l (lit "+") = false /\ startsWith l (lit "-") = false).
Proof.
  unfold isContentLine, lineTypeOf.
  change (lit " ") with [32]; change (lit "+") with [43];
    change (lit "-") with [45].
  destruct (startsWith l [43]) eqn:Ep.
  - intros _. left.
    rewrite (startsWith_unit l 43 32), (startsWith_unit l 43 45);
      auto; discriminate.
  - destruct (startsWith l [45]) eqn:Em.
    + intros _. right; left.
      rewrite (startsWith_unit l 45 32); auto; discriminate.
    + rewrite !orb_false_r. intros ->. right; right. auto.
Qed.

Lemma countOld_numberLines (body : list jsstring) : forall o n,
  countOld (numberLines o n body) = bodyOld body.
Proof.
  unfold countOld, bodyOld.
  induction body as [|l body IH]; intros o n; [reflexivity|].
  cbn [numberLines filter].
  destruct (isContentLine l) eqn:Ec.
  - destruct (content_line_cases l Ec)
      as [(-> & _ & -> & ->)|[(-> & -> & -> & _)|(-> & -> & _ & ->)]];
      cbn [filter type LineType.eqb negb orb List.length];
      rewrite ?Nat2N.inj_succ, IH; reflexivity.
  - unfold isContentLine in Ec. apply orb_false_elim in Ec as [Ec Em].
    apply orb_false_elim in Ec as [Es Ep]. rewrite Es, Em. apply IH.
Qed.

Lemma countNew_numberLines (body : list jsstring) : forall o n,
  countNew (numberLines o n body) = bodyNew body.
Proof.
  unfold countNew, bodyNew.
  induction body as [|l body IH]; intros o n; [reflexivity|].
  cbn [numberLines filter].
  destruct (isContentLine l) eqn:Ec.
  - destruct (content_line_cases l Ec)
      as [(-> & -> & -> & _)|[(-> & _ & -> & ->)|(-> & -> & _ & _)]];
      cbn [filter type LineType.eqb negb orb List.length];
      rewrite ?Nat2N.inj_succ, IH; reflexivity.
  - unfold isContentLine in Ec. apply orb_false_elim in Ec as [Ec Em].
    apply orb_false_elim in Ec as [Es Ep]. rewrite Es, Ep. apply IH.
Qed.

(** C1, as stated, fails from 2^53 on: the counters are JavaScript
    numbers, and [9007199254740992 + 1] rounds back to
    [9007199254740992].  Below the header [@@ -9007199254740992,2 +1,2 @@]
    two context lines get the same old line number. *)
Lemma lockstep_counterexample :
  let ls := [lit "@@ -9007199254740992,2 +1,2 @@"; lit " a"; lit " b"] in
  exists c,
    parseChunks ls = [c] /\
    oldStart c = 9007199254740992 /\
    lines c =
      [ mkDiffLine LineType.context (lit "a") (Some 9007199254740992) (Some 1);
        mkDiffLine LineType.context (lit "b") (Some 9007199254740992)
                   (Some 2) ] /\
    ~ lockstep (oldStart c) (newStart c) (lines c).
Proof.
  eexists. split; [vm_compute; reflexivity|].
  split; [reflexivity|]. split; [reflexivity|].
  intros H. vm_compute in H. destruct H as (_ & _ & H & _). discriminate H.
Qed.

(** C1, amended.  In every chunk that [parseChunks] returns,
    [oldLineNumber] is present exactly on the lines that are not [added]
    (context and deleted) and [newLineNumber] exactly on those that are
    not [deleted] (context and added); each line records the counters
    before they are advanced, from the chunk's [oldStart] and [newStart]
    on, the old counter being advanced with [++] when the type is not
    [added] and the new one when it is not [deleted].  When [oldStart]
    plus the number of old-side lines and [newStart] plus the number of
    new-side lines do not exceed 2^53, every such step adds exactly one:
    the lockstep rule holds. *)
Theorem parseChunks_lockstep (ls : list jsstring) (c : DiffChunk) :
  In c (parseChunks ls) ->
  Forall (fun l =>
            (oldLineNumber l <> None <->
             type l = LineType.context \/ type l = LineType.deleted) /\
            (newLineNumber l <> None <->
             type l = LineType.context \/ type l = LineType.added))
         (lines c) /\
  lockstepWith increment (oldStart c) (newStart c) (lines c) /\
  (oldStart c + countOld (lines c) <= 2 ^ 53 ->
   newStart c + countNew (lines c) <= 2 ^ 53 ->
   lockstep (oldStart c) (newStart c) (lines c)).
Proof.
  intros Hin. destruct (parseChunks_segments _ _ Hin)
    as (last & pre & h & body & post & _ & Hc & _).
  destruct (chunkOf_fields _ _ _ Hc) as (m1 & m2 & m3 & m4 & _ & _ & _ & _ & _ & E).
  assert (L : lockstepWith increment (oldStart c) (newStart c) (lines c))
    by (rewrite E; apply numberLines_lockstep).
  split; [|split; [exact L | apply lockstep_exact, L]].
  eapply Forall_impl; [|exact (lockstep_presence _ _ _ _ L)].
  intros l [Ho Hn]. rewrite Ho, Hn.
  destruct (type l); split; split; intros;
    try congruence; try (intuition congruence); auto.
Qed.

Lemma parseChunks_lockstep_witness :
  let c := mkDiffChunk 5 1 7 1
             [ mkDiffLine LineType.context (lit "a") (Some 5) (Some 7);
               mkDiffLine LineType.added (lit "b") None (Some 8);
               mkDiffLine LineType.deleted (lit "c") (Some 6) None;
               mkDiffLine LineType.context (lit "d") (Some 7) (Some 9) ] in
  lockstep 5 7 (lines c).
Proof.
  intros c.
  refine (proj2 (proj2 (parseChunks_lockstep
            [lit "--- a/f"; lit "@@ -5 +7 @@"; lit " a"; lit "+b"; lit "-c";
             lit "\ No newline at end of file"; lit " d"] c _)) _ _).
  - vm_compute. left. reflexivity.
  - apply N.leb_le. reflexivity.
  - apply N.leb_le. reflexivity.
Defined.

(** C2, as stated, fails: the header counts are copied from the header
    and never compared with the lines below it.  For the one-hunk text
    below the header declares five lines on each side and one added line
    follows. *)
Lemma line_count_counterexample :
  let text :=
    lit "diff --git a/f b/f" ++ [LF] ++ lit "@@ -1,5 +1,5 @@" ++ [LF] ++
    lit "+x" ++ [LF] in
  exists f c,
    parseDiffOutput (fun s => s) text = [f] /\ chunks f = [c] /\
    oldLines c = 5 /\ countOld (lines c) = 0 /\
    newLines c = 5 /\ countNew (lines c) = 1.
Proof.
  eexists; eexists. vm_compute. repeat split; reflexivity.
Qed.

(** C2, amended.  Every chunk is read from a header line and the lines
    between it and the next header (or the end of the block): [oldLines]
    and [newLines] are the Number values of the counts the header declares,
    1 where it omits one, hence the declared counts themselves when these
    are at most 2^53; the number of context or deleted lines is the number
    of those lines of the input that start with a space or [-], and the
    number of context or added lines the number of those that start with a
    space or [+].  The two agree exactly when the text below the header
    has as many such lines as the header gives. *)
Theorem parseChunks_line_counts (ls : list jsstring) (c : DiffChunk) :
  In c (parseChunks ls) ->
  exists pre h body post m1 m2 m3 m4,
    ls = pre ++ h :: body ++ post /\
    matchHunkHeader h = Some (m1, m2, m3, m4) /\
    forallb (fun l => negb (isHunkHeader l)) body = true /\
    (post = [] \/ isHunkHeader (hd [] post) = true) /\
    oldLines c = toNumber (decimalValue (orOne m2)) /\
    newLines c = toNumber (decimalValue (orOne m4)) /\
    (decimalValue (orOne m2) <= 2 ^ 53 ->
     oldLines c = decimalValue (orOne m2)) /\
    (decimalValue (orOne m4) <= 2 ^ 53 ->
     newLines c = decimalValue (orOne m4)) /\
    countOld (lines c) = bodyOld body /\
    countNew (lines c) = bodyNew body /\
    (countOld (lines c) = oldLines c <->
     bodyOld body = toNumber (decimalValue (orOne m2))) /\
    (countNew (lines c) = newLines c <->
     bodyNew body = toNumber (decimalValue (orOne m4))).
Proof.
  intros Hin. destruct (parseChunks_segments _ _ Hin)
    as (last & pre & h & body & post & Hls & Hc & Hb & Hpost).
  destruct (chunkOf_fields _ _ _ Hc)
    as (m1 & m2 & m3 & m4 & Hh & _ & E2 & _ & E4 & E5).
  unfold parseInt in E2, E4.
  exists pre, h, body, post, m1, m2, m3, m4.
  assert (Eo : countOld (lines c) = bodyOld body)
    by (rewrite E5; apply countOld_numberLines).
  assert (En : countNew (lines c) = bodyNew body)
    by (rewrite E5; apply countNew_numberLines).
  split; [exact Hls|]. split; [exact Hh|]. split; [exact Hb|].
  split.
  { destruct last; [left; exact Hpost|].
    destruct Hpost as (h' & post' & -> & Hh'). right; exact Hh'. }
  split; [exact E2|]. split; [exact E4|].
  split; [intros H; rewrite E2; apply toNumber_exact, H|].
  split; [intros H; rewrite E4; apply toNumber_exact, H|].
  split; [exact Eo|]. split; [exact En|].
  rewrite Eo, En, E2, E4. split; reflexivity.
Qed.

Lemma parseChunks_line_counts_witness :
  exists pre h body post m1 m2 m3 m4,
    [lit "--- a/f"; lit "@@ -5,2 +7 @@"; lit " a"; lit "+b"; lit "-c"] =
    pre ++ h :: body ++ post /\
    matchHunkHeader h = Some (m1, m2, m3, m4) /\
    forallb (fun l => negb (isHunkHeader l)) body = true /\
    (post = [] \/ isHunkHeader (hd [] post) = true) /\
    2 = toNumber (decimalValue (orOne m2)) /\
    1 = toNumber (decimalValue (orOne m4)) /\
    (decimalValue (orOne m2) <= 2 ^ 53 -> 2 = decimalValue (orOne m2)) /\
    (decimalValue (orOne m4) <= 2 ^ 53 -> 1 = decimalValue (orOne m4)) /\
    2 = bodyOld body /\
    2 = bodyNew body /\
    (2 = 2 <-> bodyOld body = toNumber (decimalValue (orOne m2))) /\
    (2 = 1 <-> bodyNew body = toNumber (decimalValue (orOne m4))).
Proof.
  refine (parseChunks_line_counts
            [lit "--- a/f"; lit "@@ -5,2 +7 @@"; lit " a"; lit "+b"; lit "-c"]
            (mkDiffChunk 5 2 7 1
               [ mkDiffLine LineType.context (lit "a") (Some 5) (Some 7);
                 mkDiffLine LineType.added (lit "b") None (Some 8);
                 mkDiffLine LineType.deleted (lit "c") (Some 6) None ]) _).
  vm_compute. left. reflexivity.
Defined.

(* ================================================================= *)
(** ** Hunk headers *)

Lemma span_digits_app (ds r : jsstring) :
  forallb isDigit ds = true ->
  match r with [] => true | c :: _ => negb (isDigit c) end = true ->
  span_digits (ds ++ r) = (ds, r).
Proof.
  intros Hd Hr. induction ds as [|d ds IH]; simpl in *.
  - destruct r as [|c r]; [reflexivity|]. simpl.
    apply negb_true_iff in Hr. rewrite Hr. reflexivity.
  - apply andb_true_iff in Hd as [Hd Hds]. rewrite Hd, (IH Hds). reflexivity.
Qed.

Lemma isNumeral_cons (ds : jsstring) :
  isNumeral ds = true ->
  exists d ds', ds = d :: ds' /\ forallb isDigit ds = true.
Proof.
  unfold isNumeral. destruct ds as [|d ds']; [discriminate|].
  simpl truthy. rewrite andb_true_l. eauto.
Qed.

Lemma opt_count_text (m : option jsstring) (r : jsstring) :
  isNumeralOpt m = true ->
  startsWith r (lit " ") = true ->
  opt_count (countText m ++ r) = (m, r).
Proof.
  intros Hm Hr. apply startsWith_iff in Hr as [r' ->].
  destruct m as [ds|]; simpl in *; [|reflexivity].
  destruct (isNumeral_cons _ Hm) as (d & ds' & -> & Hd).
  change (opt_count (44 :: (d :: ds') ++ 32 :: r') =
          (Some (d :: ds'), 32 :: r')).
  unfold opt_count. rewrite N.eqb_refl, (span_digits_app _ _ Hd); reflexivity.
Qed.

Lemma orOne_declared (m : option jsstring) :
  isNumeralOpt m = true -> parseInt (orOne m) = declaredCount m.
Proof.
  destruct m as [ds|]; simpl; [|reflexivity].
  intros H. destruct (isNumeral_cons _ H) as (d & ds' & -> & _). reflexivity.
Qed.

Lemma matchHunkHeader_text (a : jsstring) (oc : option jsstring)
    (b : jsstring) (nc : option jsstring) (rest : jsstring) :
  isNumeral a = true -> isNumeralOpt oc = true ->
  isNumeral b = true -> isNumeralOpt nc = true ->
  matchHunkHeader (hunkHeaderText a oc b nc rest) = Some (a, oc, b, nc).
Proof.
  intros Ha Hoc Hb Hnc. unfold matchHunkHeader, hunkHeaderText.
  rewrite strip_prefix_app.
  destruct (isNumeral_cons _ Ha) as (a0 & a' & Ea & Hda).
  destruct (isNumeral_cons _ Hb) as (b0 & b' & Eb & Hdb).
  assert (S1 : span_digits
                 (a ++ countText oc ++ lit " +" ++ b ++ countText nc ++
                  lit " @@" ++ rest) =
               (a, countText oc ++ lit " +" ++ b ++ countText nc ++
                   lit " @@" ++ rest)).
  { apply span_digits_app; [exact Hda|]. destruct oc; reflexivity. }
  rewrite S1. rewrite Ea at 1.
  rewrite (opt_count_text oc) by (auto; reflexivity).
  rewrite strip_prefix_app.
  assert (S2 : span_digits (b ++ countText nc ++ lit " @@" ++ rest) =
               (b, countText nc ++ lit " @@" ++ rest)).
  { apply span_digits_app; [exact Hdb|]. destruct nc; reflexivity. }
  rewrite S2. rewrite Eb at 1.
  rewrite (opt_count_text nc) by (auto; reflexivity).
  rewrite strip_prefix_app. reflexivity.
Qed.



(* ================================================================= *)
(** ** File blocks *)

Lemma truthyOpt_find (pred : jsstring -> bool) (ls : list jsstring) :
  (forall l, pred l = true -> truthy l = true) ->
  truthyOpt (arr_find pred ls) = existsb pred ls.
Proof.
  intros Hp. unfold arr_find.
  induction ls as [|l ls IH]; simpl; [reflexivity|].
  destruct (pred l) eqn:E; simpl; [apply Hp, E | exact IH].
Qed.

Lemma startsWith_truthy (p l : jsstring) :
  truthy p = true -> startsWith l p = true -> truthy l = true.
Proof. destruct p, l; simpl; congruence. Qed.

Lemma includes_truthy (p l : jsstring) :
  truthy p = true -> includes l p = true -> truthy l = true.
Proof. destruct p, l; simpl; congruence. Qed.

Lemma parseFileBlock_fileOf (lower : jsstring -> jsstring)
    (firstLine : jsstring) (rest : list jsstring) (o n : jsstring) :
  matchFileHeader firstLine = Some (o, n) ->
  parseFileBlock lower (firstLine :: rest) =
  Some (fileOf lower o n (firstLine :: rest)).
Proof.
  intros H. unfold parseFileBlock. rewrite H.
  rewrite !(truthyOpt_find (fun l => startsWith l _))
    by (intros l; apply startsWith_truthy; reflexivity).
  rewrite (truthyOpt_find (fun l => includes l _))
    by (intros l; apply includes_truthy; reflexivity).
  unfold fileOf, classifyStatus, hasLineWith, hasBinaryMarker.
  set (ls := firstLine :: rest).
  destruct (existsb (fun l => startsWith l (lit "new file mode")) ls);
    [destruct (existsb _ ls); reflexivity|].
  destruct (existsb (fun l => startsWith l (lit "deleted file mode")) ls);
    [destruct (existsb _ ls); reflexivity|].
  destruct (existsb (fun l => startsWith l (lit "rename from")) ls);
    destruct (existsb _ ls); reflexivity.
Qed.

Lemma parseFileBlock_Some (lower : jsstring -> jsstring)
    (ls : list jsstring) (f : DiffFile) :
  parseFileBlock lower ls = Some f ->
  exists firstLine rest o n,
    ls = firstLine :: rest /\
    matchFileHeader firstLine = Some (o, n) /\
    f = fileOf lower o n ls.
Proof.
  destruct ls as [|firstLine rest]; [discriminate|].
  destruct (matchFileHeader firstLine) as [[o n]|] eqn:E.
  - rewrite (parseFileBlock_fileOf _ _ _ _ _ E). intros H; injection H as <-.
    exists firstLine, rest, o, n. auto.
  - unfold parseFileBlock. rewrite E. discriminate.
Qed.

Lemma parseFileBlock_None (lower : jsstring -> jsstring)
    (firstLine : jsstring) (rest : list jsstring) :
  matchFileHeader firstLine = None ->
  parseFileBlock lower (firstLine :: rest) = None.
Proof. intros H. unfold parseFileBlock. rewrite H. reflexivity. Qed.

Lemma fold_push {A B} (f : A -> option B) (l : list A) : forall acc,
  fold_left (fun acc x => match f x with
                          | Some y => acc ++ [y]
                          | None => acc
                          end) l acc =
  acc ++ flat_map (fun x => match f x with Some y => [y] | None => [] end) l.
Proof.
  induction l as [|x l IH]; intros acc; simpl.
  - rewrite app_nil_r; reflexivity.
  - rewrite IH. destruct (f x); simpl.
    + rewrite <- app_assoc; reflexivity.
    + reflexivity.
Qed.

Lemma parseDiffOutput_flat_map (lower : jsstring -> jsstring)
    (diffText : jsstring) :
  parseDiffOutput lower diffText =
  flat_map (fun block => match parseFileBlock lower (split LF block) with
                         | Some f => [f]
                         | None => []
                         end)
           (fileBlocks diffText).
Proof. unfold parseDiffOutput. rewrite fold_push. reflexivity. Qed.

Lemma parseDiffOutput_In (lower : jsstring -> jsstring)
    (diffText : jsstring) (f : DiffFile) :
  In f (parseDiffOutput lower diffText) <->
  exists block, In block (fileBlocks diffText) /\
                parseFileBlock lower (split LF block) = Some f.
Proof.
  rewrite parseDiffOutput_flat_map, in_flat_map. split.
  - intros (block & Hb & Hf). exists block. split; [exact Hb|].
    destruct (parseFileBlock lower (split LF block)); simpl in Hf.
    + destruct Hf as [->|[]]; reflexivity.
    + destruct Hf.
  - intros (block & Hb & Hf). exists block. split; [exact Hb|].
    rewrite Hf. left; reflexivity.
Qed.

(** C3.  A block with a recognised first line, one of whose lines
    contains ["Binary files"] (as a ["Binary files ... differ"] line
    does), gives a [DiffFile] with no chunks, zero additions and
    deletions and [isBinary = true], whatever else the block holds; any
    [DiffFile] read from a block with such a line is of this form; and in
    every [DiffFile] the parser returns, [isBinary = true] comes with
    empty chunks and zero counts. *)
Theorem binary_block (lower : jsstring -> jsstring) :
  (forall firstLine rest o n,
     matchFileHeader firstLine = Some (o, n) ->
     hasBinaryMarker (firstLine :: rest) = true ->
     exists f,
       parseFileBlock lower (firstLine :: rest) = Some f /\
       chunks f = [] /\ additions f = 0 /\ deletions f = 0 /\
       isBinary f = Some true) /\
  (forall ls f,
     hasBinaryMarker ls = true ->
     parseFileBlock lower ls = Some f ->
     chunks f = [] /\ additions f = 0 /\ deletions f = 0 /\
     isBinary f = Some true) /\
  (forall diffText f,
     In f (parseDiffOutput lower diffText) ->
     isBinary f = Some true ->
     chunks f = [] /\ additions f = 0 /\ deletions f = 0).
Proof.
  split; [|split].
  - intros firstLine rest o n Hm Hb.
    rewrite (parseFileBlock_fileOf _ _ _ _ _ Hm).
    eexists; split; [reflexivity|]. unfold fileOf. rewrite Hb. auto.
  - intros ls f Hb Hf.
    apply parseFileBlock_Some in Hf
      as (firstLine & rest & o & n & _ & _ & ->).
    unfold fileOf. rewrite Hb. auto.
  - intros diffText f Hin Hb.
    apply parseDiffOutput_In in Hin as (block & _ & Hf).
    apply parseFileBlock_Some in Hf
      as (firstLine & rest & o & n & _ & _ & ->).
    unfold fileOf in *. destruct (hasBinaryMarker (split LF block)).
    + auto.
    + discriminate.
Qed.

Lemma binary_block_witness :
  let block :=
    [lit "a/img.png b/img.png"; lit "index 1..2";
     lit "@@ -1,2 +1,2 @@"; lit "-old"; lit "+new";
     lit "Binary files a/img.png and b/img.png differ"] in
  exists f,
    parseFileBlock (fun s => s) block = Some f /\
    chunks f = [] /\ additions f = 0 /\ deletions f = 0 /\
    isBinary f = Some true.
Proof.
  intros block.
  refine (proj1 (binary_block (fun s => s)) _ _
            (lit "img.png") (lit "img.png") _ _);
    vm_compute; reflexivity.
Defined.

(** C4.  For a block whose first line is recognised, with [o] and [n] the
    names after [a/] and [b/]: a line starting with ["new file mode"]
    gives status added; otherwise a line starting with
    ["deleted file mode"] gives status deleted and the file name [o];
    otherwise a line starting with ["rename from"] gives status renamed;
    otherwise the status is modified. *)
Theorem status_precedence (lower : jsstring -> jsstring)
    (firstLine : jsstring) (rest : list jsstring) (o n : jsstring) :
  matchFileHeader firstLine = Some (o, n) ->
  exists f,
    parseFileBlock lower (firstLine :: rest) = Some f /\
    let ls := firstLine :: rest in
    if hasLineWith (lit "new file mode") ls
    then status f = Status.added
    else if hasLineWith (lit "deleted file mode") ls
    then status f = Status.deleted /\ filename f = o
    else if hasLineWith (lit "rename from") ls
    then status f = Status.renamed
    else status f = Status.modified.
Proof.
  intros Hm. rewrite (parseFileBlock_fileOf _ _ _ _ _ Hm).
  eexists; split; [reflexivity|]. cbv zeta.
  unfold fileOf, classifyStatus.
  destruct (hasLineWith (lit "new file mode") (firstLine :: rest));
    [destruct (hasBinaryMarker _); reflexivity|].
  destruct (hasLineWith (lit "deleted file mode") (firstLine :: rest));
    [destruct (hasBinaryMarker _); split; reflexivity|].
  destruct (hasLineWith (lit "rename from") (firstLine :: rest));
    destruct (hasBinaryMarker _); reflexivity.
Qed.

Lemma status_precedence_witness :
  exists f,
    parseFileBlock (fun s => s)
      [lit "a/old.txt b/new.txt"; lit "deleted file mode 100644";
       lit "rename from old.txt"; lit "Binary files differ"] = Some f /\
    status f = Status.deleted /\ filename f = lit "old.txt".
Proof.
  exact (status_precedence (fun s => s) (lit "a/old.txt b/new.txt")
           [lit "deleted file mode 100644"; lit "rename from old.txt";
            lit "Binary files differ"]
           (lit "old.txt") (lit "new.txt") eq_refl).
Defined.

(** C10.  The [DiffFile] of a block without the binary marker has neither
    [isBinary] nor [isImage]; with the marker it has [isBinary = true] and
    a defined [isImage].  So [isBinary] is never [false], and [isBinary =
    true] and a defined [isImage] come together, on the binary branch
    only. *)
Theorem optional_fields (lower : jsstring -> jsstring)
    (ls : list jsstring) (f : DiffFile) :
  parseFileBlock lower ls = Some f ->
  (hasBinaryMarker ls = false -> isBinary f = None /\ isImage f = None) /\
  (hasBinaryMarker ls = true ->
   isBinary f = Some true /\
   isImage f = Some (isImageFile lower (filename f))) /\
  isBinary f <> Some false /\
  (isBinary f = Some true <-> isImage f <> None) /\
  (isBinary f = Some true <-> hasBinaryMarker ls = true).
Proof.
  intros Hf. apply parseFileBlock_Some in Hf
    as (firstLine & rest & o & n & _ & _ & ->).
  unfold fileOf. destruct (hasBinaryMarker ls); simpl;
    repeat split; intros; try congruence; try discriminate; auto.
Qed.

Lemma optional_fields_witness :
  let f := mkDiffFile (lit "f.txt") None Status.modified 1 0
             [mkDiffChunk 1 1 1 2
                [mkDiffLine LineType.context (lit "a") (Some 1) (Some 1);
                 mkDiffLine LineType.added (lit "b") None (Some 2)]]
             None None in
  isBinary f = None /\ isImage f = None.
Proof.
  intros f.
  refine (proj1 (optional_fields (fun s => s)
            [lit "a/f.txt b/f.txt"; lit "index 1..2"; lit "--- a/f.txt";
             lit "+++ b/f.txt"; lit "@@ -1 +1,2 @@"; lit " a"; lit "+b"]
            f _) _); vm_compute; reflexivity.
Defined.

(* ================================================================= *)
(** ** [parseDiff]: validation and reference resolution *)

Lemma emptyArg_iff (s : jsstring) : emptyArg s = true <-> trim s = [].
Proof.
  unfold emptyArg. rewrite orb_true_iff, str_eqb_eq. split.
  - intros [H|H]; [|exact H]. destruct s; [reflexivity|discriminate].
  - auto.
Qed.

Lemma arr_includes_In (arr : list jsstring) (s : jsstring) :
  arr_includes arr s = true <-> In s arr.
Proof.
  unfold arr_includes. rewrite existsb_exists. split.
  - intros (x & Hx & E). apply str_eqb_eq in E; subst; exact Hx.
  - intros H. exists s. split; [exact H | apply str_eqb_refl].
Qed.

Lemma validate_invalid (target base : jsstring) :
  ~ In target specialArgs ->
  trim target = [] \/ trim base = [] ->
  validateDiffArguments target (Some base) =
  mkValidation false
    (Some (if str_eqb (trim target) []
           then lit "Target commit cannot be empty"
           else lit "Compare-with commit cannot be empty")).
Proof.
  intros Hs He. unfold validateDiffArguments.
  destruct (arr_includes specialArgs target) eqn:E;
    [apply arr_includes_In in E; contradiction|].
  destruct (emptyArg target) eqn:Et.
  - apply emptyArg_iff in Et. rewrite Et. reflexivity.
  - destruct (str_eqb (trim target) []) eqn:Et'.
    + apply str_eqb_eq, emptyArg_iff in Et'. congruence.
    + destruct He as [He|He].
      * rewrite He in Et'. discriminate.
      * apply emptyArg_iff in He. rewrite He. reflexivity.
Qed.

(** C5, as stated, fails when the target is one of the tokens: the
    validation returns at once for them and never looks at the base.  With
    target ["working"] and an empty base, [parseDiff] runs [git diff] and
    succeeds. *)
Lemma empty_base_counterexample :
  let env := mkEnv (fun _ => inr (lit "0123456789abcdef"))
                   (fun _ => inr [])
                   (inr ([], []))
                   (fun _ => inr true)
                   (fun _ => inr []) in
  trim [] = [] /\
  parseDiff (fun s => s) env (lit "working") [] false =
  ([EvRaw [lit "diff"; lit "--unified=3"]],
   inr (mkDiffResponse [] (lit "Working Directory (unstaged changes)") true)).
Proof. vm_compute. split; reflexivity. Qed.

(** C5, amended.  When the target is none of the tokens [working],
    [staged] and [.], and the target or the base is empty or consists of
    white space, [parseDiff] throws the wrapped message that names the
    side (the target when both are empty), and it has made no call to git
    or to the file system. *)
Theorem invalid_argument (lower : jsstring -> jsstring) (env : Env)
    (target base : jsstring) (ignoreWhitespace : bool) :
  ~ In target specialArgs ->
  trim target = [] \/ trim base = [] ->
  parseDiff lower env target base ignoreWhitespace =
  ([], inl (wrapped (ErrorObj
              (if str_eqb (trim target) []
               then lit "Target commit cannot be empty"
               else lit "Compare-with commit cannot be empty")))).
Proof.
  intros Hs He. unfold parseDiff.
  rewrite (validate_invalid _ _ Hs He). reflexivity.
Qed.

Lemma invalid_argument_witness :
  let env := mkEnv (fun _ => inr (lit "0123456789abcdef"))
                   (fun _ => inr [])
                   (inr ([], []))
                   (fun _ => inr true)
                   (fun _ => inr []) in
  parseDiff (fun s => s) env (lit "HEAD") (lit "  ") true =
  ([], inl (ErrorObj
     (lit "Failed to parse diff: Compare-with commit cannot be empty"))).
Proof.
  intros env.
  refine (invalid_argument (fun s => s) env (lit "HEAD") (lit "  ") true _ _).
  - vm_compute. intros [H|[H|[H|[]]]]; discriminate.
  - right. vm_compute. reflexivity.
Defined.

Lemma syntheticStep_ok (env : Env) (acc name : jsstring) :
  exists t,
    syntheticStep env acc name =
    (t, inr (acc ++ match readable env name with
                    | Some fileContent => syntheticBlock name fileContent
                    | None => []
                    end)) /\
    Forall isFsEvent t.
Proof.
  unfold syntheticStep, readable, perform, bind, tryCatch, ret.
  destruct (fs_stat env name) as [e|[|]].
  - rewrite (app_nil_r acc). eexists; split; [reflexivity|].
    repeat constructor.
  - destruct (fs_readFile env name) as [e|fileContent].
    + rewrite (app_nil_r acc). eexists; split; [reflexivity|].
      repeat constructor.
    + eexists; split; [reflexivity|]. repeat constructor.
  - rewrite (app_nil_r acc). eexists; split; [reflexivity|].
    repeat constructor.
Qed.

Lemma syntheticLoop_ok (env : Env) (names : list jsstring) : forall acc,
  exists t,
    syntheticLoop env acc names = (t, inr (acc ++ syntheticText env names)) /\
    Forall isFsEvent t.
Proof.
  induction names as [|name names IH]; intros acc; simpl.
  - rewrite app_nil_r. unfold ret. eauto.
  - destruct (syntheticStep_ok env acc name) as (t1 & -> & F1).
    destruct (IH (acc ++ match readable env name with
                         | Some fileContent => syntheticBlock name fileContent
                         | None => []
                         end)) as (t2 & E & F2).
    unfold bind. rewrite E, <- app_assoc.
    eexists; split; [reflexivity|]. apply Forall_app; auto.
Qed.

(** [createSyntheticDiffForAllFiles] never throws. *)
Lemma createSynthetic_ok (env : Env) (names : list jsstring) :
  exists t,
    createSyntheticDiffForAllFiles env names =
    (t, inr (syntheticText env names)) /\
    Forall isFsEvent t.
Proof. exact (syntheticLoop_ok env names []). Qed.

Lemma resolve_dot_fallback (env : Env) (base : jsstring) (e : thrown) :
  git_revparse env base = inl e ->
  resolveComparison env (lit ".") base =
  ([EvRevparse base],
   inr (lit "Working Directory (all files)",
        [lit "--no-index"; lit "/dev/null"])).
Proof. intros H. unfold resolveComparison. rewrite H. reflexivity. Qed.

Lemma resolve_staged_fails (env : Env) (base : jsstring) (e : thrown) :
  git_revparse env base = inl e ->
  resolveComparison env (lit "staged") base = ([EvRevparse base], inl e).
Proof. intros H. unfold resolveComparison. rewrite H. reflexivity. Qed.

Lemma not_special (target : jsstring) :
  ~ In target specialArgs ->
  str_eqb target (lit "working") = false /\
  str_eqb target (lit "staged") = false /\
  str_eqb target (lit ".") = false.
Proof.
  intros H. repeat split; apply not_true_is_false; intros E;
    apply str_eqb_eq in E; apply H; subst; simpl; auto.
Qed.

Lemma validate_valid (target base : jsstring) :
  ~ In target specialArgs -> trim target <> [] -> trim base <> [] ->
  validateDiffArguments target (Some base) = mkValidation true None.
Proof.
  intros Hs Ht Hb. unfold validateDiffArguments.
  destruct (arr_includes specialArgs target); [reflexivity|].
  destruct (emptyArg target) eqn:Et;
    [apply emptyArg_iff in Et; contradiction|].
  destruct (emptyArg base) eqn:Eb;
    [apply emptyArg_iff in Eb; contradiction|].
  reflexivity.
Qed.

Lemma rawDiffFor_no_index (env : Env) (args paths notAdded : list jsstring) :
  Nat.eqb (List.length args) 0 = false ->
  arr_includes args (lit "--no-index") = true ->
  git_status env = inr (paths, notAdded) ->
  exists t,
    rawDiffFor env args =
    (EvStatus :: t, inr (syntheticText env (paths ++ notAdded))) /\
    Forall isFsEvent t.
Proof.
  intros H1 H2 H3. unfold rawDiffFor. rewrite H1, H2, H3.
  unfold perform, bind.
  destruct (paths ++ notAdded) as [|name names] eqn:E.
  - exists []. split; [reflexivity | constructor].
  - cbn [List.length Nat.eqb].
    destruct (createSynthetic_ok env (name :: names)) as (t & -> & F).
    exists t. split; [reflexivity | exact F].
Qed.

Lemma withFlag_no_index (ignoreWhitespace : bool) :
  let args :=
    if ignoreWhitespace
    then [lit "--no-index"; lit "/dev/null"] ++ [lit "--ignore-all-space"]
    else [lit "--no-index"; lit "/dev/null"] in
  Nat.eqb (List.length args) 0 = false /\
  arr_includes args (lit "--no-index") = true.
Proof. destruct ignoreWhitespace; split; reflexivity. Qed.

(** C6.  With target [.], when resolving the base throws, the resolution
    step of [parseDiff] does not throw: it yields the label
    ["Working Directory (all files)"] and the arguments of the synthetic
    mode.  [parseDiff] then returns (the status query of that mode
    answering) with this label and the files parsed from the synthetic
    text of the paths of the status, and [git diff] is not run.  With
    target [staged], and with a target that is none of the tokens, the
    thrown value of a failed resolution comes out of [parseDiff]
    wrapped; with target [working] no reference is resolved, the one call
    is [git diff]. *)
Theorem resolution_failure (lower : jsstring -> jsstring) (env : Env)
    (target base : jsstring) (ignoreWhitespace : bool) (e : thrown) :
  (git_revparse env base = inl e ->
   resolveComparison env (lit ".") base =
   ([EvRevparse base],
    inr (lit "Working Directory (all files)",
         [lit "--no-index"; lit "/dev/null"]))) /\
  (git_revparse env base = inl e ->
   forall paths notAdded,
     git_status env = inr (paths, notAdded) ->
     exists t,
       let fs := parseDiffOutput lower
                   (syntheticText env (paths ++ notAdded)) in
       parseDiff lower env (lit ".") base ignoreWhitespace =
       (EvRevparse base :: EvStatus :: t,
        inr (mkDiffResponse fs (lit "Working Directory (all files)")
                            (Nat.eqb (List.length fs) 0))) /\
       Forall (fun ev => match ev with
                         | EvRaw _ | EvRevparse _ | EvStatus => False
                         | _ => True
                         end) t) /\
  (git_revparse env base = inl e ->
   parseDiff lower env (lit "staged") base ignoreWhitespace =
   ([EvRevparse base], inl (wrapped e))) /\
  fst (parseDiff lower env (lit "working") base ignoreWhitespace) =
    [EvRaw ([lit "diff"; lit "--unified=3"] ++
            if ignoreWhitespace then [lit "--ignore-all-space"] else [])] /\
  (~ In target specialArgs -> trim target <> [] -> trim base <> [] ->
   (git_revparse env target = inl e ->
    parseDiff lower env target base ignoreWhitespace =
    ([EvRevparse target], inl (wrapped e))) /\
   (forall targetHash,
      git_revparse env target = inr targetHash ->
      git_revparse env base = inl e ->
      parseDiff lower env target base ignoreWhitespace =
      ([EvRevparse target; EvRevparse base], inl (wrapped e)))).
Proof.
  split; [apply resolve_dot_fallback|split; [|split; [|split]]].
  - intros Hrev paths notAdded Hst.
    pose proof (withFlag_no_index ignoreWhitespace) as [L I].
    destruct (rawDiffFor_no_index env _ paths notAdded L I Hst)
      as (t & E & F).
    exists t. split.
    + unfold parseDiff.
      change (validateDiffArguments (lit ".") (Some base))
        with (mkValidation true None).
      rewrite (resolve_dot_fallback _ _ _ Hrev).
      cbn [valid negb bind ret]. rewrite E.
      cbn [bind ret tryCatch app]. rewrite app_nil_r. reflexivity.
    + eapply Forall_impl; [|exact F]. intros [ | | | | | ]; simpl; auto.
  - intros Hrev. unfold parseDiff.
    change (validateDiffArguments (lit "staged") (Some base))
      with (mkValidation true None).
    rewrite (resolve_staged_fails _ _ _ Hrev). reflexivity.
  - unfold parseDiff, resolveComparison, rawDiffFor, perform.
    change (validateDiffArguments (lit "working") (Some base))
      with (mkValidation true None).
    destruct ignoreWhitespace; cbn [valid negb bind ret app];
      cbn [str_eqb lit]; cbn;
      match goal with
      | |- context [git_raw env ?a] => destruct (git_raw env a)
      end; reflexivity.
  - intros Hs Ht Hb.
    destruct (not_special _ Hs) as (N1 & N2 & N3).
    split.
    + intros Hrev. unfold parseDiff, resolveComparison.
      rewrite (validate_valid _ _ Hs Ht Hb), N1, N2, N3, Hrev. reflexivity.
    + intros targetHash Hrt Hrb. unfold parseDiff, resolveComparison.
      rewrite (validate_valid _ _ Hs Ht Hb), N1, N2, N3, Hrt, Hrb.
      reflexivity.
Qed.

Lemma resolution_failure_witness :
  let env := mkEnv (fun _ => inl (ErrorObj (lit "unknown revision")))
                   (fun _ => inr [])
                   (inr ([lit "a.txt"], []))
                   (fun _ => inr true)
                   (fun _ => inr (lit "hello")) in
  exists t,
    let fs := parseDiffOutput (fun s => s) (syntheticText env [lit "a.txt"]) in
    parseDiff (fun s => s) env (lit ".") (lit "HEAD") false =
    (EvRevparse (lit "HEAD") :: EvStatus :: t,
     inr (mkDiffResponse fs (lit "Working Directory (all files)")
                         (Nat.eqb (List.length fs) 0))) /\
    Forall (fun ev => match ev with
                      | EvRaw _ | EvRevparse _ | EvStatus => False
                      | _ => True
                      end) t.
Proof.
  intros env.
  exact (proj1 (proj2 (resolution_failure (fun s => s) env (lit "v1")
                         (lit "HEAD") false
                         (ErrorObj (lit "unknown revision"))))
               eq_refl [lit "a.txt"] [] eq_refl).
Defined.

(* ================================================================= *)
(** ** [parseDiffOutput] on arbitrary text *)

Lemma split_cons (sep : N) (s : jsstring) :
  exists firstLine rest, split sep s = firstLine :: rest.
Proof. unfold split. destruct (split_on sep s) as [l ls]. eauto. Qed.

Lemma chunkStep_bad_header (st : ChunkState) (l : jsstring) :
  startsWith l (lit "@@") = true -> matchHunkHeader l = None ->
  chunkStep st l = st.
Proof. intros H1 H2. unfold chunkStep. rewrite H1, H2. reflexivity. Qed.

Lemma chunkStep_outside (st : ChunkState) (l : jsstring) :
  currentChunk st = None -> matchHunkHeader l = None -> chunkStep st l = st.
Proof.
  intros H1 H2. unfold chunkStep. rewrite H1, H2.
  destruct (startsWith l (lit "@@")); reflexivity.
Qed.

Lemma chunkStep_stray (st : ChunkState) (l : jsstring) :
  isParsedLine l = false -> chunkStep st l = st.
Proof.
  unfold isParsedLine, isHunkHeader, chunkStep. intros H.
  apply orb_false_elim in H as [Hh Hc].
  destruct (matchHunkHeader l); [discriminate|].
  destruct (startsWith l (lit "@@")); [reflexivity|].
  destruct (currentChunk st); [rewrite Hc|]; reflexivity.
Qed.

Lemma fold_stray (ls : list jsstring) : forall st,
  fold_left chunkStep ls st = fold_left chunkStep (filter isParsedLine ls) st.
Proof.
  induction ls as [|l ls IH]; intros st; [reflexivity|].
  cbn [fold_left filter]. destruct (isParsedLine l) eqn:E.
  - cbn [fold_left]. apply IH.
  - rewrite (chunkStep_stray _ _ E). apply IH.
Qed.

Lemma forOf_ret {S A} (body : S -> A -> M S) (f : S -> A -> S)
    (xs : list A) : forall st,
  (forall st x, body st x = ret (f st x)) ->
  forOf body xs st = ret (fold_left f xs st).
Proof.
  induction xs as [|x xs IH]; intros st H; [reflexivity|].
  cbn [forOf fold_left]. rewrite H. unfold bind, ret at 1.
  rewrite (IH _ H). reflexivity.
Qed.

(** The tests of the loop body keep its reads defined. *)
Lemma chunkStepChecked_ret (st : ChunkState) (l : jsstring) :
  chunkStepChecked st l = ret (chunkStep st l).
Proof.
  unfold chunkStepChecked, chunkStep.
  destruct (startsWith l (lit "@@")).
  - destruct (matchHunkHeader l) as [[[[m1 m2] m3] m4]|]; reflexivity.
  - destruct (currentChunk st) as [c|]; [|reflexivity].
    destruct (isContentLine l); reflexivity.
Qed.

Lemma parseChunksChecked_ret (ls : list jsstring) :
  parseChunksChecked ls = ret (parseChunks ls).
Proof.
  unfold parseChunksChecked, parseChunks.
  rewrite (forOf_ret _ chunkStep) by apply chunkStepChecked_ret.
  reflexivity.
Qed.

Lemma parseFileBlockChecked_ret (lower : jsstring -> jsstring)
    (ls : list jsstring) :
  parseFileBlockChecked lower ls = ret (parseFileBlock lower ls).
Proof.
  unfold parseFileBlockChecked, parseFileBlock.
  destruct ls as [|firstLine rest]; [reflexivity|].
  cbn [List.length Nat.eqb nth_error deref]. unfold bind at 1, ret at 1.
  destruct (matchFileHeader firstLine) as [[o n]|]; [|reflexivity].
  cbn [present negb deref]. unfold bind at 1, ret at 1.
  destruct (if truthyOpt _ then _ else _) as [st name].
  destruct (truthyOpt (arr_find (fun l => includes l (lit "Binary files")) _));
    [reflexivity|].
  rewrite parseChunksChecked_ret. reflexivity.
Qed.

Lemma parseDiffOutputChecked_ret (lower : jsstring -> jsstring)
    (diffText : jsstring) :
  parseDiffOutputChecked lower diffText = ret (parseDiffOutput lower diffText).
Proof.
  unfold parseDiffOutputChecked, parseDiffOutput.
  apply forOf_ret. intros files block.
  rewrite parseFileBlockChecked_ret. reflexivity.
Qed.

(** C9.  [parseDiffOutput] returns a list of [DiffFile] for every text and
    never throws: with every read of the source that throws on [null] or
    [undefined] made explicit ([lines[0].match], [fileMatch[1]],
    [match[1]], [currentChunk.lines]), the parser throws nothing and makes
    no call, and returns the list of the embedding.  That list holds, in
    order, the files of the blocks whose first line is recognised; a block
    whose first line is not recognised adds nothing, and the empty text
    gives no file.  Stray lines are ignored: the chunks of a block are
    those of its hunk headers and content lines alone; a line that starts
    with [@@] but is no hunk header, and any line that is no header while
    no chunk is open, leave the state of [parseChunks] as it is. *)
Theorem parseDiffOutput_total (lower : jsstring -> jsstring) :
  (forall diffText,
     parseDiffOutputChecked lower diffText =
     ([], inr (parseDiffOutput lower diffText))) /\
  (forall diffText,
     parseDiffOutput lower diffText =
     flat_map (fun block =>
                 match matchFileHeader (hd [] (split LF block)) with
                 | Some (o, n) => [fileOf lower o n (split LF block)]
                 | None => []
                 end)
              (fileBlocks diffText)) /\
  parseDiffOutput lower [] = [] /\
  (forall block, exists firstLine rest, split LF block = firstLine :: rest) /\
  (forall firstLine rest,
     matchFileHeader firstLine = None ->
     parseFileBlock lower (firstLine :: rest) = None) /\
  (forall ls, parseChunks ls = parseChunks (filter isParsedLine ls)) /\
  (forall st l,
     startsWith l (lit "@@") = true -> matchHunkHeader l = None ->
     chunkStep st l = st) /\
  (forall st l,
     currentChunk st = None -> matchHunkHeader l = None ->
     chunkStep st l = st).
Proof.
  split; [apply parseDiffOutputChecked_ret|].
  split; [|split; [reflexivity|split; [apply split_cons|split;
    [|split; [|split]]]]].
  - intros diffText. rewrite parseDiffOutput_flat_map.
    apply flat_map_ext. intros block.
    destruct (split_cons LF block) as (firstLine & rest & ->). simpl hd.
    destruct (matchFileHeader firstLine) as [[o n]|] eqn:E.
    + rewrite (parseFileBlock_fileOf _ _ _ _ _ E). reflexivity.
    + rewrite (parseFileBlock_None _ _ _ E). reflexivity.
  - apply parseFileBlock_None.
  - intros ls. unfold parseChunks. rewrite fold_stray. reflexivity.
  - apply chunkStep_bad_header.
  - apply chunkStep_outside.
Qed.

Lemma parseDiffOutput_total_witness :
  parseFileBlock (fun s => s) [lit "Binary files differ"; lit "@@ -1 +1 @@"]
  = None /\
  chunkStep (mkChunkState [] (Some (mkDiffChunk 1 1 1 1 [])) 1 1)
            (lit "@@ -x +y @@") =
  mkChunkState [] (Some (mkDiffChunk 1 1 1 1 [])) 1 1 /\
  chunkStep initChunkState (lit "+stray") = initChunkState.
Proof.
  pose proof (parseDiffOutput_total (fun s => s))
    as (_ & _ & _ & _ & H1 & _ & H2 & H3).
  split; [|split].
  - apply H1. reflexivity.
  - apply H2; reflexivity.
  - apply H3; reflexivity.
Defined.

(* ================================================================= *)
(** ** Splitting a text that is made of lines *)

Lemma splitMarker_quiet (s rest : jsstring) : forall bol cur,
  quietIn bol s rest = true ->
  splitMarker 0 bol cur (s ++ rest) =
  splitMarker 0 (endBol bol s) (rev s ++ cur) rest.
Proof.
  induction s as [|c s IH]; intros bol cur H; [reflexivity|].
  cbn [quietIn] in H. apply andb_true_iff in H as [H1 H2].
  apply negb_true_iff in H1.
  change ((c :: s) ++ rest) with (c :: s ++ rest) in *.
  cbn [splitMarker endBol]. rewrite H1, (IH _ _ H2).
  cbn [rev]. rewrite <- app_assoc. reflexivity.
Qed.

Lemma splitMarker_skip (m s : jsstring) : forall cur,
  splitMarker (List.length m) false cur (m ++ s) = splitMarker 0 false cur s.
Proof.
  induction m as [|c m IH]; intros cur; [reflexivity|]. simpl. apply IH.
Qed.

Lemma splitMarker_match (cur rest : jsstring) :
  splitMarker 0 true cur (diffGitMarker ++ rest) =
  rev cur :: splitMarker 0 false [] rest.
Proof.
  pose proof (splitMarker_skip (tl diffGitMarker) rest []) as H.
  change (diffGitMarker ++ rest) with (100 :: tl diffGitMarker ++ rest).
  cbn [splitMarker].
  change (100 :: tl diffGitMarker ++ rest) with (diffGitMarker ++ rest).
  rewrite startsWith_app. cbn [andb]. f_equal.
Qed.

Lemma startsWith_line (p l rest : jsstring) :
  noLF p = true -> noLF l = true ->
  startsWith (l ++ LF :: rest) p = startsWith l p.
Proof.
  revert l; induction p as [|d p IH]; intros l Hp Hl; [reflexivity|].
  cbn [noLF forallb] in Hp. apply andb_true_iff in Hp as [Hd Hp].
  destruct l as [|c l]; cbn [app startsWith].
  - apply negb_true_iff in Hd. rewrite N.eqb_sym, Hd. reflexivity.
  - cbn [noLF forallb] in Hl. apply andb_true_iff in Hl as [_ Hl].
    rewrite (IH l Hp Hl). reflexivity.
Qed.

Lemma quietIn_line (l rest : jsstring) : forall bol,
  noLF l = true -> quietFrom bol l = true ->
  quietIn bol (l ++ [LF]) rest = true.
Proof.
  induction l as [|c l IH]; intros bol Hn Hq.
  - cbn. rewrite andb_false_r. reflexivity.
  - cbn [quietFrom] in Hq. apply andb_true_iff in Hq as [H1 H2].
    pose proof Hn as Hn'.
    cbn [noLF forallb] in Hn. apply andb_true_iff in Hn as [_ Hn].
    change ((c :: l) ++ [LF]) with (c :: l ++ [LF]).
    cbn [quietIn]. rewrite (IH _ Hn H2), andb_true_r.
    change ((c :: l ++ [LF]) ++ rest) with (((c :: l) ++ [LF]) ++ rest).
    rewrite <- app_assoc.
    change ([LF] ++ rest) with (LF :: rest).
    rewrite (startsWith_line diffGitMarker (c :: l) rest eq_refl Hn').
    exact H1.
Qed.

Lemma quietIn_app (a b rest : jsstring) : forall bol,
  quietIn bol a (b ++ rest) = true ->
  quietIn (endBol bol a) b rest = true ->
  quietIn bol (a ++ b) rest = true.
Proof.
  induction a as [|c a IH]; intros bol Ha Hb; [exact Hb|].
  cbn [quietIn] in Ha. apply andb_true_iff in Ha as [H1 H2].
  change ((c :: a) ++ b) with (c :: a ++ b). cbn [quietIn].
  change ((c :: a ++ b) ++ rest) with (c :: (a ++ b) ++ rest).
  rewrite <- app_assoc.
  change (c :: a ++ b ++ rest) with ((c :: a) ++ b ++ rest).
  rewrite H1. apply IH; assumption.
Qed.

Lemma endBol_app (a b : jsstring) : forall bol,
  endBol bol (a ++ b) = endBol (endBol bol a) b.
Proof. induction a as [|c a IH]; intros bol; [reflexivity | apply IH]. Qed.

Lemma endBol_line (l : jsstring) (bol : bool) : endBol bol (l ++ [LF]) = true.
Proof. rewrite endBol_app. reflexivity. Qed.

Lemma quietIn_unlines_true (ls : list jsstring) (rest : jsstring) :
  Forall (fun l => noLF l = true /\ quietFrom true l = true) ls ->
  quietIn true (unlines ls) rest = true /\ endBol true (unlines ls) = true.
Proof.
  induction 1 as [|l ls [Hn Hq] _ [IH1 IH2]]; [split; reflexivity|].
  unfold unlines in *. cbn [map List.concat]. split.
  - apply quietIn_app.
    + apply quietIn_line; assumption.
    + rewrite endBol_line. exact IH1.
  - rewrite endBol_app, endBol_line. exact IH2.
Qed.

Lemma quietIn_unlines (bol : bool) (ls : list jsstring) (rest : jsstring) :
  quietLines bol ls ->
  quietIn bol (unlines ls) rest = true /\
  (ls <> [] -> endBol bol (unlines ls) = true).
Proof.
  destruct ls as [|l ls]; [split; [reflexivity | congruence]|].
  intros [[Hn Hq] Hrest].
  destruct (quietIn_unlines_true ls rest Hrest) as [Q E].
  unfold unlines in *. cbn [map List.concat]. split.
  - apply quietIn_app.
    + apply quietIn_line; assumption.
    + rewrite endBol_line. exact Q.
  - intros _. rewrite endBol_app, endBol_line. exact E.
Qed.

Lemma splitMarker_blocks (bs : list (list jsstring)) : forall cur,
  Forall (fun ls => ls <> [] /\ quietLines false ls) bs ->
  splitMarker 0 true cur (blocksText bs) = rev cur :: map unlines bs.
Proof.
  induction bs as [|b bs IH]; intros cur H; [reflexivity|].
  inversion H as [|? ? [Hne Hq] Hbs]; subst.
  unfold blocksText in *. cbn [map List.concat].
  rewrite <- app_assoc, splitMarker_match.
  destruct (quietIn_unlines false b
              (List.concat (map (fun ls => diffGitMarker ++ unlines ls) bs))
              Hq) as [Q E].
  rewrite (splitMarker_quiet _ _ _ _ Q), (E Hne), app_nil_r.
  rewrite (IH _ Hbs), rev_involutive. reflexivity.
Qed.

Lemma split_line (l rest : jsstring) :
  noLF l = true -> split LF (l ++ LF :: rest) = l :: split LF rest.
Proof.
  unfold split. induction l as [|c l IH]; intros Hn.
  - cbn. destruct (split_on LF rest). reflexivity.
  - cbn [noLF forallb] in Hn. apply andb_true_iff in Hn as [Hc Hn].
    apply negb_true_iff in Hc. specialize (IH Hn).
    cbn [app split_on]. rewrite Hc.
    destruct (split_on LF (l ++ LF :: rest)) as [l1 ls1].
    destruct (split_on LF rest) as [l2 ls2].
    injection IH as -> ->. reflexivity.
Qed.

Lemma split_unlines (ls : list jsstring) :
  Forall (fun l => noLF l = true) ls ->
  split LF (unlines ls) = ls ++ [[]].
Proof.
  induction 1 as [|l ls Hn _ IH]; [reflexivity|].
  unfold unlines in *. cbn [map List.concat].
  rewrite <- app_assoc. change ([LF] ++ ?x) with (LF :: x).
  rewrite (split_line _ _ Hn), IH. reflexivity.
Qed.

(** The lines that [split] gives contain no line feed. *)
Lemma split_noLF (s : jsstring) :
  Forall (fun l => noLF l = true) (split LF s).
Proof.
  unfold split. induction s as [|c s IH]; [repeat constructor|].
  cbn [split_on]. destruct (split_on LF s) as [l ls].
  inversion IH as [|? ? Hl Hls]; subst.
  destruct (c =? LF) eqn:E.
  - constructor; [reflexivity|]. constructor; assumption.
  - constructor; [|assumption]. cbn [noLF forallb]. rewrite E. exact Hl.
Qed.

Lemma trimStart_keeps (s : jsstring) :
  existsb (fun c => negb (isWhiteSpace c)) s = true ->
  existsb (fun c => negb (isWhiteSpace c)) (trimStart s) = true.
Proof.
  induction s as [|c s IH]; [discriminate|].
  cbn [trimStart]. destruct (isWhiteSpace c) eqn:E.
  - cbn [existsb]. rewrite E. exact IH.
  - auto.
Qed.

Lemma existsb_rev_true {A} (p : A -> bool) (l : list A) :
  existsb p l = true -> existsb p (rev l) = true.
Proof.
  rewrite !existsb_exists. intros (x & Hx & Hp). exists x.
  split; [apply in_rev; rewrite rev_involutive; exact Hx | exact Hp].
Qed.

(** A text with a unit that is not white space survives [trim]. *)
Lemma trim_truthy (s : jsstring) :
  existsb (fun c => negb (isWhiteSpace c)) s = true ->
  truthy (trim s) = true.
Proof.
  intros H. unfold trim.
  apply trimStart_keeps, existsb_rev_true, trimStart_keeps,
    existsb_rev_true in H.
  destruct (rev (trimStart (rev (trimStart s)))); [discriminate|reflexivity].
Qed.

(* ================================================================= *)
(** ** The synthetic diff *)

Lemma syntheticBlock_lines (name fileContent : jsstring) :
  syntheticBlock name fileContent =
  diffGitMarker ++ unlines (syntheticLines name fileContent).
Proof.
  unfold syntheticBlock, syntheticLines, unlines.
  rewrite map_app, concat_app, map_map. cbn [map List.concat].
  change (lit "diff --git a/") with (diffGitMarker ++ lit "a/").
  repeat rewrite <- app_assoc. reflexivity.
Qed.


Lemma noLT_noLF (s : jsstring) : noLineTerminator s = true -> noLF s = true.
Proof.
  unfold noLineTerminator, noLF. intros H.
  eapply forallb_forall. intros c Hc.
  eapply forallb_forall in H; [|exact Hc].
  unfold isLineTerminator in H. unfold LF.
  destruct (c =? 10); [discriminate|reflexivity].
Qed.

Lemma noLT_quiet (s : jsstring) :
  noLineTerminator s = true -> quietFrom false s = true.
Proof.
  induction s as [|c s IH]; [reflexivity|].
  unfold noLineTerminator. cbn [forallb quietFrom andb negb].
  intros H. apply andb_true_iff in H as [Hc Hs].
  apply negb_true_iff in Hc. rewrite Hc. apply IH, Hs.
Qed.

(** A line without line terminators that does not begin with [d]. *)
Lemma noLT_quiet_true (c : N) (s : jsstring) :
  (c =? 100) = false -> noLineTerminator (c :: s) = true ->
  noLF (c :: s) = true /\ quietFrom true (c :: s) = true.
Proof.
  intros Hc H. split; [apply noLT_noLF, H|].
  pose proof (noLT_quiet _ H) as Q. cbn [quietFrom andb negb] in Q.
  cbn [quietFrom]. change diffGitMarker with (100 :: tl diffGitMarker).
  cbn [startsWith]. rewrite Hc. exact Q.
Qed.

Lemma digit_noLT (ds : jsstring) :
  forallb isDigit ds = true -> noLineTerminator ds = true.
Proof.
  unfold noLineTerminator. intros H.
  eapply forallb_forall. intros c Hc.
  eapply forallb_forall in H; [|exact Hc].
  unfold isDigit in H. apply andb_true_iff in H as [H1 H2].
  apply N.leb_le in H1, H2. unfold isLineTerminator.
  destruct (N.eqb_spec c 10); [lia|].
  destruct (N.eqb_spec c 13); [lia|].
  destruct (N.eqb_spec c 8232); [lia|].
  destruct (N.eqb_spec c 8233); [lia|]. reflexivity.
Qed.

Lemma uintUnits_digits (u : Decimal.uint) :
  forallb isDigit (uintUnits u) = true.
Proof. induction u; simpl; auto. Qed.

Lemma decimalDigits_numeral (n : N) : isNumeral (decimalDigits n) = true.
Proof.
  unfold isNumeral, decimalDigits. rewrite uintUnits_digits, andb_true_r.
  destruct n as [|p]; [reflexivity|]. simpl N.to_uint.
  pose proof (DecimalPos.Unsigned.to_uint_nonnil p) as H.
  destruct (Pos.to_uint p); [congruence | reflexivity ..].
Qed.

(** Below 10^21 the text of a number is its decimal digits. *)
Lemma numberToString_decimal (n : N) :
  n < 10 ^ 21 -> numberToString n = decimalDigits n.
Proof.
  intros H. unfold numberToString.
  assert (Hi : 10 ^ 21 < Infinity) by reflexivity.
  destruct (N.leb_spec Infinity n); [lia|].
  destruct (N.ltb_spec n (10 ^ 21)); [reflexivity | lia].
Qed.

Lemma numberToString_numeral (n : N) :
  n < 10 ^ 21 -> isNumeral (numberToString n) = true.
Proof.
  intros H. rewrite (numberToString_decimal n H). apply decimalDigits_numeral.
Qed.

Lemma noLT_app (a b : jsstring) :
  noLineTerminator (a ++ b) = noLineTerminator a && noLineTerminator b.
Proof. apply forallb_app. Qed.

Lemma numberToString_noLT (n : N) :
  noLineTerminator (numberToString n) = true.
Proof.
  unfold numberToString.
  destruct (Infinity <=? n); [reflexivity|].
  destruct (n <? 10 ^ 21); [apply digit_noLT, uintUnits_digits|].
  unfold exponentForm.
  destruct (shortestDigits _ n _ 1) as [m e].
  pose proof (uintUnits_digits (N.to_uint m)) as Hm.
  fold (decimalDigits m) in Hm.
  destruct (decimalDigits m) as [|d ds]; [reflexivity|].
  apply digit_noLT in Hm.
  change (d :: ds) with ([d] ++ ds) in Hm. rewrite noLT_app in Hm.
  apply andb_true_iff in Hm as [Hd Hds].
  change (d :: (match ds with [] => [] | _ :: _ => 46 :: ds end) ++
          lit "e+" ++ decimalDigits e)
    with ([d] ++ (match ds with [] => [] | _ :: _ => 46 :: ds end) ++
          lit "e+" ++ decimalDigits e).
  rewrite !noLT_app, Hd.
  replace (noLineTerminator (decimalDigits e)) with true
    by (symmetry; apply digit_noLT, uintUnits_digits).
  destruct ds as [|d' ds']; [reflexivity|].
  change (46 :: d' :: ds') with ([46] ++ d' :: ds').
  rewrite noLT_app, Hds. reflexivity.
Qed.

Lemma wellFormedPath_parts (name : jsstring) :
  wellFormedPath name = true ->
  name <> [] /\ noLineTerminator name = true.
Proof.
  unfold wellFormedPath. intros H. apply andb_true_iff in H as [H1 H2].
  split; [destruct name; [discriminate | congruence] | exact H2].
Qed.

Lemma syntheticLines_quiet (name fileContent : jsstring) :
  wellFormedPath name = true -> wellFormedContent fileContent = true ->
  quietLines false (syntheticLines name fileContent) /\
  Forall (fun l => noLF l = true) (syntheticLines name fileContent).
Proof.
  intros Hp Hc. apply wellFormedPath_parts in Hp as [_ Hn].
  assert (H1 : noLineTerminator (lit "a/" ++ name ++ lit " b/" ++ name) = true)
    by (rewrite !noLT_app, Hn; reflexivity).
  assert (H5 : noLineTerminator (lit "+++ b/" ++ name) = true)
    by (rewrite noLT_app, Hn; reflexivity).
  assert (H6 : noLineTerminator
                 (lit "@@ -0,0 +1," ++
                  numberToString
                    (N.of_nat (List.length (split LF fileContent))) ++
                  lit " @@") = true)
    by (rewrite !noLT_app, numberToString_noLT; reflexivity).
  assert (Hplus : Forall (fun l => noLF l = true /\ quietFrom true l = true)
                    (map (fun l => lit "+" ++ l) (split LF fileContent))).
  { apply Forall_map. unfold wellFormedContent in Hc.
    pose proof (split_noLF fileContent) as Hs.
    rewrite Forall_forall in *. intros l Hl. split.
    - cbn. apply (Hs l Hl).
    - cbn. eapply forallb_forall in Hc; [exact Hc | exact Hl]. }
  assert (Hrest : Forall (fun l => noLF l = true /\ quietFrom true l = true)
            ([ lit "new file mode 100644";
               lit "index 0000000.." ++ generateDummyHash;
               lit "--- /dev/null";
               lit "+++ b/" ++ name;
               lit "@@ -0,0 +1," ++
                 numberToString
                   (N.of_nat (List.length (split LF fileContent))) ++
                 lit " @@" ] ++
             map (fun l => lit "+" ++ l) (split LF fileContent))).
  { apply Forall_app. split; [|exact Hplus].
    repeat constructor; try reflexivity.
    - apply (noLT_quiet_true 43 _ eq_refl H5).
    - apply (noLT_quiet_true 43 _ eq_refl H5).
    - apply (noLT_quiet_true 64 _ eq_refl H6).
    - apply (noLT_quiet_true 64 _ eq_refl H6). }
  split.
  - split; [split; [apply noLT_noLF, H1 | apply noLT_quiet, H1]|exact Hrest].
  - constructor; [apply noLT_noLF, H1|].
    eapply Forall_impl; [|exact Hrest]. intros l [H _]; exact H.
Qed.

Lemma decimalValue_units_acc (u : Decimal.uint) : forall acc : positive,
  fold_left (fun a d => a * 10 + (d - 48)) (uintUnits u) (Npos acc) =
  Npos (Pos.of_uint_acc u acc).
Proof.
  induction u; intros acc; cbn [uintUnits fold_left Pos.of_uint_acc];
    try reflexivity;
    match goal with
    | |- fold_left _ _ ?x = Npos (Pos.of_uint_acc _ ?y) =>
        replace x with (Npos y) by lia
    end; auto.
Qed.

Lemma decimalValue_units (u : Decimal.uint) :
  decimalValue (uintUnits u) = N.of_uint u.
Proof.
  unfold decimalValue, N.of_uint.
  induction u; cbn [uintUnits fold_left Pos.of_uint];
    try reflexivity; try exact IHu;
    match goal with
    | |- fold_left _ _ ?x = Npos (Pos.of_uint_acc _ ?y) =>
        change x with (Npos y)
    end; apply decimalValue_units_acc.
Qed.

Lemma decimalValue_decimalDigits (n : N) : decimalValue (decimalDigits n) = n.
Proof.
  unfold decimalDigits. rewrite decimalValue_units.
  apply DecimalN.Unsigned.of_to.
Qed.

(** Reading back the text of a number up to 2^53 gives the number. *)
Lemma parseInt_numberToString (n : N) :
  n <= 2 ^ 53 -> parseInt (numberToString n) = n.
Proof.
  intros H. assert (Hs : 2 ^ 53 < 10 ^ 21) by reflexivity.
  rewrite numberToString_decimal by lia.
  unfold parseInt. rewrite decimalValue_decimalDigits.
  apply toNumber_exact, H.
Qed.



(** The loop of [parseChunks] over lines that are no headers, below an
    open chunk. *)
Lemma fold_content (body : list jsstring) : forall st c,
  currentChunk st = Some c ->
  Forall (fun l => matchHunkHeader l = None) body ->
  fold_left chunkStep body st =
  mkChunkState (doneChunks st)
    (Some (mkDiffChunk (oldStart c) (oldLines c) (newStart c) (newLines c)
             (lines c ++
              numberLines (oldCounter st) (newCounter st) body)))
    (fst (countersAfter (oldCounter st) (newCounter st) body))
    (snd (countersAfter (oldCounter st) (newCounter st) body)).
Proof.
  induction body as [|l body IH]; intros st c Hc Hb.
  - destruct st as [dn cur o n], c as [os ol ns nl ls]. cbn in *.
    rewrite app_nil_r. congruence.
  - inversion Hb as [|? ? Hl Hbody]; subst.
    cbn [fold_left]. rewrite (chunkStep_content _ _ Hl).
    unfold contentStep. rewrite Hc.
    destruct (countersAfter (oldCounter st) (newCounter st) [l])
      as [o n] eqn:E.
    erewrite IH; [|reflexivity|exact Hbody].
    cbn [doneChunks oldStart oldLines newStart newLines lines
         oldCounter newCounter].
    change (l :: body) with ([l] ++ body).
    rewrite numberLines_app, countersAfter_app, E, <- app_assoc.
    reflexivity.
Qed.

(** The loop of [parseChunks] over lines that are no headers, before any
    chunk is open. *)
Lemma fold_outside (pre : list jsstring) : forall st,
  currentChunk st = None ->
  Forall (fun l => matchHunkHeader l = None) pre ->
  fold_left chunkStep pre st = st.
Proof.
  induction pre as [|l pre IH]; intros st Hc Hp; [reflexivity|].
  inversion Hp as [|? ? Hl Hpre]; subst.
  cbn [fold_left]. rewrite (chunkStep_outside _ _ Hc Hl). apply IH; assumption.
Qed.



(** The loop of [parseChunks] over the lines of a synthetic block: the
    five lines above the hunk header leave the state as it is. *)
Lemma fold_synthetic (name fileContent : jsstring) :
  let ls := split LF fileContent in
  let hdr := lit "@@ -0,0 +1," ++
             numberToString (N.of_nat (List.length ls)) ++ lit " @@" in
  fold_left chunkStep (syntheticLines name fileContent ++ [[]])
            initChunkState =
  fold_left chunkStep (map (fun l => lit "+" ++ l) ls ++ [[]])
            (chunkStep initChunkState hdr).
Proof.
  intros ls hdr. unfold syntheticLines. fold ls. fold hdr.
  change (fold_left chunkStep
            (([lit "a/" ++ name ++ lit " b/" ++ name;
               lit "new file mode 100644";
               lit "index 0000000.." ++ generateDummyHash;
               lit "--- /dev/null"; lit "+++ b/" ++ name; hdr] ++
              map (fun l => lit "+" ++ l) ls) ++ [[]]) initChunkState)
    with (fold_left chunkStep
            ([lit "a/" ++ name ++ lit " b/" ++ name;
              lit "new file mode 100644";
              lit "index 0000000.." ++ generateDummyHash;
              lit "--- /dev/null"; lit "+++ b/" ++ name] ++
             hdr :: (map (fun l => lit "+" ++ l) ls ++ [[]]))
            initChunkState).
  rewrite fold_left_app.
  match goal with
  | |- context [fold_left chunkStep ?pre initChunkState] =>
      replace (fold_left chunkStep pre initChunkState) with initChunkState
        by (symmetry; apply fold_outside;
            [reflexivity | repeat constructor])
  end.
  reflexivity.
Qed.

Lemma plus_lines_no_header (ls : list jsstring) :
  Forall (fun l => matchHunkHeader l = None)
         (map (fun l => lit "+" ++ l) ls ++ [[]]).
Proof.
  apply Forall_app. split; [|repeat constructor].
  apply Forall_map, Forall_forall. intros l _. reflexivity.
Qed.


(** What [parseChunks] reads in the lines of a synthetic block of a file
    of at most 2^53 lines: one chunk [-0,0 +1,k] with one added line per
    line of the file. *)
Lemma parseChunks_synthetic (name fileContent : jsstring) :
  let ls := split LF fileContent in
  N.of_nat (List.length ls) <= 2 ^ 53 ->
  parseChunks (syntheticLines name fileContent ++ [[]]) =
  [mkDiffChunk 0 0 1 (N.of_nat (List.length ls))
     (numberLines 0 1 (map (fun l => lit "+" ++ l) ls ++ [[]]))].
Proof.
  intros ls Hk. unfold parseChunks. rewrite fold_synthetic. cbv zeta.
  fold ls. set (k := N.of_nat (List.length ls)) in *.
  assert (Hs : 2 ^ 53 < 10 ^ 21) by reflexivity.
  assert (Hn : isNumeral (numberToString k) = true)
    by (apply numberToString_numeral; lia).
  set (hdr := lit "@@ -0,0 +1," ++ numberToString k ++ lit " @@").
  assert (Hh : matchHunkHeader hdr =
               Some (lit "0", Some (lit "0"), lit "1",
                     Some (numberToString k))).
  { apply (matchHunkHeader_text (lit "0") (Some (lit "0")) (lit "1")
             (Some (numberToString k)) []); try reflexivity.
    exact Hn. }
  rewrite (chunkStep_header _ _ _ _ _ _ Hh).
  erewrite fold_content; [|reflexivity|apply plus_lines_no_header].
  unfold pushCurrent.
  cbn [currentChunk doneChunks oldStart oldLines newStart newLines lines
       oldCounter newCounter initChunkState app].
  rewrite !orOne_declared by (first [reflexivity | exact Hn]).
  cbn [declaredCount]. rewrite (parseInt_numberToString k Hk). reflexivity.
Qed.










(* ================================================================= *)
(** ** [parseChunks]: what becomes of the lines of a block *)

Lemma isHunkHeader_fields (l : jsstring) :
  isHunkHeader l = true <-> exists x, headerFields l = Some x.
Proof.
  unfold isHunkHeader, headerFields.
  destruct (matchHunkHeader l) as [[[[m1 m2] m3] m4]|]; split;
    try discriminate; eauto.
  intros [x H]; discriminate.
Qed.

Lemma pushCurrent_header (st : ChunkState) (c : DiffChunk) (o n : N) :
  pushCurrent (mkChunkState (pushCurrent st) (Some c) o n) =
  pushCurrent st ++ [c].
Proof. reflexivity. Qed.

Lemma pushCurrent_content (st : ChunkState) (l : jsstring) (c : DiffChunk) :
  currentChunk st = Some c ->
  pushCurrent (contentStep st l) =
  doneChunks st ++
  [mkDiffChunk (oldStart c) (oldLines c) (newStart c) (newLines c)
     (lines c ++ numberLines (oldCounter st) (newCounter st) [l])].
Proof.
  intros H. unfold contentStep. rewrite H.
  destruct (countersAfter (oldCounter st) (newCounter st) [l]). reflexivity.
Qed.

Lemma contentStep_closed (st : ChunkState) (l : jsstring) :
  currentChunk st = None -> contentStep st l = st.
Proof. intros H. unfold contentStep. rewrite H. reflexivity. Qed.

Lemma contentStep_open (st : ChunkState) (l : jsstring) (c : DiffChunk) :
  currentChunk st = Some c ->
  exists c', currentChunk (contentStep st l) = Some c' /\
             chunkFields c' = chunkFields c.
Proof.
  intros H. unfold contentStep. rewrite H.
  destruct (countersAfter (oldCounter st) (newCounter st) [l]).
  eexists; split; reflexivity.
Qed.

Lemma fields_step (st : ChunkState) (l : jsstring) :
  map chunkFields (pushCurrent (chunkStep st l)) =
  map chunkFields (pushCurrent st) ++
  match headerFields l with Some x => [x] | None => [] end.
Proof.
  unfold headerFields.
  destruct (matchHunkHeader l) as [[[[m1 m2] m3] m4]|] eqn:Hm.
  - rewrite (chunkStep_header _ _ _ _ _ _ Hm), pushCurrent_header, map_app.
    reflexivity.
  - rewrite (chunkStep_content _ _ Hm), app_nil_r.
    destruct (currentChunk st) as [c|] eqn:Hc.
    + rewrite (pushCurrent_content _ _ _ Hc). unfold pushCurrent.
      rewrite Hc, !map_app. reflexivity.
    + rewrite (contentStep_closed _ _ Hc). reflexivity.
Qed.

Lemma fields_fold (ls : list jsstring) : forall st,
  map chunkFields (pushCurrent (fold_left chunkStep ls st)) =
  map chunkFields (pushCurrent st) ++ declaredFields ls.
Proof.
  induction ls as [|l ls IH]; intros st; cbn [fold_left].
  - unfold declaredFields. cbn. rewrite app_nil_r. reflexivity.
  - rewrite IH, fields_step, <- app_assoc. reflexivity.
Qed.

Lemma parseChunks_fields (ls : list jsstring) :
  map chunkFields (parseChunks ls) = declaredFields ls.
Proof. unfold parseChunks. rewrite fields_fold. reflexivity. Qed.

Lemma declaredFields_length (ls : list jsstring) :
  List.length (declaredFields ls) = List.length (filter isHunkHeader ls).
Proof.
  unfold declaredFields, isHunkHeader, headerFields.
  induction ls as [|l ls IH]; [reflexivity|]. cbn [flat_map filter].
  destruct (matchHunkHeader l) as [[[[m1 m2] m3] m4]|];
    cbn [app List.length]; [f_equal|]; exact IH.
Qed.

Lemma parseChunks_length (ls : list jsstring) :
  List.length (parseChunks ls) = List.length (filter isHunkHeader ls).
Proof.
  rewrite <- declaredFields_length, <- parseChunks_fields.
  symmetry. apply length_map.
Qed.

Lemma declaredFields_numbers (ls : list jsstring) :
  declaredFields ls = map numberFields (declaredNumbers ls).
Proof.
  unfold declaredFields, declaredNumbers, headerFields, headerNumbers.
  induction ls as [|l ls IH]; [reflexivity|]. cbn [flat_map].
  rewrite map_app, <- IH.
  destruct (matchHunkHeader l) as [[[[m1 m2] m3] m4]|]; reflexivity.
Qed.

Lemma numberFields_exact (x : N * N * N * N) :
  exactFields x = true -> numberFields x = x.
Proof.
  destruct x as [[[a b] c] d]. unfold exactFields, numberFields.
  rewrite !andb_true_iff, !N.leb_le. intros [[[Ha Hb] Hc] Hd].
  rewrite !toNumber_exact by assumption. reflexivity.
Qed.

(** X1.  [parseChunks] returns one chunk for each line of the block that
    is a hunk header, in order, and the four numbers of the chunk are the
    Number values of those the header declares (a count that is left out
    being 1): the declared numbers themselves when these are at most 2^53,
    the nearest doubles otherwise.  There is no chunk exactly when the
    block has no hunk header. *)
Theorem chunk_per_header (ls : list jsstring) :
  map chunkFields (parseChunks ls) = map numberFields (declaredNumbers ls) /\
  List.length (parseChunks ls) = List.length (filter isHunkHeader ls) /\
  (parseChunks ls = [] <-> filter isHunkHeader ls = []) /\
  (forallb exactFields (declaredNumbers ls) = true ->
   map chunkFields (parseChunks ls) = declaredNumbers ls).
Proof.
  assert (F : map chunkFields (parseChunks ls) =
              map numberFields (declaredNumbers ls))
    by (rewrite parseChunks_fields; apply declaredFields_numbers).
  split; [exact F|]. split; [apply parseChunks_length|]. split.
  - rewrite <- !length_zero_iff_nil, parseChunks_length. reflexivity.
  - intros H. rewrite F. rewrite <- (map_id (declaredNumbers ls)) at 2.
    apply map_ext_in. intros x Hx. apply numberFields_exact.
    eapply forallb_forall in H; [exact H | exact Hx].
Qed.

Lemma chunk_per_header_witness :
  let ls := [lit "--- a/f"; lit "@@ -5 +7,2 @@ fn"; lit " a"; lit "+b";
             lit "@@ nothing"; lit "@@ -30,0 +33 @@"; lit "+c"] in
  map chunkFields (parseChunks ls) = [(5, 1, 7, 2); (30, 0, 33, 1)].
Proof.
  intros ls.
  exact (proj2 (proj2 (proj2 (chunk_per_header ls))) eq_refl).
Defined.

Lemma numberLines_one (o n : N) (l : jsstring) :
  map typeAndContent (numberLines o n [l]) =
  if isContentLine l then [readLine l] else [].
Proof.
  cbn [numberLines]. destruct (isContentLine l); [|reflexivity].
  unfold readLine. destruct (lineTypeOf l); reflexivity.
Qed.

Lemma numberLines_read (body : list jsstring) : forall o n,
  map typeAndContent (numberLines o n body) =
  map readLine (filter isContentLine body).
Proof.
  induction body as [|l body IH]; intros o n; [reflexivity|].
  cbn [numberLines filter]. destruct (isContentLine l); [|apply IH].
  destruct (lineTypeOf l) eqn:E; cbn [map]; rewrite IH; f_equal;
    unfold readLine; rewrite E; reflexivity.
Qed.

Lemma emitted_header (st : ChunkState) (c : DiffChunk) (o n : N) :
  lines c = [] ->
  emitted (mkChunkState (pushCurrent st) (Some c) o n) = emitted st.
Proof.
  intros H. unfold emitted. rewrite pushCurrent_header, flat_map_app.
  cbn [flat_map]. rewrite H. cbn. rewrite app_nil_r. reflexivity.
Qed.

Lemma emitted_content (st : ChunkState) (l : jsstring) (c : DiffChunk) :
  currentChunk st = Some c ->
  emitted (contentStep st l) =
  emitted st ++ numberLines (oldCounter st) (newCounter st) [l].
Proof.
  intros H. unfold emitted. rewrite (pushCurrent_content _ _ _ H).
  unfold pushCurrent. rewrite H, !flat_map_app. cbn [flat_map lines].
  rewrite !app_nil_r, app_assoc. reflexivity.
Qed.

(** Once a chunk is open, every content line is kept. *)
Lemma emitted_fold_open (ls : list jsstring) : forall st c,
  currentChunk st = Some c ->
  map typeAndContent (emitted (fold_left chunkStep ls st)) =
  map typeAndContent (emitted st) ++ map readLine (filter isContentLine ls).
Proof.
  induction ls as [|l ls IH]; intros st c Hc; cbn [fold_left filter].
  - cbn. rewrite app_nil_r. reflexivity.
  - destruct (matchHunkHeader l) as [[[[m1 m2] m3] m4]|] eqn:Hm.
    + rewrite (chunkStep_header _ _ _ _ _ _ Hm).
      rewrite (at_not_content _ (matchHunkHeader_startsWith _ _ Hm)).
      erewrite IH by reflexivity. rewrite emitted_header; reflexivity.
    + rewrite (chunkStep_content _ _ Hm).
      destruct (contentStep_open st l c Hc) as (c' & Hc' & _).
      erewrite IH by exact Hc'.
      rewrite (emitted_content _ _ _ Hc), map_app, numberLines_one,
        <- app_assoc.
      destruct (isContentLine l); reflexivity.
Qed.

Lemma emitted_fold_closed (ls : list jsstring) : forall st,
  currentChunk st = None ->
  map typeAndContent (emitted (fold_left chunkStep ls st)) =
  map typeAndContent (emitted st) ++
  map readLine (filter isContentLine (afterFirstHeader ls)).
Proof.
  induction ls as [|l ls IH]; intros st Hc; cbn [fold_left afterFirstHeader].
  - cbn. rewrite app_nil_r. reflexivity.
  - unfold isHunkHeader.
    destruct (matchHunkHeader l) as [[[[m1 m2] m3] m4]|] eqn:Hm.
    + rewrite (chunkStep_header _ _ _ _ _ _ Hm).
      erewrite emitted_fold_open by reflexivity.
      rewrite emitted_header; reflexivity.
    + rewrite (chunkStep_outside _ _ Hc Hm). apply IH, Hc.
Qed.

Lemma parseChunks_read (ls : list jsstring) :
  map typeAndContent (flat_map lines (parseChunks ls)) =
  map readLine (filter isContentLine (afterFirstHeader ls)).
Proof.
  unfold parseChunks.
  exact (emitted_fold_closed ls initChunkState eq_refl).
Qed.

(** X2.  The parsed lines of a block, over all its chunks, are the lines
    below the block's first hunk header that start with a space, [+] or
    [-], in order and without loss: each with the type its first unit
    gives and with that one unit removed.  Lines above the first header
    (such as [--- a/f] and [+++ b/f]) give no parsed line. *)
Theorem content_lines_kept (ls : list jsstring) :
  map typeAndContent (flat_map lines (parseChunks ls)) =
  map readLine (filter isContentLine (afterFirstHeader ls)).
Proof. apply parseChunks_read. Qed.

Lemma countLines_fold (ty : LineType.t) (ds : list DiffLine) : forall n,
  fold_left (fun n line => if LineType.eqb (type line) ty then n + 1 else n)
            ds n =
  n + N.of_nat (List.length
                  (filter (fun d => LineType.eqb (type d) ty) ds)).
Proof.
  induction ds as [|d ds IH]; intros n; cbn [fold_left filter].
  - cbn. lia.
  - rewrite IH. destruct (LineType.eqb (type d) ty); cbn [List.length]; lia.
Qed.

Lemma countLines_filter (ty : LineType.t) (cs : list DiffChunk) :
  countLines ty cs =
  N.of_nat (List.length
              (filter (fun d => LineType.eqb (type d) ty)
                      (flat_map lines cs))).
Proof.
  unfold countLines.
  assert (G : forall n,
    fold_left (fun n chunk =>
       fold_left (fun n line => if LineType.eqb (type line) ty
                                then n + 1 else n) (lines chunk) n) cs n =
    n + N.of_nat (List.length
                    (filter (fun d => LineType.eqb (type d) ty)
                            (flat_map lines cs)))).
  { induction cs as [|c cs IH]; intros n; cbn [fold_left flat_map].
    - cbn. lia.
    - rewrite IH, countLines_fold, filter_app, length_app. lia. }
  rewrite G. lia.
Qed.

Lemma filter_type_read (ty : LineType.t) (ds : list DiffLine)
    (ls : list jsstring) :
  map typeAndContent ds = map readLine ls ->
  List.length (filter (fun d => LineType.eqb (type d) ty) ds) =
  List.length (filter (fun l => LineType.eqb (lineTypeOf l) ty) ls).
Proof.
  revert ls; induction ds as [|d ds IH]; intros [|l ls] H;
    try discriminate; [reflexivity|].
  cbn [map] in H. injection H as H1 _ H2. cbn [filter].
  unfold typeAndContent, readLine in *. rewrite <- H1.
  destruct (LineType.eqb (type d) ty); cbn [List.length]; rewrite (IH ls H2);
    reflexivity.
Qed.

Lemma filter_filter {A} (p q : A -> bool) (l : list A) :
  (forall x, p x = true -> q x = true) ->
  filter p (filter q l) = filter p l.
Proof.
  intros H. induction l as [|x l IH]; [reflexivity|]. cbn [filter].
  destruct (q x) eqn:Eq; cbn [filter].
  - destruct (p x); [f_equal|]; exact IH.
  - destruct (p x) eqn:Ep; [rewrite (H x Ep) in Eq; discriminate | exact IH].
Qed.

Lemma added_content_line (l : jsstring) :
  (isContentLine l && LineType.eqb (lineTypeOf l) LineType.added) =
  startsWith l (lit "+").
Proof.
  unfold isContentLine, lineTypeOf.
  destruct (startsWith l (lit "+")) eqn:E.
  - rewrite orb_true_r. reflexivity.
  - destruct (startsWith l (lit "-")); cbn; rewrite ?andb_false_r; reflexivity.
Qed.

Lemma deleted_content_line (l : jsstring) :
  (isContentLine l && LineType.eqb (lineTypeOf l) LineType.deleted) =
  startsWith l (lit "-").
Proof.
  unfold isContentLine, lineTypeOf.
  change (lit "+") with [43]; change (lit "-") with [45];
    change (lit " ") with [32].
  destruct (startsWith l [45]) eqn:E.
  - rewrite (startsWith_unit l 45 43) by (auto; discriminate).
    rewrite orb_true_r. reflexivity.
  - destruct (startsWith l [43]); cbn; rewrite ?andb_false_r; reflexivity.
Qed.

Lemma filter_andb {A} (p q : A -> bool) (l : list A) :
  filter q (filter p l) = filter (fun x => p x && q x) l.
Proof.
  induction l as [|x l IH]; [reflexivity|]. cbn [filter].
  destruct (p x); cbn [filter andb]; [destruct (q x); [f_equal|]|]; exact IH.
Qed.

(** X3.  In the [DiffFile] of a block without the binary marker,
    [additions] is the number of lines below the block's first hunk
    header that start with [+], and [deletions] the number of those that
    start with [-]; with the marker both are 0. *)
Theorem additions_deletions (lower : jsstring -> jsstring)
    (ls : list jsstring) (f : DiffFile) :
  parseFileBlock lower ls = Some f ->
  if hasBinaryMarker ls then additions f = 0 /\ deletions f = 0
  else
    additions f =
    N.of_nat (List.length
      (filter (fun l => startsWith l (lit "+")) (afterFirstHeader ls))) /\
    deletions f =
    N.of_nat (List.length
      (filter (fun l => startsWith l (lit "-")) (afterFirstHeader ls))).
Proof.
  intros Hf. apply parseFileBlock_Some in Hf
    as (firstLine & rest & o & n & _ & _ & ->).
  unfold fileOf. destruct (hasBinaryMarker ls); cbn [additions deletions];
    [split; reflexivity|].
  rewrite !countLines_filter.
  rewrite !(filter_type_read _ _ _ (parseChunks_read ls)), !filter_andb.
  split; f_equal; f_equal; apply filter_ext; intros l.
  - apply added_content_line.
  - apply deleted_content_line.
Qed.

Lemma additions_deletions_witness :
  let f := mkDiffFile (lit "f") None Status.modified 2 1
             [mkDiffChunk 1 2 1 3
                [mkDiffLine LineType.context (lit "a") (Some 1) (Some 1);
                 mkDiffLine LineType.deleted (lit "b") (Some 2) None;
                 mkDiffLine LineType.added (lit "c") None (Some 2);
                 mkDiffLine LineType.added (lit "++d") None (Some 3)]]
             None None in
  additions f = 2 /\ deletions f = 1.
Proof.
  intros f.
  exact (additions_deletions (fun s => s)
           [lit "a/f b/f"; lit "--- a/f"; lit "+++ b/f"; lit "@@ -1,2 +1,3 @@";
            lit " a"; lit "-b"; lit "+c"; lit "+++d"] f eq_refl).
Defined.

Lemma countFrom_S (start : N) (k : nat) :
  countFrom start (S k) = start :: countFrom (start + 1) k.
Proof.
  unfold countFrom. cbn [seq map]. f_equal; [lia|].
  rewrite <- seq_shift, map_map. apply map_ext. intros i. lia.
Qed.

Lemma countFrom_succ (start k : N) :
  countFrom start (N.to_nat (1 + k)) =
  start :: countFrom (start + 1) (N.to_nat k).
Proof.
  replace (N.to_nat (1 + k)) with (S (N.to_nat k)) by lia.
  apply countFrom_S.
Qed.

Lemma presentOld_exact (ls : list DiffLine) : forall o n,
  lockstepWith increment o n ls ->
  o + countOld ls <= 2 ^ 53 ->
  presentOld ls = countFrom o (N.to_nat (countOld ls)).
Proof.
  induction ls as [|l ls IH]; intros o n H Ho; [reflexivity|].
  destruct H as (E & _ & H). rewrite countOld_cons in *.
  unfold presentOld in *. cbn [flat_map]. rewrite E.
  destruct (LineType.eqb (type l) LineType.added).
  - cbn [app]. rewrite N.add_0_l in *. exact (IH _ _ H Ho).
  - rewrite countFrom_succ. cbn [app]. f_equal.
    rewrite (increment_exact o) in H by lia. apply (IH _ _ H). lia.
Qed.

Lemma presentNew_exact (ls : list DiffLine) : forall o n,
  lockstepWith increment o n ls ->
  n + countNew ls <= 2 ^ 53 ->
  presentNew ls = countFrom n (N.to_nat (countNew ls)).
Proof.
  induction ls as [|l ls IH]; intros o n H Hn; [reflexivity|].
  destruct H as (_ & E & H). rewrite countNew_cons in *.
  unfold presentNew in *. cbn [flat_map]. rewrite E.
  destruct (LineType.eqb (type l) LineType.deleted).
  - cbn [app]. rewrite N.add_0_l in *. exact (IH _ _ H Hn).
  - rewrite countFrom_succ. cbn [app]. f_equal.
    rewrite (increment_exact n) in H by lia. apply (IH _ _ H). lia.
Qed.

(** X4.  In every chunk whose old line numbers stay within 2^53
    ([oldStart] plus the number of context and deleted lines), the old
    line numbers that its lines carry are consecutive from [oldStart], one
    for each context or deleted line: no number is skipped or repeated.
    The same holds on the new side, from [newStart], for the context and
    added lines. *)
Theorem line_numbers_consecutive (ls : list jsstring) (c : DiffChunk) :
  In c (parseChunks ls) ->
  (oldStart c + countOld (lines c) <= 2 ^ 53 ->
   presentOld (lines c) =
     countFrom (oldStart c) (N.to_nat (countOld (lines c)))) /\
  (newStart c + countNew (lines c) <= 2 ^ 53 ->
   presentNew (lines c) =
     countFrom (newStart c) (N.to_nat (countNew (lines c)))).
Proof.
  intros Hin. destruct (parseChunks_segments _ _ Hin)
    as (last & pre & h & body & post & _ & Hc & _).
  destruct (chunkOf_fields _ _ _ Hc)
    as (m1 & m2 & m3 & m4 & _ & _ & _ & _ & _ & E).
  assert (L : lockstepWith increment (oldStart c) (newStart c) (lines c))
    by (rewrite E; apply numberLines_lockstep).
  split; intros H.
  - exact (presentOld_exact _ _ _ L H).
  - exact (presentNew_exact _ _ _ L H).
Qed.

Lemma line_numbers_consecutive_witness :
  let c := mkDiffChunk 10 3 20 3
             [ mkDiffLine LineType.context (lit "a") (Some 10) (Some 20);
               mkDiffLine LineType.deleted (lit "b") (Some 11) None;
               mkDiffLine LineType.added (lit "c") None (Some 21);
               mkDiffLine LineType.context (lit "d") (Some 12) (Some 22) ] in
  presentOld (lines c) = [10; 11; 12] /\ presentNew (lines c) = [20; 21; 22].
Proof.
  intros c.
  assert (H : In c (parseChunks
                      [lit "@@ -10,3 +20,3 @@ fn"; lit " a"; lit "-b";
                       lit "+c"; lit " d"]))
    by (vm_compute; left; reflexivity).
  split.
  - refine (proj1 (line_numbers_consecutive _ c H) _).
    apply N.leb_le. reflexivity.
  - refine (proj2 (line_numbers_consecutive _ c H) _).
    apply N.leb_le. reflexivity.
Defined.

Lemma pushCurrent_withDone (d : list DiffChunk) (st : ChunkState) :
  pushCurrent (withDone d st) = d ++ pushCurrent st.
Proof.
  unfold pushCurrent, withDone. cbn [currentChunk doneChunks].
  destruct (currentChunk st); [rewrite app_assoc|]; reflexivity.
Qed.

Lemma chunkStep_withDone (d : list DiffChunk) (st : ChunkState)
    (l : jsstring) :
  chunkStep (withDone d st) l = withDone d (chunkStep st l).
Proof.
  destruct (matchHunkHeader l) as [[[[m1 m2] m3] m4]|] eqn:Hm.
  - rewrite !(chunkStep_header _ _ _ _ _ _ Hm), pushCurrent_withDone.
    reflexivity.
  - rewrite !(chunkStep_content _ _ Hm). unfold contentStep, withDone.
    cbn [currentChunk doneChunks oldCounter newCounter].
    destruct (currentChunk st) eqn:Hc; cbn [currentChunk];
      [|rewrite Hc; reflexivity].
    destruct (countersAfter (oldCounter st) (newCounter st) [l]).
    reflexivity.
Qed.

Lemma fold_withDone (ls : list jsstring) : forall d st,
  fold_left chunkStep ls (withDone d st) =
  withDone d (fold_left chunkStep ls st).
Proof.
  induction ls as [|l ls IH]; intros d st; [reflexivity|].
  cbn [fold_left]. rewrite chunkStep_withDone. apply IH.
Qed.

(** X5.  A hunk header starts afresh: the chunks of a block are the
    chunks of the lines above the header followed by the chunks of the
    lines from the header on, so nothing that stands above a header (open
    chunk, counters) reaches the chunks below it. *)
Theorem chunks_split_at_header (ls1 : list jsstring) (h : jsstring)
    (ls2 : list jsstring) :
  isHunkHeader h = true ->
  parseChunks (ls1 ++ h :: ls2) = parseChunks ls1 ++ parseChunks (h :: ls2).
Proof.
  unfold isHunkHeader.
  destruct (matchHunkHeader h) as [[[[m1 m2] m3] m4]|] eqn:Hm;
    [intros _ | discriminate].
  unfold parseChunks. rewrite fold_left_app. cbn [fold_left].
  rewrite !(chunkStep_header _ _ _ _ _ _ Hm).
  set (st1 := fold_left chunkStep ls1 initChunkState).
  set (c0 := mkDiffChunk (parseInt m1) (parseInt (orOne m2))
               (parseInt m3) (parseInt (orOne m4)) []).
  assert (E : mkChunkState (pushCurrent st1) (Some c0)
                (parseInt m1) (parseInt m3) =
              withDone (pushCurrent st1)
                (mkChunkState (pushCurrent initChunkState) (Some c0)
                   (parseInt m1) (parseInt m3))).
  { unfold withDone. cbn. rewrite app_nil_r. reflexivity. }
  rewrite E, fold_withDone, pushCurrent_withDone. reflexivity.
Qed.

Lemma chunks_split_at_header_witness :
  parseChunks ([lit "@@ -1 +1 @@"; lit "-a"; lit "+b"] ++
               lit "@@ -9,0 +9 @@" :: [lit "+c"]) =
  parseChunks [lit "@@ -1 +1 @@"; lit "-a"; lit "+b"] ++
  parseChunks [lit "@@ -9,0 +9 @@"; lit "+c"].
Proof.
  exact (chunks_split_at_header [lit "@@ -1 +1 @@"; lit "-a"; lit "+b"]
           (lit "@@ -9,0 +9 @@") [lit "+c"] eq_refl).
Defined.

(* ================================================================= *)
(** ** The two header patterns, read both ways *)

Lemma span_digits_sound (s : jsstring) : forall ds r,
  span_digits s = (ds, r) -> s = ds ++ r /\ forallb isDigit ds = true.
Proof.
  induction s as [|c s IH]; intros ds r H; cbn [span_digits] in H.
  - injection H as <- <-. split; reflexivity.
  - destruct (isDigit c) eqn:E.
    + destruct (span_digits s) as [ds' r'] eqn:Es. injection H as <- <-.
      destruct (IH _ _ eq_refl) as [-> Hd]. split; [reflexivity|].
      cbn [forallb]. rewrite E, Hd. reflexivity.
    + injection H as <- <-. split; reflexivity.
Qed.

Lemma span_digits_numeral (s ds r : jsstring) :
  span_digits s = (ds, r) -> ds <> [] -> isNumeral ds = true.
Proof.
  intros H Hne. destruct (span_digits_sound _ _ _ H) as [_ Hd].
  unfold isNumeral. rewrite Hd. destruct ds; [congruence | reflexivity].
Qed.

Lemma opt_count_sound (s : jsstring) (m : option jsstring) (r : jsstring) :
  opt_count s = (m, r) -> s = countText m ++ r /\ isNumeralOpt m = true.
Proof.
  unfold opt_count. destruct s as [|c s]; [intros H; injection H as <- <-; auto|].
  destruct (N.eqb_spec c 44) as [->|Hc];
    [|intros H; injection H as <- <-; auto].
  destruct (span_digits s) as [[|d ds] r'] eqn:Es;
    intros H; injection H as <- <-; [auto|].
  destruct (span_digits_sound _ _ _ Es) as [-> _]. split; [reflexivity|].
  apply (span_digits_numeral _ _ _ Es). discriminate.
Qed.

Lemma matchHunkHeader_sound (l a : jsstring) (oc : option jsstring)
    (b : jsstring) (nc : option jsstring) :
  matchHunkHeader l = Some (a, oc, b, nc) ->
  isNumeral a = true /\ isNumeralOpt oc = true /\
  isNumeral b = true /\ isNumeralOpt nc = true /\
  exists rest, l = hunkHeaderText a oc b nc rest.
Proof.
  unfold matchHunkHeader.
  destruct (strip_prefix (lit "@@ -") l) as [r0|] eqn:E0; [|discriminate].
  apply strip_prefix_Some in E0.
  destruct (span_digits r0) as [[|a0 a'] r1] eqn:E1; [discriminate|].
  destruct (opt_count r1) as [m2 r2] eqn:E2.
  destruct (strip_prefix (lit " +") r2) as [r3|] eqn:E3; [|discriminate].
  apply strip_prefix_Some in E3.
  destruct (span_digits r3) as [[|b0 b'] r4] eqn:E4; [discriminate|].
  destruct (opt_count r4) as [m4 r5] eqn:E5.
  destruct (strip_prefix (lit " @@") r5) as [r6|] eqn:E6; [|discriminate].
  apply strip_prefix_Some in E6.
  intros H; injection H as <- <- <- <-.
  pose proof (span_digits_numeral _ _ _ E1 ltac:(discriminate)) as Na.
  pose proof (span_digits_numeral _ _ _ E4 ltac:(discriminate)) as Nb.
  destruct (span_digits_sound _ _ _ E1) as [S1 _].
  destruct (span_digits_sound _ _ _ E4) as [S4 _].
  destruct (opt_count_sound _ _ _ E2) as [S2 N2].
  destruct (opt_count_sound _ _ _ E5) as [S5 N5].
  repeat split; auto. exists r6. unfold hunkHeaderText.
  rewrite E0, S1, S2, E3, S4, S5, E6. reflexivity.
Qed.

(** X6.  A line is read as a hunk header with the groups [a], [oc], [b],
    [nc] exactly when it is the text [@@ -a[,oc] +b[,nc] @@] followed by
    anything, where [a] and [b] are non-empty strings of decimal digits
    and each count, when present, is one too. *)
Theorem hunk_header_shape (l a : jsstring) (oc : option jsstring)
    (b : jsstring) (nc : option jsstring) :
  matchHunkHeader l = Some (a, oc, b, nc) <->
  isNumeral a = true /\ isNumeralOpt oc = true /\
  isNumeral b = true /\ isNumeralOpt nc = true /\
  exists rest, l = hunkHeaderText a oc b nc rest.
Proof.
  split; [apply matchHunkHeader_sound|].
  intros (Ha & Hoc & Hb & Hnc & rest & ->).
  apply matchHunkHeader_text; assumption.
Qed.

Lemma hunk_header_shape_witness :
  exists rest,
    lit "@@ -12,3 +40 @@ int main()" =
    hunkHeaderText (lit "12") (Some (lit "3")) (lit "40") None rest.
Proof.
  exact (proj2 (proj2 (proj2 (proj2
           (proj1 (hunk_header_shape (lit "@@ -12,3 +40 @@ int main()")
                     (lit "12") (Some (lit "3")) (lit "40") None)
                  eq_refl))))).
Defined.

Lemma greedyPair_sound (s : jsstring) : forall x y,
  greedyPair s = Some (x, y) ->
  s = x ++ lit " b/" ++ y /\ x <> [] /\ y <> [].
Proof.
  induction s as [|c s IH]; intros x y H; cbn [greedyPair] in H;
    [discriminate|].
  destruct (greedyPair s) as [[x0 y0]|] eqn:E.
  - injection H as <- <-. destruct (IH _ _ eq_refl) as (-> & _ & Hy).
    repeat split; [discriminate | exact Hy].
  - destruct (strip_prefix (lit " b/") s) as [[|d y']|] eqn:Es;
      try discriminate.
    injection H as <- <-. apply strip_prefix_Some in Es. subst s.
    repeat split; discriminate.
Qed.

Lemma includes_app (x p y : jsstring) : includes (x ++ p ++ y) p = true.
Proof.
  induction x as [|c x IH].
  - cbn [app]. destruct (p ++ y) eqn:E; cbn [includes];
      rewrite <- E, startsWith_app; reflexivity.
  - cbn [app includes]. rewrite IH. apply orb_true_r.
Qed.

Lemma greedyPair_none (s : jsstring) :
  includes s (lit " b/") = false -> greedyPair s = None.
Proof.
  intros H. destruct (greedyPair s) as [[x y]|] eqn:E; [|reflexivity].
  destruct (greedyPair_sound _ _ _ E) as (-> & _).
  rewrite includes_app in H. discriminate.
Qed.

Lemma includes_cons_false (c : N) (s p : jsstring) :
  startsWith (c :: s) p = false -> includes s p = false ->
  includes (c :: s) p = false.
Proof. intros H1 H2. cbn [includes]. rewrite H1, H2. reflexivity. Qed.

Lemma greedyPair_cons_none (c : N) (s : jsstring) :
  greedyPair s = None -> strip_prefix (lit " b/") s = None ->
  greedyPair (c :: s) = None.
Proof. intros H1 H2. cbn [greedyPair]. rewrite H1, H2. reflexivity. Qed.

Lemma greedyPair_last (x y : jsstring) :
  x <> [] -> y <> [] -> includes y (lit " b/") = false ->
  greedyPair (x ++ lit " b/" ++ y) = Some (x, y).
Proof.
  intros Hx Hy Hi.
  assert (Hsep : greedyPair (lit " b/" ++ y) = None).
  { change (lit " b/" ++ y) with (32 :: 98 :: 47 :: y).
    apply greedyPair_cons_none; [|reflexivity].
    apply greedyPair_none.
    apply includes_cons_false; [reflexivity|].
    apply includes_cons_false; [reflexivity | exact Hi]. }
  induction x as [|c x IH]; [congruence|].
  change ((c :: x) ++ lit " b/" ++ y) with (c :: x ++ lit " b/" ++ y).
  cbn [greedyPair]. destruct x as [|c' x].
  - cbn [app]. rewrite Hsep, strip_prefix_app.
    destruct y; [congruence | reflexivity].
  - rewrite IH by discriminate. reflexivity.
Qed.

Lemma matchFileHeader_text (o n : jsstring) :
  o <> [] -> n <> [] ->
  noLineTerminator o = true -> noLineTerminator n = true ->
  includes n (lit " b/") = false ->
  matchFileHeader (lit "a/" ++ o ++ lit " b/" ++ n) = Some (o, n).
Proof.
  intros Ho Hn Lo Ln Hi. unfold matchFileHeader.
  rewrite strip_prefix_app, !noLT_app, Lo, Ln.
  change (noLineTerminator (lit " b/")) with true. cbn [andb].
  apply greedyPair_last; assumption.
Qed.

(** X7.  When the first line of a block is recognised with the names [o]
    and [n], the line is [a/o b/n], both names are non-empty and neither
    holds a line terminator.  Conversely the line [a/o b/n] written for
    such names is recognised, and it gives back [o] and [n] provided [n]
    does not contain [" b/"] (the old name takes all up to the last
    [" b/"]). *)
Theorem file_header_names (o n : jsstring) :
  (forall l,
     matchFileHeader l = Some (o, n) ->
     l = lit "a/" ++ o ++ lit " b/" ++ n /\ o <> [] /\ n <> [] /\
     noLineTerminator o = true /\ noLineTerminator n = true) /\
  (o <> [] -> n <> [] ->
   noLineTerminator o = true -> noLineTerminator n = true ->
   includes n (lit " b/") = false ->
   matchFileHeader (lit "a/" ++ o ++ lit " b/" ++ n) = Some (o, n)).
Proof.
  split.
  - intros l. unfold matchFileHeader.
    destruct (strip_prefix (lit "a/") l) as [r|] eqn:E; [|discriminate].
    apply strip_prefix_Some in E.
    destruct (noLineTerminator r) eqn:Hn; [|discriminate].
    intros H. destruct (greedyPair_sound _ _ _ H) as (-> & Ho & Hy).
    rewrite !noLT_app in Hn.
    apply andb_true_iff in Hn as [H1 H2]. apply andb_true_iff in H2 as [_ H2].
    subst l. auto.
  - apply matchFileHeader_text.
Qed.

Lemma file_header_names_witness :
  matchFileHeader (lit "a/src/old name.ts b/src/new name.ts") =
  Some (lit "src/old name.ts", lit "src/new name.ts").
Proof.
  exact (proj2 (file_header_names (lit "src/old name.ts")
                  (lit "src/new name.ts"))
           ltac:(discriminate) ltac:(discriminate) eq_refl eq_refl eq_refl).
Defined.

Lemma matchFileHeader_nonempty (l o n : jsstring) :
  matchFileHeader l = Some (o, n) -> o <> [] /\ n <> [].
Proof.
  unfold matchFileHeader.
  destruct (strip_prefix (lit "a/") l) as [r|]; [|discriminate].
  destruct (noLineTerminator r); [|discriminate].
  intros H. destruct (greedyPair_sound _ _ _ H) as (_ & Ho & Hn). auto.
Qed.

(** X8.  A [DiffFile] never has an empty [filename]; it has an
    [oldFilename] exactly when its status is renamed, and then
    [oldFilename] is the name after [a/] of the first line, not empty, and
    [filename] is the name after [b/]. *)
Theorem file_names (lower : jsstring -> jsstring) (ls : list jsstring)
    (f : DiffFile) :
  parseFileBlock lower ls = Some f ->
  filename f <> [] /\
  (oldFilename f <> None <-> status f = Status.renamed) /\
  (forall old,
     oldFilename f = Some old ->
     old <> [] /\
     matchFileHeader (hd [] ls) = Some (old, filename f)).
Proof.
  intros Hf. apply parseFileBlock_Some in Hf
    as (firstLine & rest & o & n & -> & Hm & ->).
  destruct (matchFileHeader_nonempty _ _ _ Hm) as [Ho Hn].
  unfold fileOf. cbn [hd].
  destruct (hasBinaryMarker (firstLine :: rest));
    destruct (classifyStatus (firstLine :: rest));
    cbn [filename oldFilename status]; repeat split; intros;
    try congruence; try discriminate.
Qed.

Lemma file_names_witness :
  let f := mkDiffFile (lit "new.txt") (Some (lit "old.txt")) Status.renamed
             0 0 [] None None in
  filename f <> [] /\
  (oldFilename f <> None <-> status f = Status.renamed) /\
  (forall old,
     oldFilename f = Some old ->
     old <> [] /\
     matchFileHeader (lit "a/old.txt b/new.txt") = Some (old, filename f)).
Proof.
  intros f.
  exact (file_names (fun s => s)
           [lit "a/old.txt b/new.txt"; lit "similarity index 100%";
            lit "rename from old.txt"; lit "rename to new.txt"] f eq_refl).
Defined.

(* ================================================================= *)
(** ** [isImageFile] *)

Lemma lastIndexOf_absent (c : N) (s : jsstring) :
  ~ In c s -> lastIndexOf c s = (-1)%Z.
Proof.
  induction s as [|d s IH]; intros H; [reflexivity|].
  cbn [lastIndexOf]. rewrite IH by (intros Hin; apply H; right; exact Hin).
  cbn. destruct (N.eqb_spec d c) as [->|]; [|reflexivity].
  exfalso. apply H. left. reflexivity.
Qed.

Lemma lastIndexOf_last (c : N) (a b : jsstring) :
  ~ In c b -> lastIndexOf c (a ++ c :: b) = Z.of_nat (List.length a).
Proof.
  intros Hb. induction a as [|d a IH].
  - cbn [app lastIndexOf]. rewrite (lastIndexOf_absent _ _ Hb).
    cbn. rewrite N.eqb_refl. reflexivity.
  - cbn [app lastIndexOf List.length]. rewrite IH.
    destruct (Z.leb_spec 0 (Z.of_nat (List.length a))); lia.
Qed.

Lemma lowerUnit_dot (d : N) : lowerUnit d = 46 -> d = 46.
Proof.
  unfold lowerUnit.
  destruct ((65 <=? d) && (d <=? 90)) eqn:E; [|auto].
  apply andb_true_iff in E as [E1 E2]. apply N.leb_le in E1, E2. lia.
Qed.

Lemma extension_shape (e : jsstring) :
  In e imageExtensions -> exists e', e = 46 :: e' /\ ~ In 46 e'.
Proof.
  unfold imageExtensions.
  intros H. repeat (destruct H as [<-|H]); try destruct H;
    (eexists; split; [reflexivity|]);
    cbn; intros K; repeat (destruct K as [K|K]; [discriminate|]);
    exact K.
Qed.

(** X9.  For a name that [toLowerCase] lower-cases unit by unit in ASCII
    (as it does a name of ASCII units), [isImageFile] holds exactly when
    the name ends in one of the seven extensions written in any mix of
    upper and lower case: the text is taken from the last dot, so
    [PHOTO.JPG] is an image and [a.png.txt], [png] and [a.pngx] are
    not. *)
Theorem isImageFile_extension (lower : jsstring -> jsstring)
    (name : jsstring) :
  lower name = asciiLower name ->
  (isImageFile lower name = true <->
   exists base ext,
     name = base ++ ext /\ In (asciiLower ext) imageExtensions).
Proof.
  intros Hl. unfold isImageFile, substring_from. rewrite Hl.
  rewrite arr_includes_In. unfold asciiLower. split.
  - intros H.
    exists (firstn (Z.to_nat (lastIndexOf 46 name)) name),
           (skipn (Z.to_nat (lastIndexOf 46 name)) name).
    rewrite firstn_skipn. split; [reflexivity|].
    rewrite <- skipn_map. exact H.
  - intros (base & ext & -> & H).
    destruct (extension_shape _ H) as (e' & He & Hno).
    destruct ext as [|d ext']; [discriminate|].
    cbn [map] in He. injection He as Hd He'.
    apply lowerUnit_dot in Hd. subst d.
    assert (Hext : ~ In 46 ext').
    { intros Hin. apply Hno. rewrite <- He'.
      apply (in_map lowerUnit) in Hin. exact Hin. }
    rewrite (lastIndexOf_last _ _ _ Hext), Nat2Z.id.
    rewrite map_app, skipn_app, length_map, skipn_all2, Nat.sub_diag
      by (rewrite length_map; lia).
    exact H.
Qed.

Lemma isImageFile_extension_witness :
  isImageFile asciiLower (lit "Holiday.Photo.JPG") = true.
Proof.
  apply (proj2 (isImageFile_extension asciiLower (lit "Holiday.Photo.JPG")
                  eq_refl)).
  exists (lit "Holiday.Photo"), (lit ".JPG").
  split; [reflexivity|]. vm_compute. auto.
Defined.

(* ================================================================= *)
(** ** A text of several blocks *)

Lemma chunkStep_empty_line (st : ChunkState) : chunkStep st [] = st.
Proof. unfold chunkStep. cbn. destruct (currentChunk st); reflexivity. Qed.

Lemma parseChunks_trailing (ls : list jsstring) :
  parseChunks (ls ++ [[]]) = parseChunks ls.
Proof.
  unfold parseChunks. rewrite fold_left_app. cbn [fold_left].
  rewrite chunkStep_empty_line. reflexivity.
Qed.

Lemma existsb_trailing (p : jsstring -> bool) (ls : list jsstring) :
  p [] = false -> existsb p (ls ++ [[]]) = existsb p ls.
Proof.
  intros H. rewrite existsb_app. cbn [existsb]. rewrite H.
  rewrite !orb_false_r. reflexivity.
Qed.

(** The empty string after the last line feed of a block changes
    nothing. *)
Lemma parseFileBlock_trailing (lower : jsstring -> jsstring)
    (ls : list jsstring) :
  ls <> [] ->
  parseFileBlock lower (ls ++ [[]]) = parseFileBlock lower ls.
Proof.
  destruct ls as [|firstLine rest]; [congruence|]. intros _.
  change ((firstLine :: rest) ++ [[]]) with (firstLine :: (rest ++ [[]])).
  destruct (matchFileHeader firstLine) as [[o n]|] eqn:Hm.
  - rewrite !(parseFileBlock_fileOf _ _ _ _ _ Hm). f_equal.
    change (firstLine :: (rest ++ [[]])) with ((firstLine :: rest) ++ [[]]).
    unfold fileOf, classifyStatus, hasLineWith, hasBinaryMarker.
    rewrite !existsb_trailing, parseChunks_trailing by reflexivity.
    reflexivity.
  - rewrite !(parseFileBlock_None _ _ _ Hm). reflexivity.
Qed.

Lemma blank_first_unit (s : jsstring) :
  truthy (trim s) = false ->
  match s with
  | [] => True
  | c :: _ => isWhiteSpace c = true
  end.
Proof.
  destruct s as [|c s]; [trivial|]. intros H.
  destruct (isWhiteSpace c) eqn:E; [reflexivity|].
  rewrite trim_truthy in H; [discriminate|].
  cbn [existsb]. rewrite E. reflexivity.
Qed.

(** A blank block has no recognised first line. *)
Lemma blank_block_unrecognised (lower : jsstring -> jsstring)
    (block : jsstring) :
  truthy (trim block) = false ->
  parseFileBlock lower (split LF block) = None.
Proof.
  intros H. apply blank_first_unit in H.
  destruct (split_cons LF block) as (firstLine & rest & E).
  rewrite E. apply parseFileBlock_None.
  unfold split in E. destruct block as [|c block].
  - cbn in E. injection E as <- <-. reflexivity.
  - cbn [split_on] in E. destruct (split_on LF block) as [l ls].
    destruct (c =? LF); injection E as <- <-; [reflexivity|].
    unfold matchFileHeader. change (lit "a/") with [97; 47].
    cbn [strip_prefix].
    destruct (N.eqb_spec c 97) as [->|]; [discriminate | reflexivity].
Qed.

Lemma flat_map_filter {A B} (p : A -> bool) (g : A -> list B) (l : list A) :
  (forall x, p x = false -> g x = []) ->
  flat_map g (filter p l) = flat_map g l.
Proof.
  intros H. induction l as [|x l IH]; [reflexivity|]. cbn [filter flat_map].
  destruct (p x) eqn:E; cbn [flat_map]; rewrite IH;
    [|rewrite (H x E)]; reflexivity.
Qed.

Lemma quietLines_noLF (bol : bool) (ls : list jsstring) :
  quietLines bol ls -> Forall (fun l => noLF l = true) ls.
Proof.
  destruct ls as [|l ls]; [constructor|]. intros [[Hn _] Hrest].
  constructor; [exact Hn|].
  eapply Forall_impl; [|exact Hrest]. intros x [Hx _]; exact Hx.
Qed.

Lemma parseDiffOutput_blocks (lower : jsstring -> jsstring)
    (bs : list (list jsstring)) :
  Forall (fun ls => ls <> [] /\ quietLines false ls) bs ->
  parseDiffOutput lower (blocksText bs) =
  flat_map (fun ls => optList (parseFileBlock lower ls)) bs.
Proof.
  intros H. rewrite parseDiffOutput_flat_map.
  unfold fileBlocks, splitDiffGit.
  rewrite (splitMarker_blocks bs [] H). cbn [rev filter].
  change (truthy (trim [])) with false. cbv iota.
  rewrite flat_map_filter.
  - induction H as [|ls bs [Hne Hq] _ IH]; [reflexivity|].
    cbn [map flat_map]. rewrite IH.
    rewrite (split_unlines _ (quietLines_noLF _ _ Hq)).
    rewrite (parseFileBlock_trailing _ _ Hne). reflexivity.
  - intros block Hb. rewrite (blank_block_unrecognised _ _ Hb). reflexivity.
Qed.

(** X10.  A text that is written as blocks, each the marker
    ["diff --git "] followed by lines closed by line feeds, parses block
    by block: the files of the text are, in order, the files of the
    blocks, a block whose first line is not recognised giving none.  The
    lines must be free of line feeds and must not let the marker match
    inside a block (no line starts with it, none holds a line terminator
    directly followed by it). *)
Theorem parse_block_by_block (lower : jsstring -> jsstring)
    (bs : list (list jsstring)) :
  Forall (fun ls => ls <> [] /\ quietLines false ls) bs ->
  parseDiffOutput lower (blocksText bs) =
  flat_map (fun ls => optList (parseFileBlock lower ls)) bs.
Proof. apply parseDiffOutput_blocks. Qed.

Lemma parse_block_by_block_witness :
  let b1 := [lit "a/new.txt b/new.txt"; lit "new file mode 100644";
             lit "@@ -0,0 +1 @@"; lit "+hello"] in
  let b2 := [lit "a/m.txt b/m.txt"; lit "--- a/m.txt"; lit "+++ b/m.txt";
             lit "@@ -1,3 +1,3 @@"; lit " k"; lit "-old"; lit "+new";
             lit " z"] in
  parseDiffOutput (fun s => s) (blocksText [b1; b2]) =
  optList (parseFileBlock (fun s => s) b1) ++
  optList (parseFileBlock (fun s => s) b2) ++ [].
Proof.
  intros b1 b2.
  refine (parse_block_by_block (fun s => s) [b1; b2] _).
  repeat constructor; try discriminate; reflexivity.
Defined.

(* ================================================================= *)
(** ** The synthetic diff of one file, read back *)

Lemma join_split (s : jsstring) : join LF (split LF s) = s.
Proof.
  unfold split, join. induction s as [|c s IH]; [reflexivity|].
  cbn [split_on]. destruct (split_on LF s) as [l ls].
  destruct (N.eqb_spec c LF) as [->|].
  - cbn [app flat_map]. rewrite IH. reflexivity.
  - cbn [app]. rewrite IH. reflexivity.
Qed.

Lemma numberLines_plus (ls : list jsstring) : forall o n,
  n + N.of_nat (List.length ls) <= 2 ^ 53 ->
  numberLines o n (map (fun l => lit "+" ++ l) ls ++ [[]]) = addedLines n ls.
Proof.
  induction ls as [|l ls IH]; intros o n Hn; [reflexivity|].
  cbn [List.length] in Hn.
  cbn [map app]. change (lit "+" ++ l) with (43 :: l).
  change (numberLines o n ((43 :: l) ::
            map (fun l => lit "+" ++ l) ls ++ [[]]))
    with (mkDiffLine LineType.added l None (Some n) ::
          numberLines o (increment n)
            (map (fun l => lit "+" ++ l) ls ++ [[]])).
  rewrite increment_exact by lia. rewrite IH by lia. reflexivity.
Qed.

Lemma addedLines_content (ls : list jsstring) : forall n,
  map content (addedLines n ls) = ls.
Proof.
  induction ls as [|l ls IH]; intros n; [reflexivity|].
  cbn [addedLines map content]. rewrite IH. reflexivity.
Qed.

Lemma addedLines_count (ty : LineType.t) (ls : list jsstring) : forall n,
  List.length (filter (fun d => LineType.eqb (type d) ty)
                      (addedLines n ls)) =
  if LineType.eqb LineType.added ty then List.length ls else 0%nat.
Proof.
  induction ls as [|l ls IH]; intros n.
  - destruct (LineType.eqb LineType.added ty); reflexivity.
  - cbn [addedLines filter type]. specialize (IH (n + 1)).
    destruct (LineType.eqb LineType.added ty); cbn [List.length];
      rewrite IH; reflexivity.
Qed.

(** X11.  The synthetic diff of one file reads back to the file.  For a
    path that is not empty, holds no line terminator and no [" b/"], and
    a content in which no line terminator is directly followed by
    ["diff --git "], when neither the path nor a line of the file contains
    ["Binary files"]: the synthetic block parses to exactly one
    [DiffFile], named by the path, with status added, as many additions
    as the file has lines, no deletion, and one chunk [-0,0 +1,k] whose
    lines are the lines of the file, all added and numbered from 1;
    joining their contents with line feeds gives the content of the
    file.  The file has fewer than 2^53 lines, as the array of its lines
    has in the source, an array being shorter than 2^32: the count [k] and
    the line numbers are then exact. *)
Theorem synthetic_round_trip (lower : jsstring -> jsstring)
    (name fileContent : jsstring) :
  wellFormedPath name = true ->
  includes name (lit " b/") = false ->
  wellFormedContent fileContent = true ->
  hasBinaryMarker (syntheticLines name fileContent) = false ->
  N.of_nat (List.length (split LF fileContent)) < 2 ^ 53 ->
  let ls := split LF fileContent in
  let k := N.of_nat (List.length ls) in
  parseDiffOutput lower (syntheticBlock name fileContent) =
  [mkDiffFile name None Status.added k 0
     [mkDiffChunk 0 0 1 k (addedLines 1 ls)] None None] /\
  join LF (map content (addedLines 1 ls)) = fileContent.
Proof.
  intros Hp Hb Hc Hbin Hk ls k. split;
    [|rewrite addedLines_content; apply join_split].
  destruct (syntheticLines_quiet _ _ Hp Hc) as [Hq _].
  pose proof (wellFormedPath_parts _ Hp) as [Hne Hlt].
  rewrite syntheticBlock_lines.
  replace (diffGitMarker ++ unlines (syntheticLines name fileContent))
    with (blocksText [syntheticLines name fileContent])
    by (unfold blocksText; cbn [map List.concat]; apply app_nil_r).
  rewrite parseDiffOutput_blocks
    by (constructor; [split; [discriminate | exact Hq] | constructor]).
  cbn [flat_map]. rewrite app_nil_r.
  set (block := syntheticLines name fileContent) in *.
  pose proof (matchFileHeader_text name name Hne Hne Hlt Hlt Hb) as Hm.
  rewrite (parseFileBlock_fileOf lower _ (tl block) name name Hm
           : parseFileBlock lower block = _).
  cbn [optList]. f_equal. unfold fileOf.
  assert (Hs : classifyStatus block = Status.added).
  { unfold classifyStatus, hasLineWith.
    change block with
      ((lit "a/" ++ name ++ lit " b/" ++ name) ::
       lit "new file mode 100644" :: tl (tl block)).
    cbn [existsb].
    change (startsWith (lit "new file mode 100644") (lit "new file mode"))
      with true.
    cbn [orb]. rewrite orb_true_r. reflexivity. }
  change ((lit "a/" ++ name ++ lit " b/" ++ name) :: tl block) with block.
  rewrite Hs, Hbin.
  rewrite <- (parseChunks_trailing block).
  fold ls in Hk. fold k in Hk.
  pose proof (parseChunks_synthetic name fileContent) as Hch.
  cbv zeta in Hch. fold block in Hch. fold ls in Hch. fold k in Hch.
  rewrite (Hch ltac:(lia)), numberLines_plus by (fold k; lia).
  rewrite !countLines_filter.
  cbn [flat_map lines]. rewrite !app_nil_r, !addedLines_count.
  reflexivity.
Qed.

Lemma synthetic_round_trip_witness :
  parseDiffOutput (fun s => s)
    (syntheticBlock (lit "src/a.txt") (lit "one" ++ [LF] ++ lit "two")) =
  [mkDiffFile (lit "src/a.txt") None Status.added 2 0
     [mkDiffChunk 0 0 1 2
        [mkDiffLine LineType.added (lit "one") None (Some 1);
         mkDiffLine LineType.added (lit "two") None (Some 2)]]
     None None].
Proof.
  exact (proj1 (synthetic_round_trip (fun s => s) (lit "src/a.txt")
                  (lit "one" ++ [LF] ++ lit "two")
                  eq_refl eq_refl eq_refl eq_refl eq_refl)).
Defined.

(* ================================================================= *)
(** ** [parseDiff]: results, failures and calls *)

Lemma bind_inr {A B} (m : M A) (k : A -> M B) (t : list event) (b : B) :
  bind m k = (t, inr b) ->
  exists t1 a t2, m = (t1, inr a) /\ k a = (t2, inr b) /\ t = t1 ++ t2.
Proof.
  unfold bind. destruct m as [t1 [e|a]]; [discriminate|].
  destruct (k a) as [t2 r] eqn:E. intros H. injection H as <- ->.
  exists t1, a, t2. auto.
Qed.

Lemma Forall_bind {A B} (P : event -> Prop) (m : M A) (k : A -> M B) :
  Forall P (fst m) ->
  (forall t a, m = (t, inr a) -> Forall P (fst (k a))) ->
  Forall P (fst (bind m k)).
Proof.
  unfold bind. destruct m as [t [e|a]]; cbn [fst]; intros Hm Hk; [exact Hm|].
  specialize (Hk t a eq_refl). destruct (k a) as [t' r]. cbn [fst] in *.
  apply Forall_app; auto.
Qed.

Lemma Forall_perform {A} (P : event -> Prop) (ev : event)
    (answer : thrown + A) :
  P ev -> Forall P (fst (perform ev answer)).
Proof. intros H. constructor; [exact H | constructor]. Qed.

Lemma Forall_tryCatch {A} (P : event -> Prop) (m : M A)
    (h : thrown -> M A) :
  Forall P (fst m) -> (forall e, Forall P (fst (h e))) ->
  Forall P (fst (tryCatch m h)).
Proof.
  unfold tryCatch. destruct m as [t [e|a]]; cbn [fst]; intros Hm Hh;
    [|exact Hm].
  specialize (Hh e). destruct (h e) as [t' r]. cbn [fst] in *.
  apply Forall_app; auto.
Qed.

Lemma parseDiff_outcome (lower : jsstring -> jsstring) (env : Env)
    (target base : jsstring) (ignoreWhitespace : bool) :
  match snd (parseDiff lower env target base ignoreWhitespace) with
  | inr r =>
      exists rawDiff,
        files r = parseDiffOutput lower rawDiff /\
        isEmpty r = Nat.eqb (List.length (files r)) 0
  | inl e => exists cause, e = wrapped cause
  end.
Proof.
  unfold parseDiff.
  match goal with
  | |- context [tryCatch ?m ?h] => destruct m as [t [e|r]] eqn:E
  end; cbn [tryCatch throw snd].
  - exists e. reflexivity.
  - apply bind_inr in E as (t1 & [] & t2 & _ & E & _).
    apply bind_inr in E as (t3 & [label args] & t4 & _ & E & _).
    apply bind_inr in E as (t5 & rawDiff & t6 & _ & E & _).
    unfold ret in E. injection E as _ <-. exists rawDiff. split; reflexivity.
Qed.

(** X12.  In every [DiffResponse] that [parseDiff] returns, [isEmpty] is
    true exactly when [files] is empty, and [files] is the parse of one
    diff text. *)
Theorem isEmpty_iff_no_files (lower : jsstring -> jsstring) (env : Env)
    (target base : jsstring) (ignoreWhitespace : bool) (r : DiffResponse) :
  snd (parseDiff lower env target base ignoreWhitespace) = inr r ->
  (isEmpty r = true <-> files r = []) /\
  exists rawDiff, files r = parseDiffOutput lower rawDiff.
Proof.
  intros H. pose proof (parseDiff_outcome lower env target base
                          ignoreWhitespace) as P.
  rewrite H in P. destruct P as (rawDiff & Hf & He). split; [|eauto].
  rewrite He. destruct (files r); cbn; split; congruence.
Qed.

Lemma isEmpty_iff_no_files_witness :
  let env := mkEnv (fun _ => inr (lit "0123456789abcdef"))
                   (fun _ => inr [])
                   (inr ([], []))
                   (fun _ => inr true)
                   (fun _ => inr []) in
  let r := mkDiffResponse [] (lit "0123456..0123456") true in
  isEmpty r = true <-> files r = [].
Proof.
  intros env r.
  exact (proj1 (isEmpty_iff_no_files (fun s => s) env (lit "HEAD")
                  (lit "main") false r eq_refl)).
Defined.

Lemma fails_ret {A} (env : Env) (a : A) : failsAtLastCall env (ret a).
Proof. intros e H. discriminate. Qed.

Lemma fails_bind {A B} (env : Env) (m : M A) (k : A -> M B) :
  failsAtLastCall env m -> (forall a, failsAtLastCall env (k a)) ->
  failsAtLastCall env (bind m k).
Proof.
  intros Hm Hk e. unfold bind. destruct m as [t [e0|a]]; cbn [snd fst].
  - intros H. injection H as <-. exact (Hm e0 eq_refl).
  - specialize (Hk a). destruct (k a) as [t' r]. cbn [snd fst]. intros H.
    destruct (Hk e H) as (before & ev & E & Hev). cbn [fst] in E.
    exists (t ++ before), ev. rewrite E, app_assoc. auto.
Qed.

Lemma fails_revparse (env : Env) (ref : jsstring) :
  failsAtLastCall env (perform (EvRevparse ref) (git_revparse env ref)).
Proof.
  intros e H. cbn [perform snd] in H. exists [], (EvRevparse ref).
  cbn [thrownBy]. rewrite H. auto.
Qed.

Lemma fails_raw (env : Env) (args : list jsstring) :
  failsAtLastCall env (perform (EvRaw args) (git_raw env args)).
Proof.
  intros e H. cbn [perform snd] in H. exists [], (EvRaw args).
  cbn [thrownBy]. rewrite H. auto.
Qed.

Lemma fails_status (env : Env) :
  failsAtLastCall env (perform EvStatus (git_status env)).
Proof.
  intros e H. cbn [perform snd] in H. exists [], EvStatus.
  cbn [thrownBy]. rewrite H. auto.
Qed.

Lemma fails_caught {A} (env : Env) (m : M A) (a : A) :
  failsAtLastCall env (tryCatch m (fun _ => ret a)).
Proof.
  intros e. unfold tryCatch. destruct m as [t [e0|x]]; discriminate.
Qed.

Lemma fails_resolve (env : Env) (target base : jsstring) :
  failsAtLastCall env (resolveComparison env target base).
Proof.
  unfold resolveComparison.
  destruct (str_eqb target (lit "working")); [apply fails_ret|].
  destruct (str_eqb target (lit "staged")).
  { apply fails_bind; [apply fails_revparse | intros a; apply fails_ret]. }
  destruct (str_eqb target (lit ".")); [apply fails_caught|].
  apply fails_bind; [apply fails_revparse | intros th].
  apply fails_bind; [apply fails_revparse | intros bh; apply fails_ret].
Qed.

Lemma fails_rawDiff (env : Env) (args : list jsstring) :
  failsAtLastCall env (rawDiffFor env args).
Proof.
  unfold rawDiffFor.
  destruct (Nat.eqb (List.length args) 0); [apply fails_raw|].
  destruct (arr_includes args (lit "--no-index")); [|apply fails_raw].
  apply fails_bind; [apply fails_status | intros [paths notAdded]].
  destruct (Nat.eqb _ 0); [apply fails_ret|].
  intros e H. destruct (createSynthetic_ok env (paths ++ notAdded))
    as (t & E & _).
  rewrite E in H. discriminate.
Qed.

Lemma invalid_message (target : jsstring) (compareWith : option jsstring) :
  valid (validateDiffArguments target compareWith) = false ->
  exists msg,
    validateDiffArguments target compareWith = mkValidation false (Some msg).
Proof.
  unfold validateDiffArguments.
  destruct (arr_includes specialArgs target); [discriminate|].
  destruct (emptyArg target); [eauto|].
  destruct (match compareWith with Some c => emptyArg c | None => false end);
    [eauto | discriminate].
Qed.

(** X13.  Whatever makes [parseDiff] fail, what it throws is an [Error]
    whose message is ["Failed to parse diff: "] followed by the message of
    the cause (or by ["Unknown error"] when the cause is no [Error]); and
    the cause is either the error of the validation, with its message,
    thrown before any call is made, or what the last call that
    [parseDiff] made threw. *)
Theorem failure_is_wrapped (lower : jsstring -> jsstring) (env : Env)
    (target base : jsstring) (ignoreWhitespace : bool) (e : thrown) :
  let run := parseDiff lower env target base ignoreWhitespace in
  snd run = inl e ->
  exists cause,
    e = ErrorObj (lit "Failed to parse diff: " ++
                  match cause with
                  | ErrorObj msg => msg
                  | NonError => lit "Unknown error"
                  end) /\
    ((fst run = [] /\
      exists msg,
        validateDiffArguments target (Some base) =
          mkValidation false (Some msg) /\
        cause = ErrorObj msg) \/
     (exists before ev,
        fst run = before ++ [ev] /\ thrownBy env ev = Some cause)).
Proof.
  cbv zeta. unfold parseDiff.
  destruct (valid (validateDiffArguments target (Some base))) eqn:Ev.
  - cbn [negb].
    match goal with
    | |- context [tryCatch ?m ?h] =>
        assert (F : failsAtLastCall env m); [|destruct m as [t [c|r]]]
    end.
    { apply fails_bind; [apply fails_ret | intros _].
      apply fails_bind; [apply fails_resolve | intros [label args]].
      apply fails_bind; [apply fails_rawDiff | intros rawDiff].
      apply fails_ret. }
    + cbn [tryCatch throw snd fst]. intros H. injection H as <-.
      exists c. split; [reflexivity|]. right.
      destruct (F c eq_refl) as (before & ev & E & Hev). cbn [fst] in E.
      exists before, ev. rewrite app_nil_r. auto.
    + discriminate.
  - destruct (invalid_message _ _ Ev) as (msg & Em). rewrite Em.
    cbn [valid negb error bind throw tryCatch snd fst app].
    intros H. injection H as <-. exists (ErrorObj msg).
    split; [reflexivity|]. left. split; [reflexivity|]. eauto.
Qed.

Lemma failure_is_wrapped_witness :
  let env := mkEnv (fun _ => inr (lit "0123456789abcdef"))
                   (fun _ => inl NonError)
                   (inr ([], []))
                   (fun _ => inr true)
                   (fun _ => inr []) in
  let run := parseDiff (fun s => s) env (lit "HEAD") (lit "main") false in
  exists cause,
    ErrorObj (lit "Failed to parse diff: Unknown error") =
    ErrorObj (lit "Failed to parse diff: " ++
              match cause with
              | ErrorObj msg => msg
              | NonError => lit "Unknown error"
              end) /\
    ((fst run = [] /\
      exists msg,
        validateDiffArguments (lit "HEAD") (Some (lit "main")) =
          mkValidation false (Some msg) /\
        cause = ErrorObj msg) \/
     (exists before ev,
        fst run = before ++ [ev] /\ thrownBy env ev = Some cause)).
Proof.
  intros env run.
  exact (failure_is_wrapped (fun s => s) env (lit "HEAD") (lit "main") false
           _ eq_refl).
Defined.

Lemma allowed_fs (target base : jsstring) (t : list event) :
  Forall isFsEvent t -> Forall (allowedCall target base) t.
Proof.
  intros H. eapply Forall_impl; [|exact H].
  intros [ | | | | | ]; cbn; tauto.
Qed.

Lemma allowed_resolve (env : Env) (target base : jsstring) :
  Forall (allowedCall target base) (fst (resolveComparison env target base)).
Proof.
  unfold resolveComparison.
  destruct (str_eqb target (lit "working")); [constructor|].
  destruct (str_eqb target (lit "staged")).
  { apply Forall_bind; [apply Forall_perform; right; reflexivity|].
    intros t a _. constructor. }
  destruct (str_eqb target (lit ".")).
  { apply Forall_tryCatch; [|intros e; constructor].
    apply Forall_bind; [apply Forall_perform; right; reflexivity|].
    intros t a _. constructor. }
  apply Forall_bind; [apply Forall_perform; left; reflexivity|].
  intros t th _.
  apply Forall_bind; [apply Forall_perform; right; reflexivity|].
  intros t' bh _. constructor.
Qed.

Lemma allowed_synthetic (env : Env) (target base : jsstring) :
  Forall (allowedCall target base)
    (fst ('(paths, notAdded) <- perform EvStatus (git_status env) ;;
          let allFiles := paths ++ notAdded in
          if Nat.eqb (List.length allFiles) 0 then ret []
          else createSyntheticDiffForAllFiles env allFiles)).
Proof.
  apply Forall_bind; [apply Forall_perform; exact I|].
  intros t [paths notAdded] _. cbv zeta.
  destruct (Nat.eqb (List.length (paths ++ notAdded)) 0); [constructor|].
  destruct (createSynthetic_ok env (paths ++ notAdded)) as (t' & -> & F).
  apply allowed_fs, F.
Qed.

Lemma allowed_raw (env : Env) (target base : jsstring)
    (args : list jsstring) :
  Forall (fun a => a = base \/ a = target \/ a = lit "--cached" \/
                   a = lit "--ignore-all-space") args \/
  arr_includes args (lit "--no-index") = true ->
  Forall (allowedCall target base) (fst (rawDiffFor env args)).
Proof.
  intros Hargs. unfold rawDiffFor.
  destruct (Nat.eqb (List.length args) 0).
  { apply Forall_perform. exists []. split; [reflexivity | constructor]. }
  destruct (arr_includes args (lit "--no-index")).
  - apply allowed_synthetic.
  - destruct Hargs as [Hargs|]; [|discriminate].
    apply Forall_perform. exists args. split; [reflexivity | exact Hargs].
Qed.

Lemma resolve_args (env : Env) (target base : jsstring) (t : list event)
    (label : jsstring) (args : list jsstring) :
  resolveComparison env target base = (t, inr (label, args)) ->
  Forall (fun a => a = base \/ a = target \/ a = lit "--cached" \/
                   a = lit "--ignore-all-space") args \/
  args = [lit "--no-index"; lit "/dev/null"].
Proof.
  unfold resolveComparison.
  destruct (str_eqb target (lit "working")).
  { intros H. injection H as _ _ <-. left. constructor. }
  destruct (str_eqb target (lit "staged")).
  { intros H. apply bind_inr in H as (? & ? & ? & _ & H & _).
    injection H as _ _ <-. left.
    repeat (apply Forall_cons; [auto 6|]). apply Forall_nil. }
  destruct (str_eqb target (lit ".")).
  { unfold tryCatch, perform, bind, ret.
    destruct (git_revparse env base); intros H; injection H as _ _ <-;
      [right; reflexivity|].
    left. repeat (apply Forall_cons; [auto 6|]). apply Forall_nil. }
  intros H. apply bind_inr in H as (? & ? & ? & _ & H & _).
  apply bind_inr in H as (? & ? & ? & _ & H & _).
  injection H as _ _ <-. left.
  repeat (apply Forall_cons; [auto 6|]). apply Forall_nil.
Qed.

(** X14.  The only calls [parseDiff] makes are: [rev-parse] of the target
    or of the base, the status query, the reads of the synthetic diff,
    and [git diff --unified=3] followed by nothing but the base, the
    target, [--cached] and [--ignore-all-space].  The two references are
    handed to git as they are given. *)
Theorem parseDiff_calls (lower : jsstring -> jsstring) (env : Env)
    (target base : jsstring) (ignoreWhitespace : bool) :
  Forall (allowedCall target base)
         (fst (parseDiff lower env target base ignoreWhitespace)).
Proof.
  unfold parseDiff.
  apply Forall_tryCatch; [|intros e; constructor].
  apply Forall_bind.
  { destruct (negb (valid (validateDiffArguments target (Some base))));
      constructor. }
  intros _ _ _.
  apply Forall_bind; [apply allowed_resolve|].
  intros t [label args] E.
  apply Forall_bind; [|intros t' rawDiff _; constructor].
  apply allowed_raw.
  destruct (resolve_args _ _ _ _ _ _ E) as [H| ->].
  - left. destruct ignoreWhitespace; [|exact H].
    apply Forall_app. split; [exact H|].
    apply Forall_cons; [auto 6 | apply Forall_nil].
  - right. destruct ignoreWhitespace; reflexivity.
Qed.

Lemma str_eqb_neq (s t : jsstring) : s <> t -> str_eqb s t = false.
Proof.
  intros H. apply not_true_is_false. intros E. apply str_eqb_eq in E. auto.
Qed.

Lemma rawDiffFor_plain (env : Env) (args : list jsstring) :
  args <> [] ->
  arr_includes args (lit "--no-index") = false ->
  rawDiffFor env args =
  perform (EvRaw ([lit "diff"; lit "--unified=3"] ++ args))
          (git_raw env ([lit "diff"; lit "--unified=3"] ++ args)).
Proof.
  intros Hne Hi. unfold rawDiffFor. rewrite Hi.
  destruct args; [congruence | reflexivity].
Qed.

(** X15.  A comparison of two commits.  When the target is none of the
    tokens, neither reference is blank or the text [--no-index], both
    resolve, and [git diff --unified=3 <base> <target>] (with
    [--ignore-all-space] when asked) answers with a text, [parseDiff]
    makes exactly these three calls in this order and returns the parse of
    the text; the label is the first seven units of the base hash, two
    dots, and the first seven units of the target hash (for a target hash
    that is none of the tokens). *)
Theorem two_commit_comparison (lower : jsstring -> jsstring) (env : Env)
    (target base : jsstring) (ignoreWhitespace : bool)
    (targetHash baseHash rawDiff : jsstring) :
  ~ In target specialArgs -> trim target <> [] -> trim base <> [] ->
  target <> lit "--no-index" -> base <> lit "--no-index" ->
  git_revparse env target = inr targetHash ->
  git_revparse env base = inr baseHash ->
  git_raw env ([lit "diff"; lit "--unified=3"; base; target] ++
               whitespaceFlag ignoreWhitespace) = inr rawDiff ->
  parseDiff lower env target base ignoreWhitespace =
  ([EvRevparse target; EvRevparse base;
    EvRaw ([lit "diff"; lit "--unified=3"; base; target] ++
           whitespaceFlag ignoreWhitespace)],
   inr (mkDiffResponse
          (parseDiffOutput lower rawDiff)
          (createCommitRangeString targetHash baseHash)
          (Nat.eqb (List.length (parseDiffOutput lower rawDiff)) 0))) /\
  (~ In targetHash specialArgs ->
   createCommitRangeString targetHash baseHash =
   substring_to 7 baseHash ++ lit ".." ++ substring_to 7 targetHash).
Proof.
  intros Hs Ht Hb Nt Nb Rt Rb Hraw. split.
  - destruct (not_special _ Hs) as (N1 & N2 & N3).
    unfold parseDiff, resolveComparison.
    rewrite (validate_valid _ _ Hs Ht Hb), N1, N2, N3, Rt, Rb.
    cbn [valid negb bind ret perform app].
    rewrite rawDiffFor_plain.
    + unfold whitespaceFlag in Hraw.
      destruct ignoreWhitespace; cbn [app] in *; rewrite Hraw; reflexivity.
    + destruct ignoreWhitespace; discriminate.
    + unfold arr_includes.
      destruct ignoreWhitespace; cbn [existsb app];
        rewrite !(str_eqb_neq (lit "--no-index")) by congruence;
        reflexivity.
  - intros Hh. destruct (not_special _ Hh) as (N1 & N2 & N3).
    unfold createCommitRangeString, shortHash. rewrite N1, N2, N3.
    reflexivity.
Qed.

Lemma two_commit_comparison_witness :
  let env := mkEnv (fun r => if str_eqb r (lit "main")
                             then inr (lit "aaaaaaaaaaaaaaaa")
                             else inr (lit "bbbbbbbbbbbbbbbb"))
                   (fun _ => inr [])
                   (inr ([], []))
                   (fun _ => inr true)
                   (fun _ => inr []) in
  parseDiff (fun s => s) env (lit "feature") (lit "main") true =
  ([EvRevparse (lit "feature"); EvRevparse (lit "main");
    EvRaw [lit "diff"; lit "--unified=3"; lit "main"; lit "feature";
           lit "--ignore-all-space"]],
   inr (mkDiffResponse [] (lit "aaaaaaa..bbbbbbb") true)).
Proof.
  intros env.
  refine (proj1 (two_commit_comparison (fun s => s) env (lit "feature")
                   (lit "main") true (lit "bbbbbbbbbbbbbbbb")
                   (lit "aaaaaaaaaaaaaaaa") [] _ _ _ _ _ eq_refl eq_refl
                   eq_refl));
    try discriminate.
  vm_compute. intros [H|[H|[H|[]]]]; discriminate.
Defined.

(** X16.  The comparisons on tokens.  With target [working] the base is
    not used: the one call is [git diff --unified=3] and the outcome is
    the parse of its answer under the label
    ["Working Directory (unstaged changes)"], or its failure wrapped.
    With target [staged], respectively [.], and a base other than
    [--no-index] that resolves, the call after [rev-parse] is
    [git diff --unified=3 --cached <base>], respectively
    [git diff --unified=3 <base>], and the label is the first seven units
    of the base hash followed by [" vs Staging Area (staged changes)"],
    respectively [" vs Working Directory (all uncommitted changes)"]. *)
Theorem token_comparisons (lower : jsstring -> jsstring) (env : Env)
    (base : jsstring) (ignoreWhitespace : bool) :
  parseDiff lower env (lit "working") base ignoreWhitespace =
    diffRun lower env [] (lit "Working Directory (unstaged changes)")
            (whitespaceFlag ignoreWhitespace) /\
  (forall baseHash,
     base <> lit "--no-index" ->
     git_revparse env base = inr baseHash ->
     parseDiff lower env (lit "staged") base ignoreWhitespace =
       diffRun lower env [EvRevparse base]
         (substring_to 7 baseHash ++ lit " vs Staging Area (staged changes)")
         ([lit "--cached"; base] ++ whitespaceFlag ignoreWhitespace) /\
     parseDiff lower env (lit ".") base ignoreWhitespace =
       diffRun lower env [EvRevparse base]
         (substring_to 7 baseHash ++
          lit " vs Working Directory (all uncommitted changes)")
         ([base] ++ whitespaceFlag ignoreWhitespace)).
Proof.
  unfold diffRun. split.
  - unfold parseDiff, resolveComparison, rawDiffFor, perform, whitespaceFlag.
    change (validateDiffArguments (lit "working") (Some base))
      with (mkValidation true None).
    destruct ignoreWhitespace; cbn [valid negb bind ret app];
      cbn [str_eqb lit]; cbn;
      match goal with
      | |- context [git_raw env ?a] => destruct (git_raw env a)
      end; reflexivity.
  - intros baseHash Nb Rb.
    pose proof (str_eqb_neq (lit "--no-index") base
                  (fun E => Nb (eq_sym E))) as Hn.
    split.
    + unfold parseDiff, resolveComparison.
      change (validateDiffArguments (lit "staged") (Some base))
        with (mkValidation true None).
      change (str_eqb (lit "staged") (lit "working")) with false.
      change (str_eqb (lit "staged") (lit "staged")) with true.
      cbv iota. rewrite Rb. cbn [valid negb bind ret perform app].
      rewrite rawDiffFor_plain.
      * unfold whitespaceFlag, shortHash.
        destruct ignoreWhitespace; cbn [app fst snd];
          match goal with
          | |- context [git_raw env ?a] => destruct (git_raw env a)
          end; reflexivity.
      * destruct ignoreWhitespace; discriminate.
      * unfold arr_includes.
        destruct ignoreWhitespace; cbn [existsb app]; rewrite Hn;
          reflexivity.
    + unfold parseDiff, resolveComparison.
      change (validateDiffArguments (lit ".") (Some base))
        with (mkValidation true None).
      change (str_eqb (lit ".") (lit "working")) with false.
      change (str_eqb (lit ".") (lit "staged")) with false.
      change (str_eqb (lit ".") (lit ".")) with true.
      cbv iota. rewrite Rb.
      cbn [valid negb bind ret perform app tryCatch].
      rewrite rawDiffFor_plain.
      * unfold whitespaceFlag, shortHash.
        destruct ignoreWhitespace; cbn [app fst snd];
          match goal with
          | |- context [git_raw env ?a] => destruct (git_raw env a)
          end; reflexivity.
      * destruct ignoreWhitespace; discriminate.
      * unfold arr_includes.
        destruct ignoreWhitespace; cbn [existsb app]; rewrite Hn;
          reflexivity.
Qed.

Lemma token_comparisons_witness :
  let env := mkEnv (fun _ => inr (lit "0123456789abcdef"))
                   (fun _ => inr [])
                   (inr ([], []))
                   (fun _ => inr true)
                   (fun _ => inr []) in
  parseDiff (fun s => s) env (lit "staged") (lit "HEAD") false =
  ([EvRevparse (lit "HEAD");
    EvRaw [lit "diff"; lit "--unified=3"; lit "--cached"; lit "HEAD"]],
   inr (mkDiffResponse [] (lit "0123456 vs Staging Area (staged changes)")
                       true)).
Proof.
  intros env.
  refine (proj1 (proj2 (token_comparisons (fun s => s) env (lit "HEAD") false)
                   (lit "0123456789abcdef") _ eq_refl)).
  discriminate.
Defined.

(* ================================================================= *)
(** ** The viewer on what the parser returns *)
















(** X19.  The viewer and the file list show the old name of a file the
    parser returned exactly when the file is classified as renamed and
    the two names of the first line of its block differ. *)
Theorem old_name_shown (lower : jsstring -> jsstring) (ls : list jsstring)
    (f : DiffFile) :
  parseFileBlock lower ls = Some f ->
  (showsOldName f = true <->
   status f = Status.renamed /\
   exists o n, matchFileHeader (hd [] ls) = Some (o, n) /\ o <> n).
Proof.
  intros Hf. apply parseFileBlock_Some in Hf
    as (firstLine & rest & o & n & -> & Hm & ->).
  destruct (matchFileHeader_nonempty _ _ _ Hm) as [Ho Hn].
  cbn [hd]. rewrite Hm. unfold showsOldName, fileOf.
  assert (T : truthy o = true) by (destruct o; [congruence | reflexivity]).
  destruct (hasBinaryMarker (firstLine :: rest));
    destruct (classifyStatus (firstLine :: rest));
    cbn [filename oldFilename status]; rewrite ?T; cbn [andb];
    try (split; [discriminate | intros [Hs _]; discriminate]).
  all: split.
  all: try (intros H; split; [reflexivity|]; exists o, n;
            split; [reflexivity|];
            intros E; subst; rewrite str_eqb_refl in H; discriminate).
  all: intros [_ (o' & n' & E & Hne)]; injection E as <- <-;
    rewrite str_eqb_neq by exact Hne; reflexivity.
Qed.

Lemma old_name_shown_witness :
  showsOldName (mkDiffFile (lit "new.txt") (Some (lit "old.txt"))
                  Status.renamed 0 0 [] None None) = true.
Proof.
  apply (proj2 (old_name_shown (fun s => s)
                  [lit "a/old.txt b/new.txt"; lit "rename from old.txt";
                   lit "rename to new.txt"] _ eq_refl)).
  split; [reflexivity|].
  exists (lit "old.txt"), (lit "new.txt"). split; [reflexivity|discriminate].
Defined.

Lemma ltb_length_filter {A} (p : A -> bool) (l : list A) :
  Nat.ltb 0 (List.length (filter p l)) = existsb p l.
Proof.
  induction l as [|x l IH]; [reflexivity|]. cbn [filter existsb].
  destruct (p x); [reflexivity | exact IH].
Qed.

(** X20.  What the viewer renders for a file the parser returned: the
    binary notice (for an image when the name has an image extension) if
    a line of the block contains ["Binary files"]; otherwise the chunks
    if the block has a hunk header; otherwise the note that there are no
    changes to display, as for a change of mode only or a plain rename. *)
Theorem view_of_block (lower : jsstring -> jsstring) (ls : list jsstring)
    (f : DiffFile) :
  parseFileBlock lower ls = Some f ->
  viewOf f =
  if hasBinaryMarker ls then BinaryNotice (isImageFile lower (filename f))
  else if existsb isHunkHeader ls then Hunks (parseChunks ls)
  else NoChanges.
Proof.
  intros Hf. apply parseFileBlock_Some in Hf
    as (firstLine & rest & o & n & _ & _ & ->).
  unfold viewOf, fileOf.
  destruct (hasBinaryMarker ls); cbn [isBinary isImage truthyFlag chunks];
    [reflexivity|].
  rewrite parseChunks_length, ltb_length_filter. reflexivity.
Qed.

Lemma view_of_block_witness :
  viewOf (mkDiffFile (lit "run.sh") None Status.modified 0 0 [] None None) =
  NoChanges.
Proof.
  exact (view_of_block (fun s => s)
           [lit "a/run.sh b/run.sh"; lit "old mode 100644";
            lit "new mode 100755"] _ eq_refl).
Defined.

(* ================================================================= *)
(** ** The command line *)

Lemma valid_eq (target : jsstring) (compareWith : option jsstring) :
  valid (validateDiffArguments target compareWith) =
  arr_includes specialArgs target ||
  (negb (emptyArg target) &&
   negb match compareWith with
        | Some c => emptyArg c
        | None => false
        end).
Proof.
  unfold validateDiffArguments.
  destruct (arr_includes specialArgs target); [reflexivity|].
  destruct (emptyArg target); [reflexivity|].
  destruct compareWith as [c|]; [destruct (emptyArg c)|]; reflexivity.
Qed.

Lemma emptyArg_false (s : jsstring) : emptyArg s = false <-> trim s <> [].
Proof.
  rewrite <- emptyArg_iff. destruct (emptyArg s); split; congruence.
Qed.

(** X21.  [validateDiffArguments] accepts exactly: a target that is one
    of the tokens [working], [staged], [.] (whatever the second argument),
    or a target that is not blank together with a second argument that is
    undefined or not blank.  Otherwise it names the first blank side, the
    target before the second argument. *)
Theorem validation_accepts (target : jsstring)
    (compareWith : option jsstring) :
  (valid (validateDiffArguments target compareWith) = true <->
   In target specialArgs \/
   (trim target <> [] /\
    forall c, compareWith = Some c -> trim c <> [])) /\
  (valid (validateDiffArguments target compareWith) = false ->
   error (validateDiffArguments target compareWith) =
   Some (if emptyArg target
         then lit "Target commit cannot be empty"
         else lit "Compare-with commit cannot be empty")).
Proof.
  split.
  - rewrite valid_eq, orb_true_iff, andb_true_iff, arr_includes_In,
      !negb_true_iff, emptyArg_false.
    split; (intros [H|[Ht Hc]]; [left; exact H|right; split; [exact Ht|]]).
    + intros c ->. apply emptyArg_false, Hc.
    + destruct compareWith as [c|]; [|reflexivity].
      apply emptyArg_false, Hc. reflexivity.
  - unfold validateDiffArguments.
    destruct (arr_includes specialArgs target); [discriminate|].
    destruct (emptyArg target); [reflexivity|].
    destruct compareWith as [c|]; [destruct (emptyArg c)|];
      try discriminate; reflexivity.
Qed.

Lemma validation_accepts_witness :
  error (validateDiffArguments (lit "HEAD") (Some (lit " "))) =
  Some (lit "Compare-with commit cannot be empty").
Proof.
  exact (proj2 (validation_accepts (lit "HEAD") (Some (lit " "))) eq_refl).
Defined.

Lemma isSpecialArg_includes (arg : jsstring) :
  isSpecialArg arg = arr_includes specialArgs arg.
Proof.
  unfold isSpecialArg, arr_includes, specialArgs. cbn [existsb].
  rewrite orb_false_r, orb_assoc. reflexivity.
Qed.

Lemma emptyArg_caret (s : jsstring) : emptyArg (s ++ lit "^") = false.
Proof.
  apply emptyArg_false. intros H.
  assert (T : truthy (trim (s ++ lit "^")) = true).
  { apply trim_truthy. rewrite existsb_app. cbn. apply orb_true_r. }
  rewrite H in T. discriminate.
Qed.

Lemma chooseComparison_cases (env : Env) (commitish : jsstring)
    (compareWith : option jsstring) (t : list event)
    (target base : jsstring) :
  chooseComparison env commitish compareWith = (t, inr (target, base)) ->
  (target = commitish /\ compareWith = Some base /\ truthy base = true) \/
  (In target specialArgs /\ base <> []) \/
  (target = commitish /\ base = commitish ++ lit "^" /\
   truthyOpt compareWith = false /\ ~ In commitish specialArgs).
Proof.
  unfold chooseComparison.
  destruct (truthyOpt compareWith) eqn:Ec.
  { destruct compareWith as [c|]; [|discriminate]. cbn in Ec.
    intros H. injection H as _ <- <-. left. auto. }
  destruct (str_eqb commitish (lit "working")) eqn:Ew.
  { intros H. injection H as _ <- <-. apply str_eqb_eq in Ew. subst.
    right; left. split; [cbn; auto | discriminate]. }
  destruct (isSpecialArg commitish) eqn:Es.
  { intros H. injection H as _ <- <-.
    rewrite isSpecialArg_includes in Es. apply arr_includes_In in Es.
    right; left. split; [exact Es | discriminate]. }
  unfold tryCatch, perform, bind, ret.
  destruct (git_revparse env (lit "HEAD")); intros H;
    injection H as _ <- <-.
  - right; left. split; [cbn; auto | discriminate].
  - right; right. repeat split; auto.
    intros Hin. apply arr_includes_In in Hin.
    rewrite <- isSpecialArg_includes in Hin. congruence.
Qed.

(** X22.  The target and the base that the command hands on: the base is
    never the empty string, and whenever the command's own validation of
    its two arguments passes, the validation that [parseDiff] then makes
    of target and base passes as well, so [parseDiff] does not fail on an
    empty argument after the command has accepted its arguments. *)
Theorem command_arguments (env : Env) (commitish : jsstring)
    (compareWith : option jsstring) (t : list event)
    (target base : jsstring) :
  chooseComparison env commitish compareWith = (t, inr (target, base)) ->
  base <> [] /\
  (valid (validateDiffArguments target compareWith) = true ->
   valid (validateDiffArguments target (Some base)) = true).
Proof.
  intros H. apply chooseComparison_cases in H
    as [(-> & -> & Hb)|[(Hs & Hb)|(-> & -> & Hc & Hs)]].
  - split; [destruct base; [discriminate | congruence] | auto].
  - split; [exact Hb|]. intros _. rewrite valid_eq.
    apply arr_includes_In in Hs. rewrite Hs. reflexivity.
  - split; [destruct commitish; discriminate|].
    rewrite !valid_eq, emptyArg_caret.
    destruct (arr_includes specialArgs commitish); [reflexivity|].
    cbn [orb negb]. rewrite andb_true_r.
    intros H. apply andb_true_iff in H as [H _]. exact H.
Qed.

Lemma command_arguments_witness :
  let env := mkEnv (fun _ => inr (lit "0123456789abcdef"))
                   (fun _ => inr [])
                   (inr ([], []))
                   (fun _ => inr true)
                   (fun _ => inr []) in
  lit "v2^" <> [] /\
  (valid (validateDiffArguments (lit "v2") None) = true ->
   valid (validateDiffArguments (lit "v2") (Some (lit "v2^"))) = true).
Proof.
  intros env.
  exact (command_arguments env (lit "v2") None _ (lit "v2") (lit "v2^")
           eq_refl).
Defined.

(** X23.  In a repository without a commit ([rev-parse HEAD] fails), the
    command given a commit that is none of the tokens, and no second
    argument, drops that commit: it goes on with target [.] and base
    [HEAD], which passes its validation, and [parseDiff] on these (the
    status query answering) returns the synthetic diff of all files under
    the label ["Working Directory (all files)"]. *)
Theorem command_without_history (lower : jsstring -> jsstring) (env : Env)
    (commitish : jsstring) (compareWith : option jsstring) (e : thrown)
    (paths notAdded : list jsstring) :
  ~ In commitish specialArgs ->
  truthyOpt compareWith = false ->
  git_revparse env (lit "HEAD") = inl e ->
  git_status env = inr (paths, notAdded) ->
  chooseComparison env commitish compareWith =
    ([EvRevparse (lit "HEAD")], inr (lit ".", lit "HEAD")) /\
  valid (validateDiffArguments (lit ".") compareWith) = true /\
  exists t,
    let fs := parseDiffOutput lower (syntheticText env (paths ++ notAdded)) in
    parseDiff lower env (lit ".") (lit "HEAD") false =
    (EvRevparse (lit "HEAD") :: EvStatus :: t,
     inr (mkDiffResponse fs (lit "Working Directory (all files)")
                         (Nat.eqb (List.length fs) 0))).
Proof.
  intros Hs Hc Hrev Hst. split; [|split; [reflexivity|]].
  - unfold chooseComparison. rewrite Hc.
    destruct (not_special _ Hs) as (N1 & N2 & N3).
    unfold isSpecialArg. rewrite N1, N2, N3, Hrev. reflexivity.
  - pose proof (withFlag_no_index false) as [L I].
    destruct (rawDiffFor_no_index env _ paths notAdded L I Hst)
      as (t & E & _).
    exists t. cbv zeta. unfold parseDiff.
    change (validateDiffArguments (lit ".") (Some (lit "HEAD")))
      with (mkValidation true None).
    rewrite (resolve_dot_fallback _ _ _ Hrev).
    cbn [valid negb bind ret]. cbv iota. 
    change (if false
            then [lit "--no-index"; lit "/dev/null"] ++
                 [lit "--ignore-all-space"]
            else [lit "--no-index"; lit "/dev/null"])
      with [lit "--no-index"; lit "/dev/null"] in E.
    rewrite E.
    cbn [bind ret tryCatch app]. rewrite app_nil_r. reflexivity.
Qed.

Lemma command_without_history_witness :
  let env := mkEnv (fun _ => inl (ErrorObj (lit "unknown revision")))
                   (fun _ => inr [])
                   (inr ([], [lit "a.txt"]))
                   (fun _ => inr true)
                   (fun _ => inr (lit "hello")) in
  chooseComparison env (lit "v1.0") None =
  ([EvRevparse (lit "HEAD")], inr (lit ".", lit "HEAD")).
Proof.
  intros env.
  refine (proj1 (command_without_history (fun s => s) env (lit "v1.0") None
                   (ErrorObj (lit "unknown revision")) [] [lit "a.txt"]
                   _ eq_refl eq_refl eq_refl)).
  vm_compute. intros [H|[H|[H|[]]]]; discriminate.
Defined.

Lemma handleUntrackedFiles_run (lower : jsstring -> jsstring)
    (errorText : thrown -> jsstring) (env : Env) (answer : jsstring) :
  handleUntrackedFiles lower errorText env answer =
  match git_status env with
  | inl _ => ([EvStatus], inr tt)
  | inr (_, notAdded) =>
      let fileNames := untrackedShown notAdded in
      if Nat.eqb (List.length fileNames) 0 then ([EvStatus], inr tt)
      else if acceptsAnswer lower answer then
        let args := [lit "add"; lit "--intent-to-add"] ++ fileNames in
        ([EvStatus; EvRaw args],
         match git_raw env args with
         | inl e =>
             inl (ErrorObj
                    (lit "Failed to add files with --intent-to-add: " ++
                     errorText e))
         | inr _ => inr tt
         end)
      else ([EvStatus], inr tt)
  end.
Proof.
  unfold handleUntrackedFiles, findUntrackedFiles, markFilesIntentToAdd,
    tryCatch, perform, bind, ret, throw, untrackedShown.
  destruct (git_status env) as [e|[paths notAdded]]; [reflexivity|].
  cbv zeta.
  destruct (Nat.eqb _ 0); [reflexivity|].
  destruct (acceptsAnswer lower answer); [|reflexivity].
  destruct (git_raw env _); reflexivity.
Qed.

(** X24.  [handleUntrackedFiles] changes the repository only with the
    user's consent.  It makes the status query and then at most one more
    call, [add --intent-to-add] with the untracked paths of the status
    that do not start with a dot; it makes that call exactly when there is
    such a path and the answer at the prompt is accepted (blank, [y] or
    [yes] after lower-casing and trimming).  It fails exactly when that
    call is made and throws, and then with an [Error] whose message is
    ["Failed to add files with --intent-to-add: "] followed by the text of
    what the call threw. *)
Theorem untracked_only_with_consent (lower : jsstring -> jsstring)
    (errorText : thrown -> jsstring) (env : Env) (answer : jsstring) :
  let run := handleUntrackedFiles lower errorText env answer in
  let fileNames := pathsToAdd env in
  let args := lit "add" :: lit "--intent-to-add" :: fileNames in
  (fst run = [EvStatus] \/ fst run = [EvStatus; EvRaw args]) /\
  (fst run = [EvStatus; EvRaw args] <->
   fileNames <> [] /\
   (let normalizedAnswer := trim (lower answer) in
    normalizedAnswer = [] \/ normalizedAnswer = lit "y" \/
    normalizedAnswer = lit "yes")) /\
  Forall (fun file =>
            startsWith file (lit ".") = false /\
            exists paths notAdded,
              git_status env = inr (paths, notAdded) /\ In file notAdded)
         fileNames /\
  (forall e,
     snd run = inl e <->
     exists cause,
       fst run = [EvStatus; EvRaw args] /\
       git_raw env args = inl cause /\
       e = ErrorObj (lit "Failed to add files with --intent-to-add: " ++
                     errorText cause)).
Proof.
  cbv zeta. rewrite handleUntrackedFiles_run. unfold pathsToAdd.
  assert (A : acceptsAnswer lower answer = true <->
              trim (lower answer) = [] \/ trim (lower answer) = lit "y" \/
              trim (lower answer) = lit "yes").
  { unfold acceptsAnswer. cbv zeta.
    rewrite !orb_true_iff, !str_eqb_eq. tauto. }
  destruct (git_status env) as [e0|[paths notAdded]] eqn:Est.
  { cbn [fst snd]. split; [left; reflexivity|].
    split; [split; [discriminate | intros [H _]; congruence]|].
    split; [constructor|].
    intros e. split; [discriminate | intros (c & H & _); discriminate]. }
  cbv zeta.
  assert (F : Forall (fun file =>
                        startsWith file (lit ".") = false /\
                        exists paths0 notAdded0,
                          inr (paths, notAdded) =
                          (inr (paths0, notAdded0)
                           : thrown + (list jsstring * list jsstring)) /\
                          In file notAdded0)
                     (untrackedShown notAdded)).
  { apply Forall_forall. intros file Hin. unfold untrackedShown in Hin.
    apply filter_In in Hin as [Hin Hd]. apply negb_true_iff in Hd.
    split; [exact Hd | eauto]. }
  destruct (untrackedShown notAdded) as [|file files] eqn:Eu.
  { cbn [List.length Nat.eqb fst snd]. split; [left; reflexivity|].
    split; [split; [discriminate | intros [H _]; congruence]|].
    split; [constructor|].
    intros e. split; [discriminate | intros (c & H & _); discriminate]. }
  cbn [List.length Nat.eqb].
  destruct (acceptsAnswer lower answer) eqn:Ea.
  - cbn [fst snd app]. split; [right; reflexivity|].
    split; [split; [intros _; split; [discriminate | apply A; reflexivity]
                   | reflexivity]|].
    split; [exact F|].
    intros e. destruct (git_raw env _) as [cause|r] eqn:Er.
    + split.
      * intros H. injection H as <-. exists cause. auto.
      * intros (c & _ & Hc & ->). injection Hc as <-. reflexivity.
    + split; [discriminate | intros (c & _ & Hc & _); discriminate].
  - cbn [fst snd]. split; [left; reflexivity|].
    split.
    { split; [discriminate|]. intros [_ H]. apply A in H. congruence. }
    split; [exact F|].
    intros e. split; [discriminate | intros (c & H & _); discriminate].
Qed.

Lemma untracked_only_with_consent_witness :
  let env := mkEnv (fun _ => inr (lit "0123456789abcdef"))
                   (fun _ => inl (ErrorObj (lit "locked")))
                   (inr ([], [lit ".env"; lit "notes.txt"]))
                   (fun _ => inr true)
                   (fun _ => inr []) in
  let errorText := fun _ : thrown => lit "Error: locked" in
  let run := handleUntrackedFiles (fun s => s) errorText env (lit "y") in
  let args := lit "add" :: lit "--intent-to-add" :: pathsToAdd env in
  exists cause,
    fst run = [EvStatus; EvRaw args] /\
    git_raw env args = inl cause /\
    ErrorObj (lit "Failed to add files with --intent-to-add: " ++
              lit "Error: locked") =
    ErrorObj (lit "Failed to add files with --intent-to-add: " ++
              errorText cause).
Proof.
  intros env errorText run args.
  exact (proj1 (proj2 (proj2 (proj2
           (untracked_only_with_consent (fun s => s) errorText env
              (lit "y")))) _) eq_refl).
Defined.

(* ================================================================= *)
(** ** The server *)

Lemma findAvailablePort_busy (listen : N -> ListenAnswer) (fuel : nat)
    (port : N) :
  portBusy listen port = true ->
  findAvailablePort listen (S fuel) port =
  findAvailablePort listen fuel (port + 1).
Proof.
  unfold portBusy. cbn [findAvailablePort].
  destruct (listen port) as [a|code err]; [discriminate|].
  intros ->. reflexivity.
Qed.

Lemma findAvailablePort_free (listen : N -> ListenAnswer) (fuel : nat)
    (port : N) :
  portBusy listen port = false ->
  findAvailablePort listen (S fuel) port =
  Some match listen port with
       | Listening (Some p) => inr p
       | Listening None => inr port
       | ListenError _ err => inl err
       end.
Proof.
  unfold portBusy. cbn [findAvailablePort].
  destruct (listen port) as [[p|]|code err]; try reflexivity.
  intros ->. reflexivity.
Qed.

(** X25.  [findAvailablePort] ends at the first port, counting up from
    the preferred one, whose listen attempt does not fail with
    [EADDRINUSE]: when the [k] ports from the preferred one on are in use
    and the next is not, then with more than [k] attempts allowed it
    returns what that port gives (the port of the address, the port itself
    when there is no address object, or the rejection with the error), and
    with [k] attempts or fewer it has not ended. *)
Theorem first_port_not_in_use (listen : N -> ListenAnswer)
    (preferredPort : N) (k : nat) :
  (forall i, (i < k)%nat ->
     portBusy listen (preferredPort + N.of_nat i) = true) ->
  portBusy listen (preferredPort + N.of_nat k) = false ->
  forall fuel,
    findAvailablePort listen fuel preferredPort =
    if Nat.leb fuel k then None
    else Some match listen (preferredPort + N.of_nat k) with
              | Listening (Some p) => inr p
              | Listening None => inr (preferredPort + N.of_nat k)
              | ListenError _ err => inl err
              end.
Proof.
  revert preferredPort.
  induction k as [|k IH]; intros port Hbusy Hfree fuel.
  - destruct fuel as [|fuel]; [reflexivity|].
    cbn [Nat.leb]. rewrite N.add_0_r in *.
    apply findAvailablePort_free, Hfree.
  - destruct fuel as [|fuel]; [reflexivity|].
    rewrite findAvailablePort_busy.
    2:{ specialize (Hbusy 0%nat ltac:(lia)).
        rewrite N.add_0_r in Hbusy. exact Hbusy. }
    replace (port + N.of_nat (S k)) with (port + 1 + N.of_nat k) in * by lia.
    cbn [Nat.leb]. apply IH; [|exact Hfree].
    intros i Hi. specialize (Hbusy (S i) ltac:(lia)).
    replace (port + N.of_nat (S i)) with (port + 1 + N.of_nat i) in Hbusy
      by lia.
    exact Hbusy.
Qed.

Lemma first_port_not_in_use_witness :
  let listen := fun port =>
    if port <? 3002
    then ListenError (lit "EADDRINUSE") (ErrorObj (lit "in use"))
    else Listening (Some port) in
  findAvailablePort listen 5 3000 = Some (inr 3002).
Proof.
  intros listen.
  refine (first_port_not_in_use listen 3000 2 _ eq_refl 5%nat).
  intros [|[|i]] Hi; [reflexivity | reflexivity | lia].
Defined.
